(** * V3Sched: the scheduling core of the Verilog translator, embedded in Rocq

    A shallow embedding of [src/V3Sched.cpp].  The intermediate representation
    (the [Ast*] node classes) is held in a store of nodes addressed by
    pointers; every function of the pass is a computation in a state and
    error monad over that store, written in the order of the C++ text.
    [FileLine] arguments of node constructors are left out, except the one of
    the top module, which the generated divergence message cites. *)

From Stdlib Require Import ZArith List String Ascii Bool Lia DecimalString.
From stdpp Require Import base option list gmap strings.

Local Open Scope Z_scope.
Set Warnings "-register-all,-clear-no-such-hyp".

(** ** Results of fallible code

    [UASSERT_OBJ], [v3fatalSrc] and a failing [unordered_map::at] stop the
    pass; they are [Fatal] results here. *)

Inductive Res (A : Type) : Type :=
| Ok (a : A)
| Fatal (msg : string).
Arguments Ok {A} a.
Arguments Fatal {A} msg.

(** State and error monad: the state is whatever the code mutates. *)
Definition M (S A : Type) : Type := S -> Res (A * S).

#[global] Instance M_ret {S} : MRet (M S) := fun A a s => Ok (a, s).

#[global] Instance M_bind {S} : MBind (M S) := fun A B k m s =>
  match m s with
  | Ok (a, s') => k a s'
  | Fatal msg => Fatal msg
  end.

Definition fatal {S A} (msg : string) : M S A := fun _ => Fatal msg.
Definition get {S} : M S S := fun s => Ok (s, s).
Definition modify {S} (f : S -> S) : M S unit := fun s => Ok (tt, f s).

(** [UASSERT_OBJ(cond, node, msg)] *)
Definition UASSERT_OBJ {S} (cond : bool) (msg : string) : M S unit :=
  if cond then mret tt else fatal msg.

(** Monadic iteration over a vector, in order. *)
Fixpoint forM_ {S A} (l : list A) (f : A -> M S unit) : M S unit :=
  match l with
  | [] => mret tt
  | x :: l' => f x;; forM_ l' f
  end.

(** ** Strings *)

(** The double quote, backslash and newline characters of the C++ literals. *)
Definition dquote : string := String (ascii_of_nat 34) EmptyString.
Definition backslash : string := String (ascii_of_nat 92) EmptyString.
Definition newline : string := String (ascii_of_nat 10) EmptyString.

(** [cvtToStr] on an integer: its decimal form. *)
Definition cvtToStr (n : Z) : string := NilZero.string_of_int (Z.to_int n).

(** ** The IR *)

(** Pointers are addresses in the stores of [AstNetlist]. *)
Abbreviation AstVarScopeP := nat (only parsing).
Abbreviation AstCFuncP := nat (only parsing).
Abbreviation AstSenTreeP := nat (only parsing).
Abbreviation AstActiveP := nat (only parsing).
Abbreviation AstScopeP := nat (only parsing).

Inductive VAccess := READ | WRITE | READWRITE.
Inductive VBranchPred := BP_UNKNOWN | BP_LIKELY | BP_UNLIKELY.

Inductive VEdgeType :=
| ET_ILLEGAL | ET_CHANGED | ET_BOTHEDGE | ET_POSEDGE | ET_NEGEDGE | ET_EVENT
| ET_TRUE | ET_COMBO | ET_HYBRID | ET_STATIC | ET_INITIAL | ET_FINAL | ET_NEVER.

Inductive VBasicDTypeKwd := BIT | TRIGGERVEC | OTHERKWD (name : string).

(** [AstBasicDType{flp, keyword, signing, width, widthMin}]; every type the
    pass creates is unsigned. *)
Record AstBasicDType := mkBasicDType {
  keyword : VBasicDTypeKwd;
  width : Z;
  widthMin : Z
}.

(** The type [createTemp(name, width)] and [dtypeSetBit] look up. *)
Definition bitDType (w : Z) : AstBasicDType := mkBasicDType BIT w w.

(** Statements and expressions.  A [nextp] chain is a list.  [AstOther]
    stands for every node class the pass does not construct or inspect
    itself (user logic and user expressions): a class name, an attribute
    text and the children. *)
Inductive AstNode : Type :=
| AstVarRef (varScopep : AstVarScopeP) (access : VAccess)
| AstConst (dtype : AstBasicDType) (num : Z)
| AstNeq (lhsp rhsp : AstNode)
| AstEq (lhsp rhsp : AstNode)
| AstGt (lhsp rhsp : AstNode)
| AstXor (lhsp rhsp : AstNode)
| AstAnd (lhsp rhsp : AstNode)
| AstOr (lhsp rhsp : AstNode)
| AstAdd (lhsp rhsp : AstNode)
| AstNot (lhsp : AstNode)
| AstSel (fromp : AstNode) (lsb width : Z)
| AstCMethodHard (fromp : AstNode) (name : string) (pinsp : list AstNode)
                 (dtype : option AstBasicDType) (statement pure : bool)
| AstAssign (lhsp rhsp : AstNode)
| AstIf (condp : AstNode) (ifsp elsesp : list AstNode) (branchPred : VBranchPred)
| AstWhile (condp : AstNode) (bodysp : list AstNode)
| AstCCall (funcp : AstCFuncP)
| AstText (text : string) (tracking : bool)
| AstTextBlock (nodesp : list AstNode)
| AstNodeProcedure (bodysp : list AstNode)
| AstOther (type : string) (attr : string) (opsp : list AstNode).

(** [AstConst{flp, uint32_t}] and [AstConst{flp, int}]: a 32 bit number. *)
Definition AstConst32 (num : Z) : AstNode := AstConst (bitDType 32) num.

(** Structural equality ([sameTree], the equality of [VNRef<AstNode>]) is
    decidable. *)
Definition VAccess_eq_dec (x y : VAccess) : {x = y} + {x <> y}.
Proof. decide equality. Defined.

Definition VBranchPred_eq_dec (x y : VBranchPred) : {x = y} + {x <> y}.
Proof. decide equality. Defined.

Definition VBasicDTypeKwd_eq_dec (x y : VBasicDTypeKwd) : {x = y} + {x <> y}.
Proof. decide equality. apply string_dec. Defined.

Definition AstBasicDType_eq_dec (x y : AstBasicDType) : {x = y} + {x <> y}.
Proof.
  decide equality; try apply Z.eq_dec. apply VBasicDTypeKwd_eq_dec.
Defined.

Definition AstNode_eq_dec : forall x y : AstNode, {x = y} + {x <> y}.
Proof.
  fix IH 1.
  decide equality;
    try apply Z.eq_dec; try apply Nat.eq_dec; try apply string_dec;
    try apply Bool.bool_dec; try apply VAccess_eq_dec;
    try apply VBranchPred_eq_dec; try apply AstBasicDType_eq_dec;
    try apply (List.list_eq_dec IH).
  decide equality. apply AstBasicDType_eq_dec.
Defined.

#[global] Instance AstNode_eqdec : EqDecision AstNode := AstNode_eq_dec.

(** [AstNode::nodeCount]: the number of nodes of the tree below and
    including the node (its own [nextp] chain apart).  [AstSel] built from
    two [int]s holds two constants. *)
Fixpoint nodeCount (nodep : AstNode) : Z :=
  let sum := fold_right (fun n acc => nodeCount n + acc) 0 in
  match nodep with
  | AstVarRef _ _ | AstConst _ _ | AstCCall _ | AstText _ _ => 1
  | AstNeq l r | AstEq l r | AstGt l r | AstXor l r | AstAnd l r | AstOr l r
  | AstAdd l r | AstAssign l r => 1 + nodeCount l + nodeCount r
  | AstNot l => 1 + nodeCount l
  | AstSel f _ _ => 3 + nodeCount f
  | AstCMethodHard f _ ps _ _ _ => 1 + nodeCount f + sum ps
  | AstIf c t e _ => 1 + nodeCount c + sum t + sum e
  | AstWhile c b => 1 + nodeCount c + sum b
  | AstTextBlock ns => 1 + sum ns
  | AstNodeProcedure b => 1 + sum b
  | AstOther _ _ ops => 1 + sum ops
  end.

Definition nodeCounts (l : list AstNode) : Z :=
  fold_right (fun n acc => nodeCount n + acc) 0 l.

(** One sensitivity term and a sensitivity list; a list has a first item
    ([sensesp()] is never null) and the rest of the chain. *)
Record AstSenItem := mkSenItem {
  edgeType : VEdgeType;
  sensp : AstNode
}.

Record AstSenTree := mkSenTree {
  sensesp : AstSenItem;
  sensesp_nextp : list AstSenItem
}.

Definition senItems (t : AstSenTree) : list AstSenItem :=
  sensesp t :: sensesp_nextp t.

Record AstVarScope := mkVarScope {
  vsc_name : string;              (* varp()->name() *)
  vsc_scopep : AstScopeP;
  vsc_dtypep : AstBasicDType
}.

Record AstActive := mkActive {
  act_sensesp : AstSenTreeP;
  act_stmtsp : list AstNode
}.

Record AstCFunc := mkCFunc {
  cf_name : string;
  cf_scopep : AstScopeP;
  cf_stmtsp : list AstNode;
  cf_finalsp : list AstNode;
  cf_dontCombine : bool;
  cf_isStatic : bool;
  cf_isLoose : bool;
  cf_slow : bool;
  cf_isConst : bool;
  cf_declPrivate : bool;
  cf_entryPoint : bool;
  cf_ifdef : string
}.

(** [new AstCFunc{fl, name, scopep}]: no statement and every flag off. *)
Definition newAstCFunc (name : string) (scopep : AstScopeP) : AstCFunc :=
  mkCFunc name scopep [] [] false false false false false false false EmptyString.

(** What a scope's [activesp] list links: active blocks and functions. *)
Inductive Block :=
| BActive (activep : AstActiveP)
| BCFunc (funcp : AstCFuncP).

#[global] Instance Block_eqdec : EqDecision Block.
Proof. solve_decision. Defined.

Record AstScope := mkScope {
  sc_nameDotless : string;
  sc_activesp : list Block
}.

(** The netlist: the stores of the nodes that are shared or edited in
    place, and what [AstNetlist] and its [AstTopScope] hold. *)
Record AstNetlist := mkNetlist {
  n_topModuleFileline : string * Z;       (* topModulep()->fileline(): file, line *)
  n_scopes : list AstScope;               (* the AstScope nodes, in tree order *)
  n_topScope : AstScopeP;                 (* topScopep()->scopep() *)
  n_senTreesp : list AstSenTreeP;         (* topScopep()->senTreesp() *)
  n_senTrees : list AstSenTree;           (* store of AstSenTree *)
  n_varScopes : list AstVarScope;         (* store of AstVarScope *)
  n_cfuncs : list AstCFunc;               (* store of AstCFunc *)
  n_actives : list (option AstActive);    (* store of AstActive; None once deleted *)
  n_typeTable : list AstBasicDType;       (* typeTablep()->typesp() *)
  n_evalp : option AstCFuncP;
  n_evalNbap : option AstCFuncP;
  n_dpiExportTriggerp : option AstVarScopeP
}.

Definition set_scopes (f : list AstScope -> list AstScope) (n : AstNetlist) :=
  mkNetlist (n_topModuleFileline n) (f (n_scopes n)) (n_topScope n)
    (n_senTreesp n) (n_senTrees n) (n_varScopes n) (n_cfuncs n) (n_actives n)
    (n_typeTable n) (n_evalp n) (n_evalNbap n) (n_dpiExportTriggerp n).

Definition set_senTreesp (f : list AstSenTreeP -> list AstSenTreeP) (n : AstNetlist) :=
  mkNetlist (n_topModuleFileline n) (n_scopes n) (n_topScope n)
    (f (n_senTreesp n)) (n_senTrees n) (n_varScopes n) (n_cfuncs n) (n_actives n)
    (n_typeTable n) (n_evalp n) (n_evalNbap n) (n_dpiExportTriggerp n).

Definition set_senTrees (f : list AstSenTree -> list AstSenTree) (n : AstNetlist) :=
  mkNetlist (n_topModuleFileline n) (n_scopes n) (n_topScope n)
    (n_senTreesp n) (f (n_senTrees n)) (n_varScopes n) (n_cfuncs n) (n_actives n)
    (n_typeTable n) (n_evalp n) (n_evalNbap n) (n_dpiExportTriggerp n).

Definition set_varScopes (f : list AstVarScope -> list AstVarScope) (n : AstNetlist) :=
  mkNetlist (n_topModuleFileline n) (n_scopes n) (n_topScope n)
    (n_senTreesp n) (n_senTrees n) (f (n_varScopes n)) (n_cfuncs n) (n_actives n)
    (n_typeTable n) (n_evalp n) (n_evalNbap n) (n_dpiExportTriggerp n).

Definition set_cfuncs (f : list AstCFunc -> list AstCFunc) (n : AstNetlist) :=
  mkNetlist (n_topModuleFileline n) (n_scopes n) (n_topScope n)
    (n_senTreesp n) (n_senTrees n) (n_varScopes n) (f (n_cfuncs n)) (n_actives n)
    (n_typeTable n) (n_evalp n) (n_evalNbap n) (n_dpiExportTriggerp n).

Definition set_actives (f : list (option AstActive) -> list (option AstActive))
    (n : AstNetlist) :=
  mkNetlist (n_topModuleFileline n) (n_scopes n) (n_topScope n)
    (n_senTreesp n) (n_senTrees n) (n_varScopes n) (n_cfuncs n) (f (n_actives n))
    (n_typeTable n) (n_evalp n) (n_evalNbap n) (n_dpiExportTriggerp n).

Definition set_typeTable (f : list AstBasicDType -> list AstBasicDType) (n : AstNetlist) :=
  mkNetlist (n_topModuleFileline n) (n_scopes n) (n_topScope n)
    (n_senTreesp n) (n_senTrees n) (n_varScopes n) (n_cfuncs n) (n_actives n)
    (f (n_typeTable n)) (n_evalp n) (n_evalNbap n) (n_dpiExportTriggerp n).

Definition set_evalp (p : option AstCFuncP) (n : AstNetlist) :=
  mkNetlist (n_topModuleFileline n) (n_scopes n) (n_topScope n)
    (n_senTreesp n) (n_senTrees n) (n_varScopes n) (n_cfuncs n) (n_actives n)
    (n_typeTable n) p (n_evalNbap n) (n_dpiExportTriggerp n).

Definition set_evalNbap (p : option AstCFuncP) (n : AstNetlist) :=
  mkNetlist (n_topModuleFileline n) (n_scopes n) (n_topScope n)
    (n_senTreesp n) (n_senTrees n) (n_varScopes n) (n_cfuncs n) (n_actives n)
    (n_typeTable n) (n_evalp n) p (n_dpiExportTriggerp n).

Definition set_dpiExportTriggerp (p : option AstVarScopeP) (n : AstNetlist) :=
  mkNetlist (n_topModuleFileline n) (n_scopes n) (n_topScope n)
    (n_senTreesp n) (n_senTrees n) (n_varScopes n) (n_cfuncs n) (n_actives n)
    (n_typeTable n) (n_evalp n) (n_evalNbap n) p.

(** The global option bundle [v3Global.opt] and [v3Global.hasEvents()]. *)
Record V3Options := mkOptions {
  outputSplitCFuncs : Z;
  convergeLimit : Z;
  xInitialEdge : bool;
  systemC : bool;
  mtasks : bool
}.

Record V3Global := mkGlobal {
  opt : V3Options;
  hasEvents : bool
}.

(** ** Node operations *)

(** Following a pointer; one that addresses nothing cannot arise in the
    C++ and stops the computation here. *)
Definition deref {S A} (o : option A) : M S A :=
  match o with
  | Some a => mret a
  | None => fatal "dangling pointer"
  end.

Definition getCFunc (funcp : AstCFuncP) : M AstNetlist AstCFunc :=
  fun n => deref (n_cfuncs n !! funcp) n.

Definition getScope (scopep : AstScopeP) : M AstNetlist AstScope :=
  fun n => deref (n_scopes n !! scopep) n.

Definition getSenTree (p : AstSenTreeP) : M AstNetlist AstSenTree :=
  fun n => deref (n_senTrees n !! p) n.

Definition getActive (p : AstActiveP) : M AstNetlist AstActive :=
  fun n => deref (mjoin (n_actives n !! p)) n.

Definition getVarScope (p : AstVarScopeP) : M AstNetlist AstVarScope :=
  fun n => deref (n_varScopes n !! p) n.

(** [new AstCFunc{...}]: the pointer of the new node. *)
Definition newCFunc (f : AstCFunc) : M AstNetlist AstCFuncP :=
  fun n => Ok (length (n_cfuncs n), set_cfuncs (fun l => l ++ [f]) n).

Definition cf_addStmtsp (stmts : list AstNode) (f : AstCFunc) : AstCFunc :=
  mkCFunc (cf_name f) (cf_scopep f) (cf_stmtsp f ++ stmts) (cf_finalsp f)
    (cf_dontCombine f) (cf_isStatic f) (cf_isLoose f) (cf_slow f) (cf_isConst f)
    (cf_declPrivate f) (cf_entryPoint f) (cf_ifdef f).

Definition cf_setStmtsp (stmts : list AstNode) (f : AstCFunc) : AstCFunc :=
  mkCFunc (cf_name f) (cf_scopep f) stmts (cf_finalsp f)
    (cf_dontCombine f) (cf_isStatic f) (cf_isLoose f) (cf_slow f) (cf_isConst f)
    (cf_declPrivate f) (cf_entryPoint f) (cf_ifdef f).

(** [funcp->addStmtsp(nodep)]: [nodep] and its chain go to the end. *)
Definition addStmtsp (funcp : AstCFuncP) (stmts : list AstNode) : M AstNetlist unit :=
  _ ← getCFunc funcp;
  modify (set_cfuncs (alter (cf_addStmtsp stmts) funcp)).

Definition sc_addActivep (b : Block) (s : AstScope) : AstScope :=
  mkScope (sc_nameDotless s) (sc_activesp s ++ [b]).

(** [scopep->addActivep(nodep)] *)
Definition addActivep (scopep : AstScopeP) (b : Block) : M AstNetlist unit :=
  _ ← getScope scopep;
  modify (set_scopes (alter (sc_addActivep b) scopep)).

(** [scopep->createTemp(name, dtypep)]: a new variable of the scope. *)
Definition createTemp (scopep : AstScopeP) (name : string)
    (dtypep : AstBasicDType) : M AstNetlist AstVarScopeP :=
  fun n => Ok (length (n_varScopes n),
               set_varScopes (fun l => l ++ [mkVarScope name scopep dtypep]) n).

(** [new AstSenTree{flp, senItemp}] followed by [topScopep->addSenTreep]. *)
Definition newTopSenTree (t : AstSenTree) : M AstNetlist AstSenTreeP :=
  fun n => Ok (length (n_senTrees n),
               set_senTreesp (fun l => l ++ [length (n_senTrees n)])
                 (set_senTrees (fun l => l ++ [t]) n)).

(** [AstCFunc::nodeCount]: the function node and everything below. *)
Definition cf_nodeCount (f : AstCFunc) : Z :=
  1 + nodeCounts (cf_stmtsp f) + nodeCounts (cf_finalsp f).

(** ** Utility functions *)

Definition makeSubFunction (name : string) (slow : bool) : M AstNetlist AstCFuncP :=
  n ← get;
  let scopeTopp := n_topScope n in
  let funcp := mkCFunc name scopeTopp [] [] (* dontCombine *) true
                 (* isStatic *) false (* isLoose *) true slow (* isConst *) false
                 (* declPrivate *) true (* entryPoint *) false EmptyString in
  p ← newCFunc funcp;
  addActivep scopeTopp (BCFunc p);;
  mret p.

Definition cf_setEntryPoint (b : bool) (f : AstCFunc) : AstCFunc :=
  mkCFunc (cf_name f) (cf_scopep f) (cf_stmtsp f) (cf_finalsp f)
    (cf_dontCombine f) (cf_isStatic f) (cf_isLoose f) (cf_slow f) (cf_isConst f)
    (cf_declPrivate f) b (cf_ifdef f).

Definition makeTopFunction (name : string) (slow : bool) : M AstNetlist AstCFuncP :=
  p ← makeSubFunction name slow;
  modify (set_cfuncs (alter (cf_setEntryPoint true) p));;
  mret p.

Definition setVar (vscp : AstVarScopeP) (val : Z) : M AstNetlist AstNode :=
  vsc ← getVarScope vscp;
  let refp := AstVarRef vscp WRITE in
  let zerop := AstConst (vsc_dtypep vsc) val in
  mret (AstAssign refp zerop).

(** ** Split large function according to --output-split-cfuncs *)

Section SplitCheck.
Variable v3Global : V3Global.

(** The sub-function [splitCheck] makes for [ofuncp], numbered [funcnum]. *)
Definition splitSubFunc (ofunc : AstCFunc) (funcnum : Z) (stmts : list AstNode) : AstCFunc :=
  mkCFunc (cf_name ofunc +:+ "__" +:+ cvtToStr funcnum) (cf_scopep ofunc) stmts []
    (* dontCombine *) true (* isStatic *) false (* isLoose *) true
    (* slow *) (cf_slow ofunc) false false false EmptyString.

(** The [while (tempp->stmtsp())] loop; [funcp] is [None] for [nullptr]. *)
Fixpoint splitLoop (ofuncp : AstCFuncP) (tempp : list AstNode)
    (funcnum func_stmts : Z) (funcp : option AstCFuncP) : M AstNetlist unit :=
  match tempp with
  | [] => mret tt
  | itemp :: tempp' =>
      let stmts := nodeCount itemp in
      let makeNew : M AstNetlist (AstCFuncP * Z * Z) :=
        (* Make a new function *)
        ofunc ← getCFunc ofuncp;
        p ← newCFunc (splitSubFunc ofunc funcnum []);
        addActivep (cf_scopep ofunc) (BCFunc p);;
        addStmtsp ofuncp [AstCCall p];;
        mret (p, funcnum + 1, 0) in
      '(p, funcnum', func_stmts') ←
        match funcp with
        | None => makeNew
        | Some p =>
            if outputSplitCFuncs (opt v3Global) <? func_stmts + stmts
            then makeNew else mret (p, funcnum, func_stmts)
        end;
      addStmtsp p [itemp];;
      splitLoop ofuncp tempp' funcnum' (func_stmts' + stmts) (Some p)
  end.

Definition splitCheck (ofuncp : AstCFuncP) : M AstNetlist unit :=
  ofunc ← getCFunc ofuncp;
  if (outputSplitCFuncs (opt v3Global) =? 0) || bool_decide (cf_stmtsp ofunc = [])
  then mret tt else
  if cf_nodeCount ofunc <? outputSplitCFuncs (opt v3Global) then mret tt else
  (* Unlink all statements, then add item by item to new sub-functions *)
  let tempp := cf_stmtsp ofunc in
  modify (set_cfuncs (alter (cf_setStmtsp []) ofuncp));;
  UASSERT_OBJ (bool_decide (cf_finalsp ofunc = [])) "Should not have any finalps";;
  splitLoop ofuncp tempp 0 0 None.

End SplitCheck.

(** The partition as the specification words it: statements go to the
    current sub-function in order, and a new sub-function starts whenever
    adding the next statement would push the cumulative node count past the
    threshold. *)
Fixpoint greedyFrom (threshold : Z) (cur : list AstNode) (count : Z)
    (items : list AstNode) : list (list AstNode) :=
  match items with
  | [] => [cur]
  | x :: rest =>
      if threshold <? count + nodeCount x
      then cur :: greedyFrom threshold [x] (nodeCount x) rest
      else greedyFrom threshold (cur ++ [x]) (count + nodeCount x) rest
  end.

Definition greedyPartition (threshold : Z) (items : list AstNode) : list (list AstNode) :=
  match items with
  | [] => []
  | x :: rest => greedyFrom threshold [x] (nodeCount x) rest
  end.

(** The sub-functions of a partition, numbered from [funcnum]. *)
Fixpoint splitSubFuncs (ofunc : AstCFunc) (funcnum : Z) (chunks : list (list AstNode))
    : list AstCFunc :=
  match chunks with
  | [] => []
  | c :: cs => splitSubFunc ofunc funcnum c :: splitSubFuncs ofunc (funcnum + 1) cs
  end.

(** Calls to the [k] functions stored from address [base] on. *)
Definition callsFrom (base k : nat) : list AstNode := AstCCall <$> seq base k.

Definition sc_addBlocks (bs : list Block) (s : AstScope) : AstScope :=
  mkScope (sc_nameDotless s) (sc_activesp s ++ bs).

(** The netlist [splitCheck] leaves when it splits [ofunc] into [chunks]. *)
Definition splitResult (n : AstNetlist) (ofuncp : AstCFuncP) (ofunc : AstCFunc)
    (chunks : list (list AstNode)) : AstNetlist :=
  let base := length (n_cfuncs n) in
  let k := length chunks in
  set_cfuncs (fun l => <[ofuncp := cf_setStmtsp (callsFrom base k) ofunc]> l
                        ++ splitSubFuncs ofunc 0 chunks)
    (set_scopes (alter (sc_addBlocks (BCFunc <$> seq base k)) (cf_scopep ofunc)) n).

(** ** What the pass reads through declarations of other files *)

(** Methods of the node classes whose code is not part of [V3Sched.cpp]:
    the type an earlier pass gave an expression, the class flags of a
    sensitivity list, and the text helpers of the emitters. *)
Class AstQueries := {
  dtypep : AstNode -> AstBasicDType;
  hasStatic : AstSenTree -> bool;
  hasInitial : AstSenTree -> bool;
  hasFinal : AstSenTree -> bool;
  hasCombo : AstSenTree -> bool;
  hasClocked : AstSenTree -> bool;
  hasHybrid : AstSenTree -> bool;
  (* V3EmitV::verilogForTree *)
  verilogForTree : AstSenTree -> string;
  (* EmitCBaseVisitor::protect *)
  protect : string -> string;
  (* VString::replaceWord *)
  replaceWord : string -> string -> string -> string;
  (* V3UniqueNames: the state of a name generator and its [get(nodep)] *)
  V3UniqueNames : Type;
  newUniqueNames : string -> V3UniqueNames;
  uniqueNames_get : V3UniqueNames -> AstNode -> string * V3UniqueNames
}.

(** [LogicByScope]: the (scope, active block) pairs in insertion order. *)
Abbreviation LogicByScope := (list (AstScopeP * AstActiveP)) (only parsing).

Record LogicClasses := mkLogicClasses {
  m_static : LogicByScope;
  m_initial : LogicByScope;
  m_final : LogicByScope;
  m_comb : LogicByScope;
  m_clocked : LogicByScope;
  m_hybrid : LogicByScope
}.

Definition act_setSensesp (p : AstSenTreeP) (a : AstActive) : AstActive :=
  mkActive p (act_stmtsp a).

Section Gather.
Context {Q : AstQueries}.

(** The loop body of [getSenTreesUsedBy]; [user1] is the set of the
    sensitivity lists whose [user1] flag is set. *)
Fixpoint getSenTreesUsedBy_lbs (lbs : LogicByScope) (user1 : gset nat)
    (result : list AstSenTreeP) : M AstNetlist (gset nat * list AstSenTreeP) :=
  match lbs with
  | [] => mret (user1, result)
  | pr :: lbs' =>
      let activep := pr.2 in
      active ← getActive activep;
      let senTreep := act_sensesp active in
      (* if (senTreep->user1SetOnce()) continue; *)
      if bool_decide (senTreep ∈ user1) then getSenTreesUsedBy_lbs lbs' user1 result
      else
        let user1' := {[senTreep]} ∪ user1 in
        senTree ← getSenTree senTreep;
        if hasClocked senTree || hasHybrid senTree
        then getSenTreesUsedBy_lbs lbs' user1' (result ++ [senTreep])
        else getSenTreesUsedBy_lbs lbs' user1' result
  end.

Fixpoint getSenTreesUsedBy_loop (lbsps : list LogicByScope) (user1 : gset nat)
    (result : list AstSenTreeP) : M AstNetlist (gset nat * list AstSenTreeP) :=
  match lbsps with
  | [] => mret (user1, result)
  | lbsp :: lbsps' =>
      '(user1', result') ← getSenTreesUsedBy_lbs lbsp user1 result;
      getSenTreesUsedBy_loop lbsps' user1' result'
  end.

Definition getSenTreesUsedBy (lbsps : list LogicByScope) : M AstNetlist (list AstSenTreeP) :=
  (* const VNUser1InUse user1InUse: every flag starts cleared *)
  '(_, result) ← getSenTreesUsedBy_loop lbsps ∅ [];
  mret result.

Definition remapSensitivities (lbs : LogicByScope) (senTreeMap : gmap nat nat)
    : M AstNetlist unit :=
  forM_ lbs (fun pr =>
    let activep := pr.2 in
    active ← getActive activep;
    let senTreep := act_sensesp active in
    senTree ← getSenTree senTreep;
    if hasCombo senTree then mret tt
    else
      match senTreeMap !! senTreep with
      | Some newp => modify (set_actives (alter (fmap (act_setSensesp newp)) activep))
      | None => fatal "std::out_of_range"
      end).

(** [invertAndMergeSenTreeMap]: the key of [result], a pointer to the one
    [AstSenItem] of a trigger sensitivity list, is held as the pointer of
    that list. *)
Definition invertAndMergeSenTreeMap (result : gmap nat nat) (senTreeMap : gmap nat nat)
    : M AstNetlist (gmap nat nat) :=
  map_fold (fun first second (acc : M AstNetlist (gmap nat nat)) =>
              result ← acc;
              t ← getSenTree second;
              UASSERT_OBJ (bool_decide (sensesp_nextp t = [])) "Should be single AstSenIem";;
              (* emplace keeps an entry that is there *)
              mret (match result !! second with
                    | Some _ => result
                    | None => <[second := first]> result
                    end))
    (mret result) senTreeMap.

(** ** Collect and classify all logic in the design *)

Definition lc_add_static (x : AstScopeP * AstActiveP) (r : LogicClasses) :=
  mkLogicClasses (m_static r ++ [x]) (m_initial r) (m_final r) (m_comb r) (m_clocked r) (m_hybrid r).
Definition lc_add_initial (x : AstScopeP * AstActiveP) (r : LogicClasses) :=
  mkLogicClasses (m_static r) (m_initial r ++ [x]) (m_final r) (m_comb r) (m_clocked r) (m_hybrid r).
Definition lc_add_final (x : AstScopeP * AstActiveP) (r : LogicClasses) :=
  mkLogicClasses (m_static r) (m_initial r) (m_final r ++ [x]) (m_comb r) (m_clocked r) (m_hybrid r).
Definition lc_add_comb (x : AstScopeP * AstActiveP) (r : LogicClasses) :=
  mkLogicClasses (m_static r) (m_initial r) (m_final r) (m_comb r ++ [x]) (m_clocked r) (m_hybrid r).
Definition lc_add_clocked (x : AstScopeP * AstActiveP) (r : LogicClasses) :=
  mkLogicClasses (m_static r) (m_initial r) (m_final r) (m_comb r) (m_clocked r ++ [x]) (m_hybrid r).

(** The body of [scopep->foreach<AstActive>]. *)
Definition gatherActive (scopep : AstScopeP) (activep : AstActiveP)
    (result : LogicClasses) (empty : list AstActiveP)
    : M AstNetlist (LogicClasses * list AstActiveP) :=
  active ← getActive activep;
  let senTreep := act_sensesp active in
  if bool_decide (act_stmtsp active = []) then
    (* Some AstActives might be empty due to previous optimizations *)
    mret (result, empty ++ [activep])
  else
    senTree ← getSenTree senTreep;
    let single := bool_decide (sensesp_nextp senTree = []) in
    if hasStatic senTree then
      UASSERT_OBJ single "static initializer with additional sensitivities";;
      mret (lc_add_static (scopep, activep) result, empty)
    else if hasInitial senTree then
      UASSERT_OBJ single "'initial' logic with additional sensitivities";;
      mret (lc_add_initial (scopep, activep) result, empty)
    else if hasFinal senTree then
      UASSERT_OBJ single "'final' logic with additional sensitivities";;
      mret (lc_add_final (scopep, activep) result, empty)
    else if hasCombo senTree then
      UASSERT_OBJ single "combinational logic with additional sensitivities";;
      mret (lc_add_comb (scopep, activep) result, empty)
    else
      UASSERT_OBJ (hasClocked senTree) "What else could it be?";;
      mret (lc_add_clocked (scopep, activep) result, empty).

Fixpoint gatherActives (scopep : AstScopeP) (blocks : list Block)
    (result : LogicClasses) (empty : list AstActiveP)
    : M AstNetlist (LogicClasses * list AstActiveP) :=
  match blocks with
  | [] => mret (result, empty)
  | BActive activep :: blocks' =>
      '(result', empty') ← gatherActive scopep activep result empty;
      gatherActives scopep blocks' result' empty'
  | BCFunc _ :: blocks' => gatherActives scopep blocks' result empty
  end.

Definition sc_unlink (b : Block) (s : AstScope) : AstScope :=
  mkScope (sc_nameDotless s) (filter (fun b' => b' <> b) (sc_activesp s)).

(** [activep->unlinkFrBack()->deleteTree()] for an active block of [scopep]. *)
Definition deleteActive (scopep : AstScopeP) (activep : AstActiveP) : M AstNetlist unit :=
  modify (set_scopes (alter (sc_unlink (BActive activep)) scopep));;
  modify (set_actives (<[activep := None]>)).

(** The body of [netlistp->foreach<AstScope>]. *)
Definition gatherScope (scopep : AstScopeP) (result : LogicClasses) : M AstNetlist LogicClasses :=
  scope ← getScope scopep;
  '(result', empty) ← gatherActives scopep (sc_activesp scope) result [];
  forM_ empty (deleteActive scopep);;
  mret result'.

Fixpoint gatherScopes (scopeps : list AstScopeP) (result : LogicClasses)
    : M AstNetlist LogicClasses :=
  match scopeps with
  | [] => mret result
  | scopep :: scopeps' =>
      result' ← gatherScope scopep result;
      gatherScopes scopeps' result'
  end.

Definition gatherLogicClasses : M AstNetlist LogicClasses :=
  n ← get;
  gatherScopes (seq 0 (length (n_scopes n))) (mkLogicClasses [] [] [] [] [] []).

End Gather.

(** ** Simple ordering in source order *)

Section Sequential.
Variable v3Global : V3Global.

Definition cf_setFlags (isLoose isConst declPrivate slow : bool) (f : AstCFunc) : AstCFunc :=
  mkCFunc (cf_name f) (cf_scopep f) (cf_stmtsp f) (cf_finalsp f)
    (cf_dontCombine f) (cf_isStatic f) isLoose slow isConst declPrivate
    (cf_entryPoint f) (cf_ifdef f).

(** The statements of a block go to the sub-function: the body of a
    procedure, when it has one, and any other statement itself. *)
Definition addLogic (subFuncp : AstCFuncP) (logicp : AstNode) : M AstNetlist unit :=
  match logicp with
  | AstNodeProcedure [] => mret tt
  | AstNodeProcedure bodysp => addStmtsp subFuncp bodysp
  | _ => addStmtsp subFuncp [logicp]
  end.

(** The loop of [orderSequentially]; [user1] is the [user1p] of the scopes,
    the sub-function made for the scope. *)
Fixpoint orderSequentially_loop (funcp : AstCFuncP) (lbs : list (AstScopeP * AstActiveP))
    (user1 : gmap nat nat) : M AstNetlist unit :=
  match lbs with
  | [] => mret tt
  | (scopep, activep) :: rest =>
      '(subFuncp, user1) ←
        match user1 !! scopep with
        | Some subFuncp => mret (subFuncp, user1)
        | None =>
            (* Create a sub-function per scope so we can V3Combine them later *)
            func ← getCFunc funcp;
            scope ← getScope scopep;
            let subName := cf_name func +:+ "__" +:+ sc_nameDotless scope in
            subFuncp ← newCFunc (cf_setFlags true false true (cf_slow func)
                                   (newAstCFunc subName scopep));
            addActivep scopep (BCFunc subFuncp);;
            (* Call it from the top function *)
            addStmtsp funcp [AstCCall subFuncp];;
            mret (subFuncp, <[scopep := subFuncp]> user1)
        end;
      (* Add statements to sub-function *)
      active ← getActive activep;
      forM_ (act_stmtsp active) (addLogic subFuncp);;
      deleteActive scopep activep;;
      orderSequentially_loop funcp rest user1
  end.

Definition orderSequentially (funcp : AstCFuncP) (lbs : list (AstScopeP * AstActiveP))
    : M AstNetlist unit :=
  orderSequentially_loop funcp lbs ∅.

(** ** Create simply ordered functions *)

Definition createStatic (logicClasses : LogicClasses) : M AstNetlist unit :=
  funcp ← makeTopFunction "_eval_static" (* slow: *) true;
  orderSequentially funcp (m_static logicClasses);;
  splitCheck v3Global funcp.

Definition createInitial (logicClasses : LogicClasses) : M AstNetlist AstCFuncP :=
  funcp ← makeTopFunction "_eval_initial" (* slow: *) true;
  orderSequentially funcp (m_initial logicClasses);;
  mret funcp.  (* Not splitting yet as it is not final *)

Definition createFinal (logicClasses : LogicClasses) : M AstNetlist unit :=
  funcp ← makeTopFunction "_eval_final" (* slow: *) true;
  orderSequentially funcp (m_final logicClasses);;
  splitCheck v3Global funcp.

End Sequential.

(** ** SenExprBuilder constructs the expressions used to compute if an
    AstSenTree have triggered *)

Section Builder.
Context {Q : AstQueries}.
Variable v3Global : V3Global.

(** [m_prev] is keyed by structural equality of the sensed expression; the
    entries are kept in the order they were made.  [cloneTree] copies a
    tree, so a clone is the tree itself here. *)
Record SenExprBuilder := mkBuilder {
  m_initp : AstCFuncP;                       (* The initialization function *)
  m_scopeTopp : AstScopeP;                   (* Top level scope *)
  m_updates : list AstNode;                  (* Update assignments *)
  m_prev : list (AstNode * AstVarScopeP);    (* The 'previous value' signals *)
  m_hasUpdate : list AstNode;                (* Sen expressions with an update in m_updates *)
  m_uniqueNames : V3UniqueNames
}.

Definition b_setUpdates (u : list AstNode) (b : SenExprBuilder) :=
  mkBuilder (m_initp b) (m_scopeTopp b) u (m_prev b) (m_hasUpdate b) (m_uniqueNames b).
Definition b_setPrev (pv : list (AstNode * AstVarScopeP)) (b : SenExprBuilder) :=
  mkBuilder (m_initp b) (m_scopeTopp b) (m_updates b) pv (m_hasUpdate b) (m_uniqueNames b).
Definition b_setHasUpdate (h : list AstNode) (b : SenExprBuilder) :=
  mkBuilder (m_initp b) (m_scopeTopp b) (m_updates b) (m_prev b) h (m_uniqueNames b).
Definition b_setUniqueNames (u : V3UniqueNames) (b : SenExprBuilder) :=
  mkBuilder (m_initp b) (m_scopeTopp b) (m_updates b) (m_prev b) (m_hasUpdate b) u.

(** [m_prev.find] on the sensed expression *)
Fixpoint prev_find (currp : AstNode) (pv : list (AstNode * AstVarScopeP))
    : option AstVarScopeP :=
  match pv with
  | [] => None
  | (k, v) :: pv' => if decide (k = currp) then Some v else prev_find currp pv'
  end.

(** The constructor: [m_scopeTopp{netlistp->topScopep()->scopep()}]. *)
Definition newSenExprBuilder (n : AstNetlist) (initp : AstCFuncP) : SenExprBuilder :=
  mkBuilder initp (n_topScope n) [] [] [] (newUniqueNames "__Vtrigprev__expression").

Definition getPrev (b : SenExprBuilder) (currp : AstNode)
    : M AstNetlist (AstVarScopeP * SenExprBuilder) :=
  (* Create the 'previous value' variable *)
  '(prevp, b) ←
    match prev_find currp (m_prev b) with
    | Some prevp => mret (prevp, b)
    | None =>
        (* For readability, use the scoped signal name if the trigger is a
           simple AstVarRef *)
        '(name, b) ←
          match currp with
          | AstVarRef vscp _ =>
              vsc ← getVarScope vscp;
              sc ← getScope (vsc_scopep vsc);
              mret ("__Vtrigrprev__" +:+ sc_nameDotless sc +:+ "__" +:+ vsc_name vsc, b)
          | _ =>
              let '(name, u) := uniqueNames_get (m_uniqueNames b) currp in
              mret (name, b_setUniqueNames u b)
          end;
        prevp ← createTemp (m_scopeTopp b) name (dtypep currp);
        let b := b_setPrev (m_prev b ++ [(currp, prevp)]) b in
        (* Add the initializer init *)
        addStmtsp (m_initp b) [AstAssign (AstVarRef prevp WRITE) currp];;
        mret (prevp, b)
    end;
  (* Add update if it does not exist yet in this round *)
  if bool_decide (currp ∈ m_hasUpdate b) then mret (prevp, b)
  else
    mret (prevp,
          b_setUpdates (m_updates b ++ [AstAssign (AstVarRef prevp WRITE) currp])
            (b_setHasUpdate (currp :: m_hasUpdate b) b)).

Definition createTerm (b : SenExprBuilder) (senItemp : AstSenItem)
    : M AstNetlist ((option AstNode * bool) * SenExprBuilder) :=
  let senp := sensp senItemp in
  let lsb := fun opp => AstSel opp 0 1 in
  (* All event signals should be 1-bit at this point *)
  match edgeType senItemp with
  | ET_ILLEGAL => mret ((None, false), b)  (* We already warn for this in V3LinkResolve *)
  | ET_CHANGED | ET_HYBRID =>
      '(prevp, b) ← getPrev b senp;
      mret ((Some (AstNeq senp (AstVarRef prevp READ)), true), b)
  | ET_BOTHEDGE =>
      '(prevp, b) ← getPrev b senp;
      mret ((Some (lsb (AstXor senp (AstVarRef prevp READ))), false), b)
  | ET_POSEDGE =>
      '(prevp, b) ← getPrev b senp;
      mret ((Some (lsb (AstAnd senp (AstNot (AstVarRef prevp READ)))), false), b)
  | ET_NEGEDGE =>
      '(prevp, b) ← getPrev b senp;
      mret ((Some (lsb (AstAnd (AstNot senp) (AstVarRef prevp READ))), false), b)
  | ET_EVENT =>
      UASSERT_OBJ (hasEvents v3Global) "Inconsistent";;
      (* If the event is fired, set up the clearing process *)
      let callp := AstCMethodHard senp "isFired" [] (Some (bitDType 1)) false false in
      (* Clear 'fired' state when done *)
      let clearp := AstCMethodHard senp "clearFired" [] None true false in
      (* Enqueue for clearing 'triggered' state on next eval *)
      let blockp := AstTextBlock
                      [AstText "vlSymsp->enqueueTriggeredEventForClearing(" true;
                       senp;
                       AstText (");" +:+ newline) true] in
      let ifp := AstIf callp [clearp; blockp] [] BP_UNKNOWN in
      let b := b_setUpdates (m_updates b ++ [ifp]) b in
      (* Get 'fired' state *)
      mret ((Some (AstCMethodHard senp "isFired" [] (Some (bitDType 1)) false false),
             false), b)
  | _ => fatal "Unknown edge type"
  end.

(** The [for] loop of [build] over the chain of items. *)
Fixpoint build_items (b : SenExprBuilder) (senItemps : list AstSenItem)
    (resultp : option AstNode) (firedAtInitialization : bool)
    : M AstNetlist ((option AstNode * bool) * SenExprBuilder) :=
  match senItemps with
  | [] => mret ((resultp, firedAtInitialization), b)
  | senItemp :: rest =>
      '(pr, b) ← createTerm b senItemp;
      match pr.1 with
      | Some termp =>
          build_items b rest
            (Some (match resultp with Some r => AstOr r termp | None => termp end))
            (firedAtInitialization || pr.2)
      | None => build_items b rest resultp firedAtInitialization
      end
  end.

(** Returns the expression computing the trigger, and a bool indicating that
    this trigger should be fired on the first evaluation (at initialization) *)
Definition build (b : SenExprBuilder) (senTreep : AstSenTreeP)
    : M AstNetlist ((option AstNode * bool) * SenExprBuilder) :=
  senTree ← getSenTree senTreep;
  build_items b (senItems senTree) None false.

Definition getAndClearUpdates (b : SenExprBuilder) : list AstNode * SenExprBuilder :=
  (m_updates b, b_setUpdates [] (b_setHasUpdate [] b)).

End Builder.

(** ** A TriggerKit holds all the components related to a TRIGGERVEC variable *)

(** [uint32_t] arithmetic wraps. *)
Definition wrap32 (z : Z) : Z := z mod 2 ^ 32.

Record TriggerKit := mkTriggerKit {
  m_vscp : AstVarScopeP;    (* The TRIGGERVEC AstVarScope representing these trigger flags *)
  m_funcp : AstCFuncP;      (* The AstCFunc that computes the current active triggers *)
  m_dumpp : AstCFuncP;      (* The AstCFunc that dumps the current active triggers *)
  m_map : gmap nat nat      (* From input sensitivity list to trigger sensitivity list *)
}.

(** [vscp.at(index)] as [getTrigRef] and the [TriggerKit] methods build it. *)
Definition trigAt (vscp : AstVarScopeP) (index : Z) (access : VAccess) : AstNode :=
  AstCMethodHard (AstVarRef vscp access) "at" [AstConst32 index]
    (Some (bitDType 1)) (* statement *) false (* pure *) true.

(** Create an AstSenTree that is sensitive to the given trigger index. *)
Definition createTriggerSenTree (kit : TriggerKit) (index : Z) : M AstNetlist AstSenTreeP :=
  let callp := trigAt (m_vscp kit) index READ in
  let senItemp := mkSenItem ET_TRUE callp in
  newTopSenTree (mkSenTree senItemp []).

(** [m_funcp->stmtsp()->addHereThisAsNext(newp)]: [newp] goes before the
    first statement, which has to exist. *)
Definition addHereThisAsNext (funcp : AstCFuncP) (newp : list AstNode) : M AstNetlist unit :=
  f ← getCFunc funcp;
  match cf_stmtsp f with
  | [] => fatal "null pointer"
  | _ => modify (set_cfuncs (alter (cf_setStmtsp (newp ++ cf_stmtsp f)) funcp))
  end.

(** Utility that assigns the given index trigger to fire when the given
    variable is zero.  The source writes the constant 0 for the index. *)
Definition addFirstIterationTriggerAssignment (kit : TriggerKit) (counterp : AstVarScopeP)
    (index : Z) : M AstNetlist unit :=
  let callp := trigAt (m_vscp kit) 0 WRITE in
  addHereThisAsNext (m_funcp kit)
    [AstAssign callp (AstEq (AstVarRef counterp READ) (AstConst32 0))].


(** ** Create a TRIGGERVEC and the related TriggerKit for the given AstSenTree vector *)

Section Triggers.
Context {Q : AstQueries}.
Variable v3Global : V3Global.

(** Add a debug dumping statement for this trigger *)
Definition addDebug (dumpp : AstCFuncP) (vscp : AstVarScopeP) (name : string)
    (index : Z) (text : string) : M AstNetlist unit :=
  let message :=
    "VL_DBG_MSGF(" +:+ dquote +:+ "         '" +:+ name +:+ "' region trigger index "
    +:+ cvtToStr index +:+ " is active"
    +:+ (if decide (text = EmptyString) then EmptyString else ": " +:+ text)
    +:+ backslash +:+ "n" +:+ dquote +:+ ");" +:+ newline in
  addStmtsp dumpp [AstIf (trigAt vscp index READ) [AstText message true] [] BP_UNKNOWN].

(** The loop "Add trigger computation" over [senTreeps]. *)
Fixpoint createTriggers_loop (b : SenExprBuilder) (senTreeps : list AstSenTreeP)
    (name : string) (vscp : AstVarScopeP) (funcp dumpp : AstCFuncP)
    (triggerNumber : Z) (initialTrigsp : list AstNode) (map : gmap nat nat)
    : M AstNetlist (SenExprBuilder * list AstNode * gmap nat nat) :=
  match senTreeps with
  | [] => mret (b, initialTrigsp, map)
  | senTreep :: rest =>
      senTree ← getSenTree senTreep;
      UASSERT_OBJ (hasClocked senTree || hasHybrid senTree)
        "Cannot create trigger expression for non-clocked sensitivity";;
      (* Create the trigger AstSenTrees and associate it with the original AstSenTree *)
      let senp := trigAt vscp triggerNumber READ in
      trigpSenp ← newTopSenTree (mkSenTree (mkSenItem ET_TRUE senp) []);
      let map := <[senTreep := trigpSenp]> map in
      (* Add the trigger computation *)
      '(pr, b) ← build v3Global b senTreep;
      rhsp ← match pr.1 with
             | Some e => mret e
             | None => fatal "Null item passed to setOp1p"
             end;
      addStmtsp funcp [AstAssign (trigAt vscp triggerNumber WRITE) rhsp];;
      (* Add initialization time trigger *)
      let initialTrigsp :=
        if pr.2 || xInitialEdge (opt v3Global)
        then initialTrigsp ++ [AstAssign (trigAt vscp triggerNumber WRITE) (AstConst32 1)]
        else initialTrigsp in
      (* Add a debug statement for this trigger *)
      addDebug dumpp vscp name triggerNumber (verilogForTree senTree);;
      createTriggers_loop b rest name vscp funcp dumpp (wrap32 (triggerNumber + 1))
        initialTrigsp map
  end.

Definition cf_setIfdef (t : string) (f : AstCFunc) : AstCFunc :=
  mkCFunc (cf_name f) (cf_scopep f) (cf_stmtsp f) (cf_finalsp f)
    (cf_dontCombine f) (cf_isStatic f) (cf_isLoose f) (cf_slow f) (cf_isConst f)
    (cf_declPrivate f) (cf_entryPoint f) t.

Definition createTriggers (b : SenExprBuilder) (senTreeps : list AstSenTreeP)
    (name : string) (extra : Z) (slow : bool) : M AstNetlist (TriggerKit * SenExprBuilder) :=
  n ← get;
  let scopeTopp := n_topScope n in
  let nTriggers := wrap32 (Z.of_nat (length senTreeps) + extra) in
  (* Create the TRIGGERVEC variable *)
  let tDtypep := mkBasicDType TRIGGERVEC nTriggers nTriggers in
  modify (set_typeTable (fun l => l ++ [tDtypep]));;
  vscp ← createTemp scopeTopp ("__V" +:+ name +:+ "Triggered") tDtypep;
  (* Create the trigger computation function *)
  funcp ← makeSubFunction ("_eval_triggers__" +:+ name) slow;
  (* Create the trigger dump function (for debugging) *)
  dumpp ← makeSubFunction ("_dump_triggers__" +:+ name) slow;
  modify (set_cfuncs (alter (cf_setIfdef "VL_DEBUG") dumpp));;
  (* Add a print to the dumping function if there are no triggers pending *)
  addStmtsp dumpp
    [AstIf (AstCMethodHard (AstVarRef vscp READ) "any" [] (Some (bitDType 1)) false false)
       []
       [AstText ("VL_DBG_MSGF(" +:+ dquote +:+ "         No triggers active" +:+ backslash
                 +:+ "n" +:+ dquote +:+ ");" +:+ newline) true]
       BP_UNKNOWN];;
  (* Add a print for each of the extra triggers *)
  forM_ (seq 0 (Z.to_nat extra)) (fun i => addDebug dumpp vscp name (Z.of_nat i) EmptyString);;
  (* Add trigger computation *)
  '(b, initialTrigsp, map) ←
    createTriggers_loop b senTreeps name vscp funcp dumpp extra [] ∅;
  (* Add the update statements *)
  let '(updates, b) := getAndClearUpdates b in
  forM_ updates (fun nodep => addStmtsp funcp [nodep]);;
  (* Add the initialization statements *)
  match initialTrigsp with
  | [] => mret tt
  | _ =>
      didInit ← createTemp scopeTopp ("__V" +:+ name +:+ "DidInit") (bitDType 1);
      setp ← setVar didInit 1;
      addStmtsp funcp
        [AstIf (AstNot (AstVarRef didInit READ)) (setp :: initialTrigsp) [] BP_UNLIKELY]
  end;;
  (* Add a call to the dumping function if debug is enabled *)
  addStmtsp funcp
    [AstTextBlock
       [AstText ("#ifdef VL_DEBUG" +:+ newline) true;
        AstText ("if (VL_UNLIKELY(vlSymsp->_vm_contextp__->debug())) {" +:+ newline) true;
        AstCCall dumpp;
        AstText ("}" +:+ newline) true;
        AstText ("#endif" +:+ newline) true]];;
  mret (mkTriggerKit vscp funcp dumpp map, b).

(** ** Helpers to construct an evaluation loop. *)

(** [build] returns the statements it adds to the body of the loop. *)
Definition buildLoop (name : string) (build : AstVarScopeP -> M AstNetlist (list AstNode))
    : M AstNetlist (list AstNode) :=
  n ← get;
  let scopeTopp := n_topScope n in
  (* Create the loop condition variable *)
  condp ← createTemp scopeTopp ("__V" +:+ name +:+ "Continue") (bitDType 1);
  (* Initialize the loop condition variable to true *)
  resp ← setVar condp 1;
  (* Clear the loop condition variable in the loop *)
  clearp ← setVar condp 0;
  (* Build the body *)
  bodysp ← build condp;
  (* Add the loop *)
  mret [resp; AstWhile (AstVarRef condp READ) (clearp :: bodysp)].

Definition isTriggerVec (d : AstBasicDType) : bool :=
  match keyword d with TRIGGERVEC => true | _ => false end.

Definition makeEvalLoop (tag name : string) (trigVscp : AstVarScopeP) (trigDumpp : AstCFuncP)
    (computeTriggers makeBody : M AstNetlist (list AstNode))
    : M AstNetlist (AstVarScopeP * list AstNode) :=
  trigVsc ← getVarScope trigVscp;
  UASSERT_OBJ (isTriggerVec (vsc_dtypep trigVsc)) "Not TRIGGERVEC";;
  n ← get;
  let scopeTopp := n_topScope n in
  counterp ← createTemp scopeTopp ("__V" +:+ tag +:+ "IterCount") (bitDType 32);
  nodep ← setVar counterp 0;
  loopp ← buildLoop tag (fun continuep =>
    (* Compute triggers *)
    trigsp ← computeTriggers;
    (* Invoke body if triggered *)
    let callp := AstCMethodHard (AstVarRef trigVscp READ) "any" [] (Some (bitDType 1))
                   false false in
    contp ← setVar continuep 1;
    (* If we exceeded the iteration limit, die *)
    let limit := wrap32 (convergeLimit (opt v3Global)) in
    let condp := AstGt (AstVarRef counterp READ) (AstConst (bitDType 32) limit) in
    let '(filename, lineno) := n_topModuleFileline n in
    let file := protect filename in
    let line := cvtToStr lineno in
    let blockp := AstTextBlock
      [AstText ("#ifdef VL_DEBUG" +:+ newline) true;
       AstCCall trigDumpp;
       AstText ("#endif" +:+ newline) true;
       AstText ("VL_FATAL_MT(" +:+ dquote +:+ file +:+ dquote +:+ ", " +:+ line +:+ ", "
                +:+ dquote +:+ dquote +:+ ", ") true;
       AstText (dquote +:+ name +:+ " region did not converge." +:+ dquote +:+ ");"
                +:+ newline) true] in
    let failp := AstIf condp [blockp] [] BP_UNKNOWN in
    (* Increment iteration count *)
    let incp := AstAssign (AstVarRef counterp WRITE)
                  (AstAdd (AstVarRef counterp READ) (AstConst (bitDType 32) 1)) in
    (* Add body *)
    bodyp ← makeBody;
    mret (trigsp ++ [AstIf callp (contp :: failp :: incp :: bodyp) [] BP_UNKNOWN]));
  mret (counterp, nodep :: loopp).

End Triggers.

(** ** The passes of other files *)

(** [V3Order::order(netlistp, logic, trigToSen, tag, parallel, slow, externalDomains)]:
    it edits the netlist and returns the function it made.  The callback is
    held as the function from a variable to the sensitivity lists it pushes. *)
Class SchedPasses := {
  order : list LogicByScope -> gmap nat nat -> string -> bool -> bool ->
          (AstVarScopeP -> list AstSenTreeP) -> M AstNetlist AstCFuncP
}.

(** [LogicByScope::clone]: every active block is copied to a new node that
    no scope links; the copy senses the same [AstSenTree]. *)
Fixpoint cloneLogicByScope (lbs : LogicByScope) : M AstNetlist LogicByScope :=
  match lbs with
  | [] => mret []
  | (scopep, activep) :: lbs' =>
      active ← getActive activep;
      n ← get;
      let newp := length (n_actives n) in
      modify (set_actives (fun l => l ++ [Some active]));;
      rest ← cloneLogicByScope lbs';
      mret ((scopep, newp) :: rest)
  end.

(** ** Order the combinational logic to create the settle loop *)

Section Regions.
Context {Q : AstQueries} {P : SchedPasses}.
Variable v3Global : V3Global.

Definition createSettle (senExprBulider : SenExprBuilder) (logicClasses : LogicClasses)
    : M AstNetlist SenExprBuilder :=
  funcp ← makeTopFunction "_eval_settle" true;
  (* Clone, because ordering is destructive, but we still need them for "_eval" *)
  comb ← cloneLogicByScope (m_comb logicClasses);
  hybrid ← cloneLogicByScope (m_hybrid logicClasses);
  (* Nothing to do if there is no logic. *)
  if bool_decide (comb = []) && bool_decide (hybrid = []) then mret senExprBulider
  else
    (* We have an extra trigger denoting this is the first iteration of the settle loop *)
    let firstIterationTrigger := 0 in
    let extraTriggers := firstIterationTrigger + 1 in
    (* Gather the relevant sensitivity expressions and create the trigger kit *)
    senTreeps ← getSenTreesUsedBy [comb; hybrid];
    '(trig, senExprBulider) ←
      createTriggers v3Global senExprBulider senTreeps "stl" extraTriggers true;
    (* Remap sensitivities (comb has none, so only do the hybrid) *)
    remapSensitivities hybrid (m_map trig);;
    (* Create the inverse map from trigger ref AstSenTree to original AstSenTree *)
    trigToSen ← invertAndMergeSenTreeMap ∅ (m_map trig);
    (* First trigger is for pure combinational triggers (first iteration) *)
    inputChanged ← createTriggerSenTree trig firstIterationTrigger;
    (* Create and the body function *)
    stlFuncp ← order [comb; hybrid] trigToSen "stl" false true (fun _ => [inputChanged]);
    splitCheck v3Global stlFuncp;;
    (* Create the eval loop *)
    '(counterp, loopp) ←
      makeEvalLoop v3Global "stl" "Settle" (m_vscp trig) (m_dumpp trig)
        (mret [AstCCall (m_funcp trig)])
        (mret [AstCCall stlFuncp]);
    (* Add the first iteration trigger to the trigger computation function *)
    addFirstIterationTriggerAssignment trig counterp firstIterationTrigger;;
    (* Add the eval loop to the top function *)
    addStmtsp funcp loopp;;
    mret senExprBulider.

(** ** Bolt together parts to create the top level _eval function *)

(** Every [AstVarRef] below the node only reads. *)
Fixpoint allRefsReadOnly (nodep : AstNode) : bool :=
  let all := forallb allRefsReadOnly in
  match nodep with
  | AstVarRef _ access => match access with READ => true | _ => false end
  | AstConst _ _ | AstCCall _ | AstText _ _ => true
  | AstNeq l r | AstEq l r | AstGt l r | AstXor l r | AstAnd l r | AstOr l r
  | AstAdd l r | AstAssign l r => allRefsReadOnly l && allRefsReadOnly r
  | AstNot l => allRefsReadOnly l
  | AstSel f _ _ => allRefsReadOnly f
  | AstCMethodHard f _ ps _ _ _ => allRefsReadOnly f && all ps
  | AstIf c t e _ => allRefsReadOnly c && all t && all e
  | AstWhile c b => allRefsReadOnly c && all b
  | AstTextBlock ns => all ns
  | AstNodeProcedure b => all b
  | AstOther _ _ ops => all ops
  end.

(** [refp->replaceWith(new AstVarRef{.., newp, VAccess::READ})] at every
    reference to [oldp], and [textp->text(f(textp->text()))] at every text. *)
Fixpoint retarget (oldp newp : AstVarScopeP) (f : string -> string) (nodep : AstNode)
    : AstNode :=
  let re := retarget oldp newp f in
  match nodep with
  | AstVarRef v a => if decide (v = oldp) then AstVarRef newp READ else AstVarRef v a
  | AstConst d z => AstConst d z
  | AstCCall p => AstCCall p
  | AstText t tr => AstText (f t) tr
  | AstNeq l r => AstNeq (re l) (re r)
  | AstEq l r => AstEq (re l) (re r)
  | AstGt l r => AstGt (re l) (re r)
  | AstXor l r => AstXor (re l) (re r)
  | AstAnd l r => AstAnd (re l) (re r)
  | AstOr l r => AstOr (re l) (re r)
  | AstAdd l r => AstAdd (re l) (re r)
  | AstAssign l r => AstAssign (re l) (re r)
  | AstNot l => AstNot (re l)
  | AstSel fr lo w => AstSel (re fr) lo w
  | AstCMethodHard fr nm ps d st pu => AstCMethodHard (re fr) nm (map re ps) d st pu
  | AstIf c t e bp => AstIf (re c) (map re t) (map re e) bp
  | AstWhile c b => AstWhile (re c) (map re b)
  | AstTextBlock ns => AstTextBlock (map re ns)
  | AstNodeProcedure b => AstNodeProcedure (map re b)
  | AstOther ty at' ops => AstOther ty at' (map re ops)
  end.

Definition cf_setName (name : string) (f : AstCFunc) : AstCFunc :=
  mkCFunc name (cf_scopep f) (cf_stmtsp f) (cf_finalsp f)
    (cf_dontCombine f) (cf_isStatic f) (cf_isLoose f) (cf_slow f) (cf_isConst f)
    (cf_declPrivate f) (cf_entryPoint f) (cf_ifdef f).

(** [herep->addNextHere(newp)] in a scope's list. *)
Fixpoint insertAfter (here new : Block) (l : list Block) : list Block :=
  match l with
  | [] => []
  | b :: l' => if decide (b = here) then b :: new :: l' else b :: insertAfter here new l'
  end.

Definition sc_addNextHere (here new : Block) (s : AstScope) : AstScope :=
  mkScope (sc_nameDotless s) (insertAfter here new (sc_activesp s)).

(** The calls the act-loop body and the nba trigger step are made of. *)
Definition andNotCall (lhsp opap opbp : AstVarScopeP) : AstNode :=
  AstCMethodHard (AstVarRef lhsp WRITE) "andNot" [AstVarRef opap READ; AstVarRef opbp READ]
    None (* statement *) true false.

Definition setCall (lhsp argp : AstVarScopeP) : AstNode :=
  AstCMethodHard (AstVarRef lhsp WRITE) "set" [AstVarRef argp READ] None true false.

Definition clearCall (refp : AstVarScopeP) : AstNode :=
  AstCMethodHard (AstVarRef refp WRITE) "clear" [] None true false.

Definition createEval (icoLoop : list AstNode) (actTrig : TriggerKit)
    (preTrigsp nbaTrigsp : AstVarScopeP) (actFuncp nbaFuncp : AstCFuncP)
    : M AstNetlist unit :=
  funcp ← makeTopFunction "_eval" false;
  modify (set_evalp (Some funcp));;
  (* Start with the ico loop, if any *)
  match icoLoop with [] => mret tt | _ => addStmtsp funcp icoLoop end;;
  (* Create the NBA trigger dumping function, which is the same as act trigger
     dumping function, but referencing the nba trigger vector. *)
  actDump ← getCFunc (m_dumpp actTrig);
  nbaDumpp ← newCFunc actDump;
  modify (set_scopes (alter (sc_addNextHere (BCFunc (m_dumpp actTrig)) (BCFunc nbaDumpp))
                        (cf_scopep actDump)));;
  modify (set_cfuncs (alter (cf_setName "_dump_triggers__nba") nbaDumpp));;
  UASSERT_OBJ (forallb allRefsReadOnly (cf_stmtsp actDump ++ cf_finalsp actDump))
    "Should only read state";;
  let re := retarget (m_vscp actTrig) nbaTrigsp (fun t => replaceWord t "act" "nba") in
  modify (set_cfuncs (alter (fun f =>
            mkCFunc (cf_name f) (cf_scopep f) (map re (cf_stmtsp f)) (map re (cf_finalsp f))
              (cf_dontCombine f) (cf_isStatic f) (cf_isLoose f) (cf_slow f) (cf_isConst f)
              (cf_declPrivate f) (cf_entryPoint f) (cf_ifdef f)) nbaDumpp));;
  (* Create the active eval loop *)
  '(_, activeEvalLoopp) ←
    makeEvalLoop v3Global "act" "Active" (m_vscp actTrig) (m_dumpp actTrig)
      (* Trigger *)
      (mret [AstCCall (m_funcp actTrig)])
      (* Body *)
      (mret [ (* Compute the pre triggers *)
              andNotCall preTrigsp (m_vscp actTrig) nbaTrigsp;
              (* Latch the active trigger flags under the NBA trigger flags *)
              setCall nbaTrigsp (m_vscp actTrig);
              (* Invoke body function *)
              AstCCall actFuncp ]);
  (* Create the NBA eval loop. This uses the Active eval loop in the trigger section. *)
  '(_, nbaEvalLoopp) ←
    makeEvalLoop v3Global "nba" "NBA" nbaTrigsp nbaDumpp
      (* Trigger: reset NBA triggers, run the Active eval loop *)
      (mret (clearCall nbaTrigsp :: activeEvalLoopp))
      (* Body *)
      (mret [AstCCall nbaFuncp]);
  (* Add the NBA eval loop *)
  addStmtsp funcp nbaEvalLoopp.

End Regions.

(** * Theorems *)

(** ** Reasoning about the monad *)

Lemma bind_Ok {S A B} (m : M S A) (k : A -> M S B) s a s' :
  m s = Ok (a, s') -> (m ≫= k) s = k a s'.
Proof. intros H. unfold mbind, M_bind. now rewrite H. Qed.

Lemma bind_Fatal {S A B} (m : M S A) (k : A -> M S B) s msg :
  m s = Fatal msg -> (m ≫= k) s = Fatal msg.
Proof. intros H. unfold mbind, M_bind. now rewrite H. Qed.

Lemma bind_Ok_inv {S A B} (m : M S A) (k : A -> M S B) s b s2 :
  (m ≫= k) s = Ok (b, s2) ->
  exists a s1, m s = Ok (a, s1) /\ k a s1 = Ok (b, s2).
Proof.
  unfold mbind, M_bind. destruct (m s) as [[a s1]|msg]; [eauto | discriminate].
Qed.

Lemma getCFunc_Ok n p f : n_cfuncs n !! p = Some f -> getCFunc p n = Ok (f, n).
Proof. intros H. unfold getCFunc. now rewrite H. Qed.

Lemma getScope_Ok n p s : n_scopes n !! p = Some s -> getScope p n = Ok (s, n).
Proof. intros H. unfold getScope. now rewrite H. Qed.

Lemma addStmtsp_Ok n p f stmts :
  n_cfuncs n !! p = Some f ->
  addStmtsp p stmts n = Ok (tt, set_cfuncs (alter (cf_addStmtsp stmts) p) n).
Proof. intros H. unfold addStmtsp. now rewrite (bind_Ok _ _ _ _ _ (getCFunc_Ok _ _ _ H)). Qed.

Lemma addActivep_Ok n p s b :
  n_scopes n !! p = Some s ->
  addActivep p b n = Ok (tt, set_scopes (alter (sc_addActivep b) p) n).
Proof. intros H. unfold addActivep. now rewrite (bind_Ok _ _ _ _ _ (getScope_Ok _ _ _ H)). Qed.

(** ** splitCheck *)

Section SplitCheckFacts.
Variable v3Global : V3Global.
Let threshold := outputSplitCFuncs (opt v3Global).

Lemma splitSubFuncs_addStmtsp s ofunc funcnum chunks :
  splitSubFuncs (cf_addStmtsp s ofunc) funcnum chunks = splitSubFuncs ofunc funcnum chunks.
Proof. revert funcnum. induction chunks as [|c cs IH]; intros; simpl; [done|]. now rewrite IH. Qed.

Lemma splitSubFuncs_setStmtsp s ofunc funcnum chunks :
  splitSubFuncs (cf_setStmtsp s ofunc) funcnum chunks = splitSubFuncs ofunc funcnum chunks.
Proof. revert funcnum. induction chunks as [|c cs IH]; intros; simpl; [done|]. now rewrite IH. Qed.

Lemma greedyFrom_nonempty T cur count items : greedyFrom T cur count items <> [].
Proof.
  revert cur count. induction items as [|x r IH]; intros; simpl; [done|].
  destruct (T <? count + nodeCount x); [done | apply IH].
Qed.

(** The state the loop reaches from a state in which [p] is the current
    sub-function. *)
Definition splitLoopResult (n : AstNetlist) (ofuncp p : AstCFuncP) (ofunc : AstCFunc)
    (funcnum : Z) (chunks : list (list AstNode)) : AstNetlist :=
  let base := length (n_cfuncs n) in
  let k := length (tail chunks) in
  set_cfuncs (fun l => alter (cf_setStmtsp (hd [] chunks)) p
                         (alter (cf_addStmtsp (callsFrom base k)) ofuncp l)
                        ++ splitSubFuncs ofunc funcnum (tail chunks))
    (set_scopes (alter (sc_addBlocks (BCFunc <$> seq base k)) (cf_scopep ofunc)) n).

Lemma alter_app_last {A} (f : A -> A) (l : list A) x i :
  i = length l -> alter f i (l ++ [x]) = l ++ [f x].
Proof. intros ->. rewrite alter_app_r_alt by lia. now rewrite Nat.sub_diag. Qed.

Lemma alter_setStmtsp_id (l : list AstCFunc) p fp :
  l !! p = Some fp -> alter (cf_setStmtsp (cf_stmtsp fp)) p l = l.
Proof.
  intros H. rewrite <- (list_alter_id id l p) at 2 by done.
  apply list_alter_ext; [|done]. intros f Hf. rewrite H in Hf. injection Hf as <-.
  now destruct fp.
Qed.

Lemma alter_addStmtsp_nil (l : list AstCFunc) p : alter (cf_addStmtsp []) p l = l.
Proof.
  apply list_alter_id. intros [? ? ? ? ? ? ? ? ? ? ? ?]. unfold cf_addStmtsp; simpl.
  now rewrite app_nil_r.
Qed.

Lemma alter_addBlocks_nil (l : list AstScope) p : alter (sc_addBlocks []) p l = l.
Proof.
  apply list_alter_id. intros [? ?]. unfold sc_addBlocks; simpl. now rewrite app_nil_r.
Qed.

(** The state the loop reaches when it starts a new sub-function. *)
Definition splitNewResult (n : AstNetlist) (ofuncp : AstCFuncP) (ofunc : AstCFunc)
    (funcnum : Z) (chunks : list (list AstNode)) : AstNetlist :=
  let base := length (n_cfuncs n) in
  let k := length chunks in
  set_cfuncs (fun l => alter (cf_addStmtsp (callsFrom base k)) ofuncp l
                        ++ splitSubFuncs ofunc funcnum chunks)
    (set_scopes (alter (sc_addBlocks (BCFunc <$> seq base k)) (cf_scopep ofunc)) n).

Definition splitLoop_Some_at ofuncp (items : list AstNode) : Prop :=
  forall n ofunc funcnum func_stmts p fp sc,
  p <> ofuncp ->
  n_cfuncs n !! ofuncp = Some ofunc ->
  n_cfuncs n !! p = Some fp ->
  n_scopes n !! cf_scopep ofunc = Some sc ->
  splitLoop v3Global ofuncp items funcnum func_stmts (Some p) n
  = Ok (tt, splitLoopResult n ofuncp p ofunc funcnum
              (greedyFrom threshold (cf_stmtsp fp) func_stmts items)).

Lemma splitLoop_makeNew ofuncp x r n ofunc funcnum sc :
  splitLoop_Some_at ofuncp r ->
  n_cfuncs n !! ofuncp = Some ofunc ->
  n_scopes n !! cf_scopep ofunc = Some sc ->
  ((ofunc ← getCFunc ofuncp;
    p ← newCFunc (splitSubFunc ofunc funcnum []);
    addActivep (cf_scopep ofunc) (BCFunc p);;
    addStmtsp ofuncp [AstCCall p];;
    mret (p, funcnum + 1, 0)) ≫=
   (fun '(p, funcnum', func_stmts') =>
      addStmtsp p [x];;
      splitLoop v3Global ofuncp r funcnum' (func_stmts' + nodeCount x) (Some p))) n
  = Ok (tt, splitNewResult n ofuncp ofunc funcnum
              (greedyFrom threshold [x] (nodeCount x) r)).
Proof.
  intros IH Ho Hs.
  set (pn := length (n_cfuncs n)).
  set (n1 := set_cfuncs (alter (cf_addStmtsp [AstCCall pn]) ofuncp)
               (set_scopes (alter (sc_addActivep (BCFunc pn)) (cf_scopep ofunc))
                  (set_cfuncs (fun l => l ++ [splitSubFunc ofunc funcnum []]) n))).
  assert (Hpn : pn <> ofuncp).
  { apply lookup_lt_Some in Ho. unfold pn. lia. }
  rewrite (bind_Ok _ _ n (pn, funcnum + 1, 0) n1).
  2:{ rewrite (bind_Ok _ _ _ _ _ (getCFunc_Ok _ _ _ Ho)).
      rewrite (bind_Ok _ _ n pn _ eq_refl).
      erewrite bind_Ok; [|apply addActivep_Ok with (s := sc); exact Hs].
      erewrite bind_Ok; [reflexivity|].
      apply addStmtsp_Ok with (f := ofunc).
      cbn [n_cfuncs set_scopes set_cfuncs].
      now rewrite lookup_app_l by (eapply lookup_lt_Some; eauto). }
  assert (Hp1 : n_cfuncs n1 !! pn = Some (splitSubFunc ofunc funcnum [])).
  { unfold n1; cbn [n_cfuncs set_scopes set_cfuncs].
    rewrite list_lookup_alter_ne by done. now rewrite list_lookup_middle. }
  rewrite (bind_Ok _ _ _ _ _ (addStmtsp_Ok _ _ _ _ Hp1)).
  set (n2 := set_cfuncs (alter (cf_addStmtsp [x]) pn) n1).
  assert (Ho2 : n_cfuncs n2 !! ofuncp = Some (cf_addStmtsp [AstCCall pn] ofunc)).
  { unfold n2, n1; cbn [n_cfuncs set_scopes set_cfuncs].
    rewrite list_lookup_alter_ne by done. rewrite list_lookup_alter_eq.
    now rewrite lookup_app_l, Ho by (eapply lookup_lt_Some; eauto). }
  assert (Hp2 : n_cfuncs n2 !! pn = Some (cf_addStmtsp [x] (splitSubFunc ofunc funcnum []))).
  { unfold n2; cbn [n_cfuncs set_cfuncs]. now rewrite list_lookup_alter_eq, Hp1. }
  assert (Hs2 : n_scopes n2 !! cf_scopep ofunc = Some (sc_addActivep (BCFunc pn) sc)).
  { unfold n2, n1; cbn [n_scopes set_scopes set_cfuncs].
    now rewrite list_lookup_alter_eq, Hs. }
  rewrite (IH n2 _ _ _ pn _ _ Hpn Ho2 Hp2 Hs2).
  f_equal. f_equal.
  replace (0 + nodeCount x) with (nodeCount x) by lia.
  change (cf_stmtsp (cf_addStmtsp [x] (splitSubFunc ofunc funcnum []))) with [x].
  pose proof (greedyFrom_nonempty threshold [x] (nodeCount x) r) as HG.
  destruct (greedyFrom threshold [x] (nodeCount x) r) as [|c1 rest]; [done|clear HG].
  assert (Hlt : (ofuncp < length (n_cfuncs n))%nat) by (eapply lookup_lt_Some; eauto).
  unfold splitLoopResult, splitNewResult, n2, n1. cbn [hd tail length].
  destruct n as [fl scs top stp sts vs cfs acts tt ev evn dpi].
  unfold set_cfuncs, set_scopes; cbn [n_cfuncs n_scopes n_topModuleFileline
    n_topScope n_senTreesp n_senTrees n_varScopes n_actives n_typeTable n_evalp
    n_evalNbap n_dpiExportTriggerp] in *.
  subst pn. f_equal.
  * rewrite list_alter_alter_eq. apply list_alter_ext; [|done].
    intros [nm bl] _. unfold sc_addBlocks, sc_addActivep; simpl.
    rewrite !length_alter, length_app, <- app_assoc. simpl.
    now replace (length cfs + 1)%nat with (S (length cfs)) by lia.
  * rewrite !length_alter, length_app. simpl length.
    rewrite (alter_app_l _ cfs) by done.
    rewrite (alter_app_last _ (alter _ ofuncp cfs)) by (now rewrite length_alter).
    rewrite alter_app_l by (now rewrite length_alter).
    rewrite (alter_app_last _ (alter _ ofuncp (alter _ ofuncp cfs)))
      by (now rewrite !length_alter).
    rewrite <- app_assoc. simpl. rewrite splitSubFuncs_addStmtsp.
    f_equal. rewrite list_alter_alter_eq. apply list_alter_ext; [|done].
    intros f _. destruct f; unfold cf_addStmtsp, callsFrom; simpl.
    rewrite <- app_assoc. simpl.
    now replace (length cfs + 1)%nat with (S (length cfs)) by lia.
Qed.

Lemma splitLoop_Some ofuncp items : splitLoop_Some_at ofuncp items.
Proof.
  induction items as [|x r IH]; intros n ofunc funcnum func_stmts p fp sc Hne Ho Hp Hs.
  - simpl. unfold splitLoopResult; simpl. f_equal. f_equal.
    destruct n; unfold set_cfuncs, set_scopes; simpl in *.
    rewrite alter_addBlocks_nil, app_nil_r. unfold callsFrom; simpl.
    rewrite alter_addStmtsp_nil, alter_setStmtsp_id; done.
  - simpl. fold threshold.
    destruct (threshold <? func_stmts + nodeCount x) eqn:Hcmp.
    + rewrite (splitLoop_makeNew _ _ _ _ _ _ _ IH Ho Hs). f_equal. f_equal.
      unfold splitLoopResult, splitNewResult. cbn [hd tail].
      destruct n; unfold set_cfuncs, set_scopes; simpl in *. f_equal. f_equal.
      rewrite (alter_setStmtsp_id _ p fp);
        [done | rewrite list_lookup_alter_ne; [exact Hp | congruence]].
    + rewrite (bind_Ok _ _ n (p, funcnum, func_stmts) n) by reflexivity.
      rewrite (bind_Ok _ _ _ _ _ (addStmtsp_Ok _ _ _ _ Hp)).
      set (n1 := set_cfuncs (alter (cf_addStmtsp [x]) p) n).
      assert (Ho1 : n_cfuncs n1 !! ofuncp = Some ofunc).
      { unfold n1, set_cfuncs; cbn [n_cfuncs]. now rewrite list_lookup_alter_ne. }
      assert (Hp1 : n_cfuncs n1 !! p = Some (cf_addStmtsp [x] fp)).
      { unfold n1, set_cfuncs; cbn [n_cfuncs]. now rewrite list_lookup_alter_eq, Hp. }
      rewrite (IH n1 ofunc _ _ p _ sc Hne Ho1 Hp1 Hs).
      f_equal. f_equal. unfold splitLoopResult, n1; simpl.
      destruct n; unfold set_cfuncs, set_scopes; simpl in *.
      rewrite length_alter. f_equal. f_equal.
      rewrite (list_alter_alter_ne _ _ _ ofuncp p) by done.
      rewrite list_alter_alter_eq. apply list_alter_ext; [|done].
      intros f _. now destruct f.
Qed.

Lemma greedyFrom_concat T cur count items :
  concat (greedyFrom T cur count items) = cur ++ items.
Proof.
  revert cur count. induction items as [|x r IH]; intros; simpl.
  - now rewrite app_nil_r.
  - destruct (T <? count + nodeCount x); simpl; rewrite IH; [done|].
    now rewrite <- app_assoc.
Qed.

Lemma greedyPartition_concat T items : concat (greedyPartition T items) = items.
Proof. destruct items as [|x r]; [done|]. simpl. now rewrite greedyFrom_concat. Qed.

Lemma greedyFrom_chunks_nonempty T cur count items :
  cur <> [] -> Forall (fun c => c <> []) (greedyFrom T cur count items).
Proof.
  revert cur count. induction items as [|x r IH]; intros cur count Hc; simpl.
  - by constructor.
  - destruct (T <? count + nodeCount x).
    + constructor; [done|]. by apply IH.
    + apply IH. by destruct cur.
Qed.

Lemma greedyPartition_chunks_nonempty T items :
  Forall (fun c => c <> []) (greedyPartition T items).
Proof. destruct items as [|x r]; [constructor|]. by apply greedyFrom_chunks_nonempty. Qed.

Lemma nodeCounts_app a b : nodeCounts (a ++ b) = nodeCounts a + nodeCounts b.
Proof.
  induction a as [|y a IH]; [unfold nodeCounts; simpl; lia|].
  unfold nodeCounts in *; simpl. lia.
Qed.

(** A sub-function holding several statements stays within the threshold. *)
Lemma greedyFrom_chunks_bounded T cur count items :
  count = nodeCounts cur -> (length cur <= 1)%nat \/ nodeCounts cur <= T ->
  Forall (fun c => (length c <= 1)%nat \/ nodeCounts c <= T) (greedyFrom T cur count items).
Proof.
  revert cur count. induction items as [|x r IH]; intros cur count Hc Hb; simpl.
  - by constructor.
  - destruct (T <? count + nodeCount x) eqn:E.
    + constructor; [done|]. apply IH; [|left; simpl; lia].
      unfold nodeCounts; simpl. lia.
    + apply Z.ltb_ge in E. assert (nodeCounts (cur ++ [x]) = count + nodeCount x) as Hs.
      { subst count. rewrite nodeCounts_app. unfold nodeCounts; simpl. lia. }
      apply IH; [done|]. right. lia.
Qed.

Lemma greedyPartition_chunks_bounded T items :
  Forall (fun c => (length c <= 1)%nat \/ nodeCounts c <= T) (greedyPartition T items).
Proof.
  destruct items as [|x r]; [constructor|]. apply greedyFrom_chunks_bounded.
  - unfold nodeCounts; simpl; lia.
  - left; simpl; lia.
Qed.

Lemma splitCheck_noop ofuncp n ofunc :
  n_cfuncs n !! ofuncp = Some ofunc ->
  threshold = 0 \/ cf_stmtsp ofunc = [] \/ cf_nodeCount ofunc < threshold ->
  splitCheck v3Global ofuncp n = Ok (tt, n).
Proof.
  intros Ho H. unfold splitCheck. rewrite (bind_Ok _ _ _ _ _ (getCFunc_Ok _ _ _ Ho)).
  fold threshold.
  destruct (threshold =? 0) eqn:E0; [done|]. apply Z.eqb_neq in E0.
  case_bool_decide as Hn; [done|]. simpl.
  destruct (cf_nodeCount ofunc <? threshold) eqn:E1; [done|]. apply Z.ltb_ge in E1.
  destruct H as [H|[H|H]]; [done|done|lia].
Qed.

Lemma splitCheck_splits ofuncp n ofunc sc :
  n_cfuncs n !! ofuncp = Some ofunc ->
  n_scopes n !! cf_scopep ofunc = Some sc ->
  threshold <> 0 -> threshold <= cf_nodeCount ofunc -> cf_finalsp ofunc = [] ->
  splitCheck v3Global ofuncp n
  = Ok (tt, splitResult n ofuncp ofunc (greedyPartition threshold (cf_stmtsp ofunc))).
Proof.
  intros Ho Hs HT Hge Hfin.
  destruct (cf_stmtsp ofunc) as [|x r] eqn:Hst.
  - rewrite (splitCheck_noop _ _ _ Ho) by auto. f_equal. f_equal.
    unfold splitResult; simpl. destruct n; unfold set_cfuncs, set_scopes; simpl in *.
    rewrite alter_addBlocks_nil, app_nil_r. f_equal.
    rewrite list_insert_id; [done|]. rewrite Ho. f_equal.
    destruct ofunc; simpl in *. now subst.
  - unfold splitCheck. rewrite (bind_Ok _ _ _ _ _ (getCFunc_Ok _ _ _ Ho)).
    fold threshold. rewrite Hst.
    destruct (threshold =? 0) eqn:E0; [apply Z.eqb_eq in E0; done|].
    case_bool_decide as Hn; [done|].
    destruct (cf_nodeCount ofunc <? threshold) eqn:E1; [apply Z.ltb_lt in E1; lia|].
    cbn [orb]. rewrite (bind_Ok _ _ n tt (set_cfuncs (alter (cf_setStmtsp []) ofuncp) n) eq_refl).
    rewrite Hfin. rewrite (bind_Ok _ _ _ tt _ eq_refl).
    set (n0 := set_cfuncs (alter (cf_setStmtsp []) ofuncp) n).
    assert (Ho0 : n_cfuncs n0 !! ofuncp = Some (cf_setStmtsp [] ofunc)).
    { unfold n0, set_cfuncs; cbn [n_cfuncs]. now rewrite list_lookup_alter_eq, Ho. }
    cbn [splitLoop].
    rewrite (splitLoop_makeNew ofuncp x r n0 (cf_setStmtsp [] ofunc) 0 sc
               (splitLoop_Some ofuncp r) Ho0 Hs).
    f_equal. f_equal. unfold splitNewResult, splitResult, greedyPartition, n0.
    destruct n; unfold set_cfuncs, set_scopes; simpl in *.
    rewrite length_alter, splitSubFuncs_setStmtsp. f_equal. f_equal.
    rewrite list_alter_alter_eq, list_insert_alter. apply list_alter_ext; [|done].
    intros f Hf. rewrite Ho in Hf. injection Hf as <-. now destruct ofunc.
Qed.

Lemma splitSubFuncs_lookup ofunc funcnum chunks (i : nat) :
  splitSubFuncs ofunc funcnum chunks !! i
  = splitSubFunc ofunc (funcnum + Z.of_nat i) <$> chunks !! i.
Proof.
  revert funcnum i. induction chunks as [|c cs IH]; intros funcnum [|i]; simpl; try done.
  - now rewrite Z.add_0_r.
  - rewrite IH. now replace (funcnum + 1 + Z.of_nat i) with (funcnum + Z.pos (Pos.of_succ_nat i)) by lia.
Qed.

Lemma splitSubFuncs_length ofunc funcnum chunks :
  length (splitSubFuncs ofunc funcnum chunks) = length chunks.
Proof. revert funcnum. induction chunks; intros; simpl; auto. Qed.

(** C8: [splitCheck] leaves the function alone when the output-split
    configuration is 0 or the node count of the function is below the
    threshold.  Otherwise (no finalizer statement being present) the statement
    list is cut by the greedy partition of the specification: the function
    afterwards holds exactly the calls to the new sub-functions in order, the
    i-th sub-function [name__i] holds the i-th chunk and inherits the slow
    flag, and the chunks concatenate to the original statement list, none of
    them empty and each within the threshold unless it is a single
    statement. *)
Theorem splitCheck_greedy_partition n ofuncp ofunc sc :
  n_cfuncs n !! ofuncp = Some ofunc ->
  n_scopes n !! cf_scopep ofunc = Some sc ->
  let chunks := greedyPartition threshold (cf_stmtsp ofunc) in
  let base := length (n_cfuncs n) in
  (threshold = 0 \/ cf_nodeCount ofunc < threshold ->
   splitCheck v3Global ofuncp n = Ok (tt, n)) /\
  (threshold <> 0 -> threshold <= cf_nodeCount ofunc -> cf_finalsp ofunc = [] ->
   exists n',
     splitCheck v3Global ofuncp n = Ok (tt, n') /\
     n' = splitResult n ofuncp ofunc chunks /\
     n_cfuncs n' !! ofuncp
       = Some (cf_setStmtsp (AstCCall <$> seq base (length chunks)) ofunc) /\
     (forall (i : nat) c, chunks !! i = Some c ->
        n_cfuncs n' !! (base + i)%nat
          = Some (mkCFunc (cf_name ofunc +:+ "__" +:+ cvtToStr (Z.of_nat i))
                    (cf_scopep ofunc) c [] true false true (cf_slow ofunc)
                    false false false EmptyString)) /\
     (sc_activesp <$> n_scopes n' !! cf_scopep ofunc)
       = Some (sc_activesp sc ++ (BCFunc <$> seq base (length chunks))) /\
     concat chunks = cf_stmtsp ofunc /\
     Forall (fun c => c <> []) chunks /\
     Forall (fun c => (length c <= 1)%nat \/ nodeCounts c <= threshold) chunks).
Proof.
  intros Ho Hs chunks base. split.
  - intros H. apply (splitCheck_noop _ _ _ Ho). tauto.
  - intros HT Hge Hfin. eexists. split; [by apply (splitCheck_splits _ _ _ _ Ho Hs)|].
    split; [done|]. fold chunks.
    assert (Hlt : (ofuncp < length (n_cfuncs n))%nat) by (eapply lookup_lt_Some; eauto).
    repeat split.
    + unfold splitResult, set_cfuncs; cbn [n_cfuncs set_scopes].
      rewrite lookup_app_l by (now rewrite length_insert).
      now rewrite list_lookup_insert_eq.
    + intros i c Hc. unfold splitResult, set_cfuncs; cbn [n_cfuncs set_scopes].
      rewrite lookup_app_r by (rewrite length_insert; fold base; lia).
      rewrite length_insert. fold base.
      replace (base + i - base)%nat with i by lia.
      now rewrite splitSubFuncs_lookup, Hc.
    + unfold splitResult, set_scopes; cbn [n_scopes set_cfuncs].
      now rewrite list_lookup_alter_eq, Hs.
    + apply greedyPartition_concat.
    + apply greedyPartition_chunks_nonempty.
    + apply greedyPartition_chunks_bounded.
Qed.

Lemma nodeCounts_calls l : nodeCounts (AstCCall <$> l) = Z.of_nat (length l).
Proof.
  induction l as [|a l IH]; [done|]. rewrite fmap_cons.
  change (nodeCounts (AstCCall a :: (AstCCall <$> l)))
    with (nodeCount (AstCCall a) + nodeCounts (AstCCall <$> l)).
  rewrite IH. cbn [nodeCount length]. lia.
Qed.

(** C9, as amended: with a non-zero output-split configuration a second run
    of [splitCheck] changes nothing when the node count the first run leaves
    in the function is below the threshold, that is when the first run left
    the function alone (its node count was below the threshold) or made
    fewer than threshold - 1 sub-functions. *)
Theorem splitCheck_twice n ofuncp ofunc sc :
  n_cfuncs n !! ofuncp = Some ofunc ->
  n_scopes n !! cf_scopep ofunc = Some sc ->
  cf_finalsp ofunc = [] ->
  threshold <> 0 ->
  cf_nodeCount ofunc < threshold \/
  1 + Z.of_nat (length (greedyPartition threshold (cf_stmtsp ofunc))) < threshold ->
  exists n1,
    splitCheck v3Global ofuncp n = Ok (tt, n1) /\
    splitCheck v3Global ofuncp n1 = Ok (tt, n1).
Proof.
  intros Ho Hs Hfin HT Hsmall.
  destruct (Z.lt_ge_cases (cf_nodeCount ofunc) threshold) as [Hlt|Hge].
  - exists n. split; apply (splitCheck_noop _ _ _ Ho); auto.
  - destruct Hsmall as [Hlt|Hk]; [lia|].
    eexists. split; [by apply (splitCheck_splits _ _ _ _ Ho Hs)|].
    eapply splitCheck_noop.
    + unfold splitResult, set_cfuncs; cbn [n_cfuncs set_scopes].
      rewrite lookup_app_l by (rewrite length_insert; eapply lookup_lt_Some; eauto).
      rewrite list_lookup_insert_eq by (eapply lookup_lt_Some; eauto). reflexivity.
    + right; right. unfold cf_nodeCount. cbn [cf_stmtsp cf_finalsp cf_setStmtsp].
      rewrite Hfin. unfold callsFrom. rewrite nodeCounts_calls, length_seq.
      unfold nodeCounts at 1; simpl. lia.
Qed.

End SplitCheckFacts.

(** ** A function with one statement, split with threshold 1 *)

Module SplitDemo.

Definition g : V3Global := mkGlobal (mkOptions 1 100 false false false) false.

Definition stmt : AstNode := AstOther "DISPLAY" EmptyString [].

Definition top : AstCFunc :=
  mkCFunc "_eval_static" 0 [stmt] [] true false true true false true true EmptyString.

Definition n0 : AstNetlist :=
  mkNetlist ("t.v", 1) [mkScope "TOP" [BCFunc 0%nat]] 0 [] [] [] [top] [] [] None None None.

(** After one run: the statement sits in [_eval_static__0]. *)
Definition n1 : AstNetlist :=
  mkNetlist ("t.v", 1) [mkScope "TOP" [BCFunc 0%nat; BCFunc 1%nat]] 0 [] [] []
    [cf_setStmtsp [AstCCall 1] top; splitSubFunc top 0 [stmt]] [] [] None None None.

(** After a second run: the call itself was moved to one more function. *)
Definition n2 : AstNetlist :=
  mkNetlist ("t.v", 1) [mkScope "TOP" [BCFunc 0%nat; BCFunc 1%nat; BCFunc 2%nat]] 0 [] [] []
    [cf_setStmtsp [AstCCall 2] top; splitSubFunc top 0 [stmt];
     splitSubFunc top 0 [AstCCall 1]] [] [] None None None.

(** C9 fails as stated: with the output-split configuration 1 the second
    run splits the function again. *)
Lemma splitCheck_not_idempotent :
  outputSplitCFuncs (opt g) <> 0 /\
  splitCheck g 0 n0 = Ok (tt, n1) /\
  splitCheck g 0 n1 = Ok (tt, n2) /\
  n2 <> n1.
Proof.
  split; [discriminate|]. split; [reflexivity|]. split; [reflexivity|].
  intros H. apply (f_equal (fun n => length (n_cfuncs n))) in H. discriminate.
Qed.

(** A function with three statements of 2, 2 and 3 nodes. *)
Definition s1 : AstNode := AstOther "DISPLAY" "a" [AstConst32 1].
Definition s2 : AstNode := AstOther "DISPLAY" "b" [AstConst32 2].
Definition s3 : AstNode := AstOther "DISPLAY" "c" [AstConst32 3; AstConst32 4].

Definition top3 : AstCFunc :=
  mkCFunc "_eval_static" 0 [s1; s2; s3] [] true false true true false true true EmptyString.

Definition m0 : AstNetlist :=
  mkNetlist ("t.v", 1) [mkScope "TOP" [BCFunc 0%nat]] 0 [] [] [] [top3] [] [] None None None.

Definition g0 : V3Global := mkGlobal (mkOptions 0 100 false false false) false.
Definition g4 : V3Global := mkGlobal (mkOptions 4 100 false false false) false.
Definition g9 : V3Global := mkGlobal (mkOptions 9 100 false false false) false.

Lemma splitCheck_greedy_partition_witness :
  splitCheck g0 0 m0 = Ok (tt, m0) /\
  splitCheck g9 0 m0 = Ok (tt, m0) /\
  splitCheck g4 0 m0 = Ok (tt, splitResult m0 0 top3 [[s1; s2]; [s3]]).
Proof.
  split; [|split].
  - apply (proj1 (splitCheck_greedy_partition g0 m0 0%nat top3 _ eq_refl eq_refl)).
    left. reflexivity.
  - apply (proj1 (splitCheck_greedy_partition g9 m0 0%nat top3 _ eq_refl eq_refl)).
    right. reflexivity.
  - destruct (proj2 (splitCheck_greedy_partition g4 m0 0%nat top3 _ eq_refl eq_refl))
      as (n' & Hrun & Hn' & _).
    + discriminate.
    + discriminate.
    + reflexivity.
    + rewrite Hrun, Hn'. reflexivity.
Defined.

Lemma splitCheck_twice_witness :
  exists n1, splitCheck g4 0 m0 = Ok (tt, n1) /\ splitCheck g4 0 n1 = Ok (tt, n1).
Proof.
  apply (splitCheck_twice g4 m0 0%nat top3 (mkScope "TOP" [BCFunc 0%nat])).
  - reflexivity.
  - reflexivity.
  - reflexivity.
  - discriminate.
  - right. reflexivity.
Defined.

End SplitDemo.

(** ** getSenTreesUsedBy *)

Section GetSenTreesFacts.
Context {Q : AstQueries}.

(** The active block of the pair senses the list at [p]. *)
Definition sensedBy (n : AstNetlist) (pr : nat * nat) (p : nat) : Prop :=
  exists a, mjoin (n_actives n !! pr.2) = Some a /\ act_sensesp a = p.

(** The list at [p] is clocked or hybrid. *)
Definition clockedOrHybrid (n : AstNetlist) (p : nat) : Prop :=
  exists st, n_senTrees n !! p = Some st /\ (hasClocked st || hasHybrid st) = true.

(** Every pair holds an active block whose sensitivity list is in the store. *)
Definition lbsValid (n : AstNetlist) (lbs : list (nat * nat)) : Prop :=
  Forall (fun pr => exists a st, mjoin (n_actives n !! pr.2) = Some a /\
                                 n_senTrees n !! act_sensesp a = Some st) lbs.

Lemma getActive_Ok n p a : mjoin (n_actives n !! p) = Some a -> getActive p n = Ok (a, n).
Proof. intros H. unfold getActive. now rewrite H. Qed.

Lemma getSenTree_Ok n p t : n_senTrees n !! p = Some t -> getSenTree p n = Ok (t, n).
Proof. intros H. unfold getSenTree. now rewrite H. Qed.

Lemma getSenTreesUsedBy_lbs_spec n lbs : forall user1 result,
  lbsValid n lbs -> NoDup result -> (forall p, p ∈ result -> p ∈ user1) ->
  exists user1' result',
    getSenTreesUsedBy_lbs lbs user1 result n = Ok ((user1', result'), n) /\
    NoDup result' /\
    (forall p, p ∈ result' -> p ∈ user1') /\
    (forall p, p ∈ user1' <-> p ∈ user1 \/ exists pr, pr ∈ lbs /\ sensedBy n pr p) /\
    (forall p, p ∈ result' <->
       p ∈ result \/ ((p ∉ user1) /\ clockedOrHybrid n p /\ exists pr, pr ∈ lbs /\ sensedBy n pr p)).
Proof.
  induction lbs as [|pr lbs IH]; intros user1 result Hv Hnd Hsub.
  - exists user1, result. repeat split; auto.
    + intros [?|(pr & Hpr & _)]; [done|]. by apply elem_of_nil in Hpr.
    + intros [?|(_ & _ & pr & Hpr & _)]; [done|]. by apply elem_of_nil in Hpr.
  - apply Forall_cons in Hv as [(a & st & Ha & Hst) Hv].
    cbn [getSenTreesUsedBy_lbs]. rewrite (bind_Ok _ _ _ _ _ (getActive_Ok _ _ _ Ha)).
    case_bool_decide as Hin.
    + destruct (IH user1 result Hv Hnd Hsub) as (u' & r' & Hrun & Hnd' & Hsub' & Hu & Hr).
      exists u', r'. split; [done|]. split; [done|]. split; [done|]. split.
      * intros p. rewrite Hu. split.
        -- intros [?|(pr' & ? & ?)]; [by left|]. right. exists pr'. split; [by right|done].
        -- intros [?|(pr' & Hpr' & Hs)]; [by left|].
           apply elem_of_cons in Hpr' as [->|?]; [|right; eauto].
           left. destruct Hs as (a' & Ha' & <-). rewrite Ha in Ha'. by injection Ha' as <-.
      * intros p. rewrite Hr. split.
        -- intros [?|(? & ? & pr' & ? & ?)]; [by left|]. right. repeat split; auto.
           exists pr'. split; [by right|done].
        -- intros [?|(Hnu & ? & pr' & Hpr' & Hs)]; [by left|].
           apply elem_of_cons in Hpr' as [->|?]; [|right; eauto 10].
           destruct Hs as (a' & Ha' & <-). rewrite Ha in Ha'. injection Ha' as <-. done.
    + rewrite (bind_Ok _ _ _ _ _ (getSenTree_Ok _ _ _ Hst)).
      assert (Hs0 : sensedBy n pr (act_sensesp a)) by (by exists a).
      destruct (hasClocked st || hasHybrid st) eqn:Hc.
      * destruct (IH ({[act_sensesp a]} ∪ user1) (result ++ [act_sensesp a]) Hv)
          as (u' & r' & Hrun & Hnd' & Hsub' & Hu & Hr).
        { apply NoDup_app. split; [done|]. split; [|apply NoDup_singleton].
          intros p Hp ->%list_elem_of_singleton. by apply Hin, Hsub. }
        { intros p [?| ->%list_elem_of_singleton]%elem_of_app; set_solver. }
        exists u', r'. split; [done|]. split; [done|]. split; [done|]. split.
        -- intros p. rewrite Hu, elem_of_union, elem_of_singleton. split.
           ++ intros [[->|?]|(pr' & ? & ?)]; [right|by left|right].
              ** exists pr. split; [by left|done].
              ** exists pr'. split; [by right|done].
           ++ intros [?|(pr' & Hpr' & Hs)]; [by left; right|].
              apply elem_of_cons in Hpr' as [->|?]; [|right; eauto].
              left; left. destruct Hs as (a' & Ha' & <-). rewrite Ha in Ha'. by injection Ha' as <-.
        -- intros p. rewrite Hr, elem_of_app, list_elem_of_singleton, elem_of_union,
             elem_of_singleton. split.
           ++ intros [[?| ->]|(Hnu & ? & pr' & ? & ?)]; [by left|right|right].
              ** split; [done|]. split; [by exists st|]. exists pr. split; [by left|done].
              ** split; [tauto|]. split; [done|]. exists pr'. split; [by right|done].
           ++ intros [?|(Hnu & Hc' & pr' & Hpr' & Hs)]; [by left; left|].
              destruct (decide (p = act_sensesp a)) as [->|Hne]; [by left; right|].
              apply elem_of_cons in Hpr' as [->|?].
              ** destruct Hs as (a' & Ha' & <-). rewrite Ha in Ha'. by injection Ha' as <-.
              ** right. split; [tauto|]. eauto.
      * destruct (IH ({[act_sensesp a]} ∪ user1) result Hv Hnd)
          as (u' & r' & Hrun & Hnd' & Hsub' & Hu & Hr).
        { intros p ?. set_solver. }
        exists u', r'. split; [done|]. split; [done|]. split; [done|]. split.
        -- intros p. rewrite Hu, elem_of_union, elem_of_singleton. split.
           ++ intros [[->|?]|(pr' & ? & ?)]; [right|by left|right].
              ** exists pr. split; [by left|done].
              ** exists pr'. split; [by right|done].
           ++ intros [?|(pr' & Hpr' & Hs)]; [by left; right|].
              apply elem_of_cons in Hpr' as [->|?]; [|right; eauto].
              left; left. destruct Hs as (a' & Ha' & <-). rewrite Ha in Ha'. by injection Ha' as <-.
        -- intros p. rewrite Hr, elem_of_union, elem_of_singleton. split.
           ++ intros [?|(Hnu & ? & pr' & ? & ?)]; [by left|right].
              split; [tauto|]. split; [done|]. exists pr'. split; [by right|done].
           ++ intros [?|(Hnu & Hc' & pr' & Hpr' & Hs)]; [by left|].
              apply elem_of_cons in Hpr' as [->|?].
              ** destruct Hs as (a' & Ha' & <-). rewrite Ha in Ha'. injection Ha' as <-.
                 destruct Hc' as (st' & Hst' & Hc'). rewrite Hst in Hst'. injection Hst' as <-.
                 congruence.
              ** right. split; [|eauto].
                 intros [->|?]; [|done].
                 destruct Hc' as (st' & Hst' & Hc'). rewrite Hst in Hst'. injection Hst' as <-.
                 congruence.
Qed.

Lemma getSenTreesUsedBy_loop_spec n lbsps : forall user1 result,
  Forall (lbsValid n) lbsps -> NoDup result -> (forall p, p ∈ result -> p ∈ user1) ->
  exists user1' result',
    getSenTreesUsedBy_loop lbsps user1 result n = Ok ((user1', result'), n) /\
    NoDup result' /\
    (forall p, p ∈ result' <->
       p ∈ result \/
       ((p ∉ user1) /\ clockedOrHybrid n p /\
        exists lbs pr, lbs ∈ lbsps /\ pr ∈ lbs /\ sensedBy n pr p)).
Proof.
  induction lbsps as [|lbs lbsps IH]; intros user1 result Hv Hnd Hsub.
  - exists user1, result. repeat split; auto.
    intros [?|(_ & _ & lbs & pr & Hl & _)]; [done|]. by apply elem_of_nil in Hl.
  - apply Forall_cons in Hv as [Hv1 Hv].
    destruct (getSenTreesUsedBy_lbs_spec n lbs user1 result Hv1 Hnd Hsub)
      as (u1 & r1 & Hrun1 & Hnd1 & Hsub1 & Hu1 & Hr1).
    destruct (IH u1 r1 Hv Hnd1 Hsub1) as (u2 & r2 & Hrun2 & Hnd2 & Hr2).
    exists u2, r2. split.
    { cbn [getSenTreesUsedBy_loop]. by rewrite (bind_Ok _ _ _ _ _ Hrun1). }
    split; [done|]. intros p. rewrite Hr2, Hr1. split.
    + intros [[?|(? & ? & pr & ? & ?)]|(Hnu & ? & lbs' & pr & ? & ? & ?)].
      * by left.
      * right. repeat split; auto. exists lbs, pr. split; [by left|done].
      * right. split; [rewrite Hu1 in Hnu; tauto|]. split; [done|].
        exists lbs', pr. split; [by right|done].
    + intros [?|(Hnu & Hc & lbs' & pr & Hl & Hpr & Hs)]; [by left; left|].
      apply elem_of_cons in Hl as [->|Hl]; [left; right; eauto 10|].
      destruct (decide (p ∈ u1)) as [Hin|Hnin].
      * apply Hu1 in Hin as [?|(pr' & ? & ?)]; [done|]. left; right. eauto 10.
      * right. eauto 10.
Qed.

(** C10: [getSenTreesUsedBy] returns every sensitivity list at most once,
    however many active blocks or buckets share it, and the lists it returns
    are exactly the clocked or hybrid lists the active blocks of the buckets
    sense; all others (combinational ones too) are left out.  The netlist is
    not changed. *)
Theorem getSenTreesUsedBy_distinct_clocked_or_hybrid n (lbsps : list (list (nat * nat))) :
  Forall (lbsValid n) lbsps ->
  exists result,
    getSenTreesUsedBy lbsps n = Ok (result, n) /\
    NoDup result /\
    (forall p, p ∈ result ->
       exists st, n_senTrees n !! p = Some st /\ (hasClocked st || hasHybrid st) = true) /\
    (forall p, p ∈ result <->
       clockedOrHybrid n p /\ exists lbs pr, lbs ∈ lbsps /\ pr ∈ lbs /\ sensedBy n pr p).
Proof.
  intros Hv.
  destruct (getSenTreesUsedBy_loop_spec n lbsps ∅ [] Hv (NoDup_nil_2))
    as (u & r & Hrun & Hnd & Hr).
  { intros p Hp. by apply elem_of_nil in Hp. }
  exists r. split.
  { unfold getSenTreesUsedBy. by rewrite (bind_Ok _ _ _ _ _ Hrun). }
  split; [done|].
  assert (Hiff : forall p, p ∈ r <->
    clockedOrHybrid n p /\ exists lbs pr, lbs ∈ lbsps /\ pr ∈ lbs /\ sensedBy n pr p).
  { intros p. rewrite Hr. split.
    - intros [Hp|(_ & ? & ?)]; [by apply elem_of_nil in Hp|done].
    - intros [? ?]. right. split; [set_solver|done]. }
  split; [|done]. intros p Hp. by apply Hiff in Hp as [? _].
Qed.

End GetSenTreesFacts.

(** ** gatherLogicClasses *)

Section GatherFacts.
Context {Q : AstQueries}.

(** The five buckets. *)
Inductive LogicClass := Static | Initial | Final | Comb | Clocked.

#[local] Instance LogicClass_eqdec : EqDecision LogicClass.
Proof. solve_decision. Defined.

Definition bucket (c : LogicClass) (lc : LogicClasses) : list (nat * nat) :=
  match c with
  | Static => m_static lc
  | Initial => m_initial lc
  | Final => m_final lc
  | Comb => m_comb lc
  | Clocked => m_clocked lc
  end.

(** The class flag the classifier finds first on a sensitivity list. *)
Definition classOf (st : AstSenTree) : LogicClass :=
  if hasStatic st then Static
  else if hasInitial st then Initial
  else if hasFinal st then Final
  else if hasCombo st then Comb
  else Clocked.

(** What the classifier asserts of a sensitivity list. *)
Definition wellFormedSenTree (st : AstSenTree) : bool :=
  match classOf st with
  | Clocked => hasClocked st
  | _ => bool_decide (sensesp_nextp st = [])
  end.

(** The active blocks a scope links, in order. *)
Definition scopeActives (sc : AstScope) : list nat :=
  omap (fun b => match b with BActive a => Some a | BCFunc _ => None end) (sc_activesp sc).

(** The (scope, active block) pairs of scope [s], and of the whole netlist,
    in tree order. *)
Definition scopeLinked (n : AstNetlist) (s : nat) : list (nat * nat) :=
  match n_scopes n !! s with
  | Some sc => (fun a => (s, a)) <$> scopeActives sc
  | None => []
  end.

Definition linkedActives (n : AstNetlist) : list (nat * nat) :=
  concat (scopeLinked n <$> seq 0 (length (n_scopes n))).

(** The active block at [a] has no statement. *)
Definition isEmptyActive (n : AstNetlist) (a : nat) : bool :=
  match mjoin (n_actives n !! a) with
  | Some act => bool_decide (act_stmtsp act = [])
  | None => false
  end.

(** The class of the non-empty active block at [a]. *)
Definition classOfActive (n : AstNetlist) (a : nat) : option LogicClass :=
  match mjoin (n_actives n !! a) with
  | Some act =>
      if bool_decide (act_stmtsp act = []) then None
      else classOf <$> n_senTrees n !! act_sensesp act
  | None => None
  end.

(** The active block at [a] is in the store and, unless it is empty, so is
    its sensitivity list, which is as the classifier asserts. *)
Definition activeOk (n : AstNetlist) (a : nat) : Prop :=
  exists act, mjoin (n_actives n !! a) = Some act /\
    (act_stmtsp act = [] \/
     exists st, n_senTrees n !! act_sensesp act = Some st /\ wellFormedSenTree st = true).

(** A non-empty active block whose sensitivity list breaks an assertion. *)
Definition activeBad (n : AstNetlist) (a : nat) : Prop :=
  exists act st, mjoin (n_actives n !! a) = Some act /\ act_stmtsp act <> [] /\
    n_senTrees n !! act_sensesp act = Some st /\ wellFormedSenTree st = false.

Definition lc_add (c : LogicClass) (x : nat * nat) (r : LogicClasses) : LogicClasses :=
  match c with
  | Static => lc_add_static x r
  | Initial => lc_add_initial x r
  | Final => lc_add_final x r
  | Comb => lc_add_comb x r
  | Clocked => lc_add_clocked x r
  end.

Lemma bucket_lc_add c c' x r :
  bucket c (lc_add c' x r) = if decide (c = c') then bucket c r ++ [x] else bucket c r.
Proof. destruct c, c'; reflexivity. Qed.

Lemma m_hybrid_lc_add c x r : m_hybrid (lc_add c x r) = m_hybrid r.
Proof. by destruct c. Qed.

Lemma gatherActive_ok n s a result empty :
  activeOk n a ->
  gatherActive s a result empty n
  = Ok (match classOfActive n a with
        | Some c => (lc_add c (s, a) result, empty)
        | None => (result, empty ++ [a])
        end, n).
Proof.
  intros (act & Ha & Hok). unfold gatherActive, classOfActive.
  rewrite (bind_Ok _ _ _ _ _ (getActive_Ok _ _ _ Ha)), Ha.
  case_bool_decide as He; [done|].
  destruct Hok as [?|(st & Hst & Hwf)]; [done|].
  rewrite (bind_Ok _ _ _ _ _ (getSenTree_Ok _ _ _ Hst)), Hst. simpl.
  unfold wellFormedSenTree, classOf in *.
  destruct (hasStatic st); [by rewrite Hwf|].
  destruct (hasInitial st); [by rewrite Hwf|].
  destruct (hasFinal st); [by rewrite Hwf|].
  destruct (hasCombo st); [by rewrite Hwf|].
  by rewrite Hwf.
Qed.

Lemma gatherActive_bad n s a result empty :
  activeBad n a -> exists msg, gatherActive s a result empty n = Fatal msg.
Proof.
  intros (act & st & Ha & Hne & Hst & Hwf). unfold gatherActive.
  rewrite (bind_Ok _ _ _ _ _ (getActive_Ok _ _ _ Ha)).
  case_bool_decide as He; [done|].
  rewrite (bind_Ok _ _ _ _ _ (getSenTree_Ok _ _ _ Hst)).
  unfold wellFormedSenTree, classOf in *.
  destruct (hasStatic st); [rewrite Hwf; eauto|].
  destruct (hasInitial st); [rewrite Hwf; eauto|].
  destruct (hasFinal st); [rewrite Hwf; eauto|].
  destruct (hasCombo st); [rewrite Hwf; eauto|].
  rewrite Hwf; eauto.
Qed.

Lemma deref_inv {S A} (o : option A) (s s' : S) a :
  deref o s = Ok (a, s') -> o = Some a /\ s' = s.
Proof. destruct o; unfold deref; simpl; [|done]. intros H. by injection H as -> ->. Qed.

Lemma UASSERT_inv {S} c msg (s s' : S) u :
  UASSERT_OBJ c msg s = Ok (u, s') -> c = true /\ s' = s.
Proof. destruct c; unfold UASSERT_OBJ; simpl; [|done]. intros H. by injection H as _ ->. Qed.

Lemma gatherActive_state n s a result empty r n' :
  gatherActive s a result empty n = Ok (r, n') -> n' = n.
Proof.
  unfold gatherActive. intros H.
  apply bind_Ok_inv in H as (act & n1 & [_ ->]%deref_inv & H).
  destruct (bool_decide _); [by injection H|].
  apply bind_Ok_inv in H as (st & n2 & [_ ->]%deref_inv & H).
  destruct (hasStatic st), (hasInitial st), (hasFinal st), (hasCombo st);
    apply bind_Ok_inv in H as (? & n3 & [_ ->]%UASSERT_inv & H); by injection H.
Qed.

(** One step of the walk over the active blocks of scope [s]. *)
Definition stepActive (n : AstNetlist) (s : nat) (acc : LogicClasses * list nat) (a : nat)
    : LogicClasses * list nat :=
  match classOfActive n a with
  | Some c => (lc_add c (s, a) acc.1, acc.2)
  | None => (acc.1, acc.2 ++ [a])
  end.

Lemma gatherActives_ok n s blocks : forall result empty,
  Forall (activeOk n) (scopeActives (mkScope EmptyString blocks)) ->
  gatherActives s blocks result empty n
  = Ok (foldl (stepActive n s) (result, empty) (scopeActives (mkScope EmptyString blocks)), n).
Proof.
  unfold scopeActives; simpl.
  induction blocks as [|[a|f] blocks IH]; intros result empty Hok; simpl in *; [done| |auto].
  apply Forall_cons in Hok as [Ha Hok].
  rewrite (bind_Ok _ _ _ _ _ (gatherActive_ok _ _ _ _ _ Ha)).
  unfold stepActive at 2. destruct (classOfActive n a); simpl; by rewrite IH.
Qed.

Lemma gatherActives_bad n s blocks : forall result empty,
  Exists (activeBad n) (scopeActives (mkScope EmptyString blocks)) ->
  exists msg, gatherActives s blocks result empty n = Fatal msg.
Proof.
  unfold scopeActives; simpl.
  induction blocks as [|[a|f] blocks IH]; intros result empty Hbad; simpl in *.
  - by apply Exists_nil in Hbad.
  - destruct (gatherActive s a result empty n) as [[[r e] n']|msg] eqn:Hrun.
    + assert (n' = n) as -> by (eapply gatherActive_state; eauto).
      rewrite (bind_Ok _ _ _ _ _ Hrun). apply Exists_cons in Hbad as [Hb|Hb]; [|by apply IH].
      destruct (gatherActive_bad n s a result empty Hb) as [m Hm]. congruence.
    + exists msg. by rewrite (bind_Fatal _ _ _ _ Hrun).
  - by apply IH.
Qed.

Lemma foldl_stepActive_bucket n s c acts : forall acc,
  bucket c (foldl (stepActive n s) acc acts).1
  = bucket c acc.1 ++ ((fun a => (s, a)) <$> filter (fun a => classOfActive n a = Some c) acts).
Proof.
  induction acts as [|a acts IH]; intros acc; simpl.
  - by rewrite app_nil_r.
  - rewrite IH. unfold stepActive. rewrite filter_cons.
    destruct (classOfActive n a) as [c'|]; simpl.
    + rewrite bucket_lc_add. repeat case_decide; simplify_eq; [|done].
      by rewrite fmap_cons, <- app_assoc.
    + done.
Qed.

Lemma foldl_stepActive_hybrid n s acts : forall acc,
  m_hybrid (foldl (stepActive n s) acc acts).1 = m_hybrid acc.1.
Proof.
  induction acts as [|a acts IH]; intros acc; simpl; [done|].
  rewrite IH. unfold stepActive. destruct (classOfActive n a); simpl; [|done].
  apply m_hybrid_lc_add.
Qed.

Lemma foldl_stepActive_empty n s acts : forall acc,
  (foldl (stepActive n s) acc acts).2
  = acc.2 ++ filter (fun a => classOfActive n a = None) acts.
Proof.
  induction acts as [|a acts IH]; intros acc; simpl.
  - by rewrite app_nil_r.
  - rewrite IH. unfold stepActive. rewrite filter_cons.
    destruct (classOfActive n a) as [c'|]; simpl.
    + done.
    + by rewrite <- app_assoc.
Qed.

(** The active block at [a] and, unless it is empty, its sensitivity list
    are in the store. *)
Definition activeValid (n : AstNetlist) (a : nat) : Prop :=
  exists act, mjoin (n_actives n !! a) = Some act /\
    (act_stmtsp act = [] \/ exists st, n_senTrees n !! act_sensesp act = Some st).

Lemma activeValid_cases n a : activeValid n a -> activeOk n a \/ activeBad n a.
Proof.
  intros (act & Ha & [He|(st & Hst)]).
  - left. exists act. auto.
  - destruct (decide (act_stmtsp act = [])) as [He|Hne]; [left; exists act; auto|].
    destruct (wellFormedSenTree st) eqn:Hwf.
    + left. exists act. split; [done|]. right. eauto.
    + right. by exists act, st.
Qed.

Lemma Forall_activeValid_cases n l :
  Forall (activeValid n) l -> Forall (activeOk n) l \/ Exists (activeBad n) l.
Proof.
  induction 1 as [|a l Ha _ IH]; [by left|].
  destruct IH as [IH|IH]; [|right; by apply Exists_cons_tl].
  destruct (activeValid_cases n a Ha); [left; by constructor|right; by apply Exists_cons_hd].
Qed.

Lemma filter_all {A} (P : A -> Prop) `{!forall x, Decision (P x)} (l : list A) :
  (forall x, P x) -> filter P l = l.
Proof. intros HP. induction l as [|x l IH]; [done|]. by rewrite filter_cons_True, IH. Qed.

Lemma filter_ext_elem {A} (P R : A -> Prop) `{!forall x, Decision (P x)}
    `{!forall x, Decision (R x)} (l : list A) :
  (forall x, x ∈ l -> P x <-> R x) -> filter P l = filter R l.
Proof.
  induction l as [|x l IH]; intros HP; [done|]. rewrite !filter_cons.
  rewrite IH by (intros; apply HP; by right).
  apply decide_ext. apply HP. by left.
Qed.

(** The netlist after the empty active blocks [es] of scope [s] are unlinked
    and deleted. *)
Definition purge (s : nat) (es : list nat) (n : AstNetlist) : AstNetlist :=
  foldl (fun n a => set_actives (<[a := None]>)
                      (set_scopes (alter (sc_unlink (BActive a)) s) n)) n es.

Lemma forM_deleteActive s es : forall n,
  forM_ es (deleteActive s) n = Ok (tt, purge s es n).
Proof. induction es as [|a es IH]; intros n; simpl; [done|]. unfold purge in *. by rewrite <- IH. Qed.

Lemma purge_senTrees s es : forall n, n_senTrees (purge s es n) = n_senTrees n.
Proof. induction es as [|a es IH]; intros n; simpl; [done|]. unfold purge in *. by rewrite IH. Qed.

Lemma purge_scopes_ne s es s' : forall n,
  s <> s' -> n_scopes (purge s es n) !! s' = n_scopes n !! s'.
Proof.
  induction es as [|a es IH]; intros n Hne; simpl; [done|]. unfold purge in *.
  rewrite IH by done. simpl. by rewrite list_lookup_alter_ne.
Qed.

Lemma purge_scopes_eq s es : forall n sc,
  n_scopes n !! s = Some sc ->
  n_scopes (purge s es n) !! s
  = Some (mkScope (sc_nameDotless sc)
            (filter (fun b => b ∉ BActive <$> es) (sc_activesp sc))).
Proof.
  induction es as [|a es IH]; intros n sc Hs; simpl.
  - rewrite Hs. f_equal. destruct sc as [nm bl]; simpl. f_equal.
    symmetry. apply filter_all. intros b Hb. by apply elem_of_nil in Hb.
  - unfold purge in *.
    erewrite IH; [|simpl; by rewrite list_lookup_alter_eq, Hs]. simpl. do 2 f_equal.
    rewrite list_filter_filter. apply list_filter_iff. intros b.
    rewrite elem_of_cons. naive_solver.
Qed.

Lemma purge_actives_notin s es a : forall n,
  a ∉ es -> n_actives (purge s es n) !! a = n_actives n !! a.
Proof.
  induction es as [|e es IH]; intros n Hn; simpl; [done|]. unfold purge in *.
  rewrite IH by set_solver. simpl. apply list_lookup_insert_ne. set_solver.
Qed.

Lemma purge_actives_in s es a : forall n,
  a ∈ es -> mjoin (n_actives (purge s es n) !! a) = None.
Proof.
  induction es as [|e es IH]; intros n Hin; simpl; [by apply elem_of_nil in Hin|].
  unfold purge in *. destruct (decide (a ∈ es)) as [?|Hn]; [by apply IH|].
  apply elem_of_cons in Hin as [->|?]; [|done].
  fold (purge s es (set_actives <[e:=None]> (set_scopes (alter (sc_unlink (BActive e)) s) n))).
  rewrite purge_actives_notin by done. simpl.
  destruct (decide (e < length (n_actives n))%nat).
  - by rewrite list_lookup_insert_eq.
  - rewrite list_insert_ge by lia. by rewrite lookup_ge_None_2 by lia.
Qed.

(** The empty active blocks scope [s] links in [n]. *)
Definition scopeEmpties (n : AstNetlist) (s : nat) : list nat :=
  match n_scopes n !! s with
  | Some sc => filter (fun a => classOfActive n a = None) (scopeActives sc)
  | None => []
  end.

Lemma gatherScope_ok n s sc result :
  n_scopes n !! s = Some sc ->
  Forall (activeOk n) (scopeActives sc) ->
  gatherScope s result n
  = Ok ((foldl (stepActive n s) (result, []) (scopeActives sc)).1, purge s (scopeEmpties n s) n).
Proof.
  intros Hs Hok. unfold gatherScope, scopeEmpties.
  rewrite (bind_Ok _ _ _ _ _ (getScope_Ok _ _ _ Hs)), Hs.
  destruct sc as [nm bl].
  rewrite (bind_Ok _ _ _ _ _ (gatherActives_ok n s bl result [] Hok)).
  pose proof (foldl_stepActive_empty n s (scopeActives (mkScope EmptyString bl)) (result, [])) as He.
  destruct (foldl _ _ _) as [r e]; simpl in *. subst e.
  by rewrite (bind_Ok _ _ _ _ _ (forM_deleteActive _ _ _)).
Qed.

Lemma gatherScope_bad n s sc result :
  n_scopes n !! s = Some sc ->
  Exists (activeBad n) (scopeActives sc) ->
  exists msg, gatherScope s result n = Fatal msg.
Proof.
  intros Hs Hbad. unfold gatherScope.
  rewrite (bind_Ok _ _ _ _ _ (getScope_Ok _ _ _ Hs)).
  destruct sc as [nm bl].
  destruct (gatherActives_bad n s bl result [] Hbad) as [msg Hm].
  exists msg. by rewrite (bind_Fatal _ _ _ _ Hm).
Qed.

(** The buckets and the netlist after the scopes [ss] of [n0] are walked. *)
Definition gatherResult (n0 : AstNetlist) (ss : list nat) (result : LogicClasses)
    : LogicClasses :=
  foldl (fun r s => match n_scopes n0 !! s with
                    | Some sc => (foldl (stepActive n0 s) (r, []) (scopeActives sc)).1
                    | None => r
                    end) result ss.

Definition purgeAll (n0 : AstNetlist) (ss : list nat) (n : AstNetlist) : AstNetlist :=
  foldl (fun n s => purge s (scopeEmpties n0 s) n) n ss.

(** [n] still holds the scopes from [k] on, and their active blocks, as
    [n0] does. *)
Definition agree (n0 n : AstNetlist) (k : nat) : Prop :=
  n_senTrees n = n_senTrees n0 /\
  forall s, (k <= s)%nat ->
    n_scopes n !! s = n_scopes n0 !! s /\
    forall x, x ∈ scopeLinked n0 s -> n_actives n !! x.2 = n_actives n0 !! x.2.

Lemma classOfActive_agree n0 n a :
  n_senTrees n = n_senTrees n0 -> n_actives n !! a = n_actives n0 !! a ->
  classOfActive n a = classOfActive n0 a.
Proof. intros Hs Ha. unfold classOfActive. by rewrite Hs, Ha. Qed.

Lemma activeOk_agree n0 n a :
  n_senTrees n = n_senTrees n0 -> n_actives n !! a = n_actives n0 !! a ->
  activeOk n0 a -> activeOk n a.
Proof. intros Hs Ha (act & H1 & H2). exists act. by rewrite Hs, Ha. Qed.

Lemma activeBad_agree n0 n a :
  n_senTrees n = n_senTrees n0 -> n_actives n !! a = n_actives n0 !! a ->
  activeBad n0 a -> activeBad n a.
Proof. intros Hs Ha (act & st & H1 & H2). exists act, st. by rewrite Hs, Ha. Qed.

Lemma activeOk_not_bad n a : activeOk n a -> activeBad n a -> False.
Proof.
  intros (act & Ha & Hok) (act' & st & Ha' & Hne & Hst & Hwf).
  rewrite Ha in Ha'. injection Ha' as <-.
  destruct Hok as [?|(st' & Hst' & Hwf')]; [done|]. congruence.
Qed.

Lemma foldl_stepActive_ext n0 n s acts : forall acc,
  (forall a, a ∈ acts -> classOfActive n a = classOfActive n0 a) ->
  foldl (stepActive n s) acc acts = foldl (stepActive n0 s) acc acts.
Proof.
  induction acts as [|a acts IH]; intros acc H; simpl; [done|].
  unfold stepActive at 2 4. rewrite (H a) by (by left). apply IH. intros; apply H. by right.
Qed.

Lemma NoDup_snd_inj {A B} (l : list (A * B)) x1 x2 y :
  NoDup l.*2 -> (x1, y) ∈ l -> (x2, y) ∈ l -> x1 = x2.
Proof.
  induction l as [|[a b] l IH]; simpl; intros Hnd H1 H2; [by apply elem_of_nil in H1|].
  apply NoDup_cons in Hnd as [Hn Hnd].
  apply elem_of_cons in H1 as [H1|H1], H2 as [H2|H2]; simplify_eq; auto.
  - exfalso. apply Hn. apply list_elem_of_fmap. by exists (x2, b).
  - exfalso. apply Hn. apply list_elem_of_fmap. by exists (x1, b).
Qed.

Lemma elem_of_concat {A} (ls : list (list A)) x :
  x ∈ concat ls <-> exists l, x ∈ l /\ l ∈ ls.
Proof.
  rewrite list_elem_of_In, in_concat. split; intros (l & H1 & H2); exists l;
    rewrite ?list_elem_of_In in *; auto.
Qed.

Lemma scopeLinked_linked n s x :
  x ∈ scopeLinked n s -> x ∈ linkedActives n /\ x.1 = s.
Proof.
  intros Hx. unfold scopeLinked in Hx. destruct (n_scopes n !! s) as [sc|] eqn:Hs;
    [|by apply elem_of_nil in Hx].
  split.
  - unfold linkedActives. apply elem_of_concat. exists (scopeLinked n s). split.
    + unfold scopeLinked. by rewrite Hs.
    + apply list_elem_of_fmap. exists s. split; [done|].
      apply elem_of_seq. apply lookup_lt_Some in Hs. lia.
  - apply list_elem_of_fmap in Hx as (a & -> & _). done.
Qed.

Lemma linked_scopeLinked n x : x ∈ linkedActives n -> x ∈ scopeLinked n x.1.
Proof.
  unfold linkedActives. intros (l & Hx & (s & -> & _)%list_elem_of_fmap)%elem_of_concat.
  by destruct (scopeLinked_linked n s x Hx) as [_ ->].
Qed.

Lemma scopeEmpties_linked n s a :
  a ∈ scopeEmpties n s -> (s, a) ∈ scopeLinked n s /\ classOfActive n a = None.
Proof.
  unfold scopeEmpties, scopeLinked. destruct (n_scopes n !! s) as [sc|];
    [|intros H; by apply elem_of_nil in H].
  intros [? ?]%list_elem_of_filter. split; [|done]. by apply list_elem_of_fmap_2.
Qed.

Lemma agree_step n0 n k :
  NoDup (linkedActives n0).*2 -> agree n0 n k ->
  agree n0 (purge k (scopeEmpties n0 k) n) (S k).
Proof.
  intros Hnd [Hst Hag]. split; [by rewrite purge_senTrees|].
  intros s Hs. destruct (Hag s ltac:(lia)) as [Hsc Hact]. split.
  - rewrite purge_scopes_ne by lia. done.
  - intros [s' a] Hx. rewrite purge_actives_notin; [by apply Hact|].
    intros [He _]%scopeEmpties_linked. simpl in *.
    destruct (scopeLinked_linked _ _ _ Hx) as [Hx1 Hx2].
    destruct (scopeLinked_linked _ _ _ He) as [He1 _]. simpl in *. subst s'.
    pose proof (NoDup_snd_inj _ _ _ _ Hnd Hx1 He1). lia.
Qed.

Lemma gatherScopes_ok n0 m : forall k result n,
  NoDup (linkedActives n0).*2 ->
  (k + m = length (n_scopes n0))%nat ->
  agree n0 n k ->
  Forall (fun x => activeOk n0 x.2) (linkedActives n0) ->
  gatherScopes (seq k m) result n
  = Ok (gatherResult n0 (seq k m) result, purgeAll n0 (seq k m) n).
Proof.
  induction m as [|m IH]; intros k result n Hnd Hlen Hag Hok; [done|].
  cbn [seq gatherScopes gatherResult purgeAll foldl].
  assert (is_Some (n_scopes n0 !! k)) as [sc Hsc] by (apply lookup_lt_is_Some; lia).
  destruct Hag as [Hst Hag]. destruct (Hag k ltac:(lia)) as [Hsck Hactk].
  rewrite Hsc in Hsck.
  assert (Hcl : forall a, a ∈ scopeActives sc -> n_actives n !! a = n_actives n0 !! a).
  { intros a Ha. apply (Hactk (k, a)). unfold scopeLinked. rewrite Hsc.
    by apply list_elem_of_fmap_2. }
  assert (Hokk : Forall (activeOk n) (scopeActives sc)).
  { apply Forall_forall. intros a Ha. apply (activeOk_agree n0); auto.
    rewrite Forall_forall in Hok. apply (Hok (k, a)).
    apply (scopeLinked_linked n0 k). unfold scopeLinked. rewrite Hsc.
    by apply list_elem_of_fmap_2. }
  rewrite (bind_Ok _ _ _ _ _ (gatherScope_ok n k sc result Hsck Hokk)).
  assert (scopeEmpties n k = scopeEmpties n0 k) as ->.
  { unfold scopeEmpties. rewrite Hsck, Hsc. apply filter_ext_elem.
    intros a Ha. by rewrite (classOfActive_agree n0 n a) by auto. }
  rewrite (foldl_stepActive_ext n0 n)
    by (intros; apply classOfActive_agree; auto).
  rewrite (IH (S k) _ _ Hnd ltac:(lia) (agree_step n0 n k Hnd (conj Hst Hag)) Hok).
  by rewrite Hsc.
Qed.

Lemma gatherScopes_bad n0 m : forall k result n,
  NoDup (linkedActives n0).*2 ->
  (k + m = length (n_scopes n0))%nat ->
  agree n0 n k ->
  Forall (fun x => activeValid n0 x.2) (linkedActives n0) ->
  (exists x, x ∈ linkedActives n0 /\ (k <= x.1)%nat /\ activeBad n0 x.2) ->
  exists msg, gatherScopes (seq k m) result n = Fatal msg.
Proof.
  induction m as [|m IH]; intros k result n Hnd Hlen Hag Hval (x & Hx & Hk & Hbad).
  { apply linked_scopeLinked in Hx. unfold scopeLinked in Hx.
    destruct (n_scopes n0 !! x.1) eqn:Hs; [|by apply elem_of_nil in Hx].
    apply lookup_lt_Some in Hs. lia. }
  cbn [seq gatherScopes].
  assert (is_Some (n_scopes n0 !! k)) as [sc Hsc] by (apply lookup_lt_is_Some; lia).
  pose proof Hag as [Hst Hag']. destruct (Hag' k ltac:(lia)) as [Hsck Hactk].
  rewrite Hsc in Hsck.
  assert (Hin : forall a, a ∈ scopeActives sc -> (k, a) ∈ scopeLinked n0 k).
  { intros a Ha. unfold scopeLinked. rewrite Hsc. by apply list_elem_of_fmap_2. }
  assert (Hvk : Forall (activeValid n0) (scopeActives sc)).
  { apply Forall_forall. intros a Ha. rewrite Forall_forall in Hval.
    apply (Hval (k, a)). by apply (scopeLinked_linked n0 k), Hin. }
  destruct (Forall_activeValid_cases _ _ Hvk) as [Hok|Hb].
  - assert (Hokk : Forall (activeOk n) (scopeActives sc)).
    { rewrite Forall_forall in Hok |- *. intros a Ha.
      apply (activeOk_agree n0); auto. by apply (Hactk (k, a)), Hin. }
    rewrite (bind_Ok _ _ _ _ _ (gatherScope_ok n k sc result Hsck Hokk)).
    assert (scopeEmpties n k = scopeEmpties n0 k) as ->.
    { unfold scopeEmpties. rewrite Hsck, Hsc. apply filter_ext_elem.
      intros a Ha. rewrite (classOfActive_agree n0 n a); auto. by apply (Hactk (k, a)), Hin. }
    apply (IH (S k)); auto; [lia|by apply agree_step|].
    exists x. split; [done|]. split; [|done].
    destruct (decide (x.1 = k)) as [Heq|?]; [|lia]. exfalso.
    apply linked_scopeLinked in Hx. rewrite Heq in Hx. unfold scopeLinked in Hx.
    rewrite Hsc in Hx. apply list_elem_of_fmap in Hx as (a & -> & Ha).
    rewrite Forall_forall in Hok. by apply (activeOk_not_bad n0 a); [apply Hok|].
  - assert (Hbk : Exists (activeBad n) (scopeActives sc)).
    { rewrite Exists_exists in Hb |- *. destruct Hb as (a & Ha & Hb). exists a. split; [done|].
      apply (activeBad_agree n0); auto. by apply (Hactk (k, a)), Hin. }
    destruct (gatherScope_bad n k sc result Hsck Hbk) as [msg Hm].
    exists msg. by rewrite (bind_Fatal _ _ _ _ Hm).
Qed.

Lemma filter_fmap {A B} (f : A -> B) (P : B -> Prop) `{!forall x, Decision (P x)} (l : list A) :
  filter P (f <$> l) = f <$> filter (fun a => P (f a)) l.
Proof.
  induction l as [|a l IH]; [done|]. rewrite fmap_cons, !filter_cons, IH.
  by destruct (decide (P (f a))).
Qed.

Lemma gatherResult_bucket n0 c ss : forall r,
  bucket c (gatherResult n0 ss r)
  = bucket c r ++ filter (fun x => classOfActive n0 x.2 = Some c)
                    (concat (scopeLinked n0 <$> ss)).
Proof.
  induction ss as [|s ss IH]; intros r; simpl; [by rewrite app_nil_r|].
  unfold gatherResult in *. rewrite IH, filter_app, app_assoc. f_equal.
  unfold scopeLinked. destruct (n_scopes n0 !! s) as [sc|]; [|by rewrite app_nil_r].
  by rewrite foldl_stepActive_bucket, filter_fmap.
Qed.

Lemma gatherResult_hybrid n0 ss : forall r, m_hybrid (gatherResult n0 ss r) = m_hybrid r.
Proof.
  induction ss as [|s ss IH]; intros r; simpl; [done|].
  unfold gatherResult in *. rewrite IH.
  destruct (n_scopes n0 !! s); [|done]. by rewrite foldl_stepActive_hybrid.
Qed.

Lemma purgeAll_senTrees n0 ss : forall n, n_senTrees (purgeAll n0 ss n) = n_senTrees n.
Proof.
  induction ss as [|s ss IH]; intros n; simpl; [done|]. unfold purgeAll in *.
  by rewrite IH, purge_senTrees.
Qed.

Lemma purge_cfuncs s es : forall n, n_cfuncs (purge s es n) = n_cfuncs n.
Proof. induction es as [|a es IH]; intros n; simpl; [done|]. unfold purge in *. by rewrite IH. Qed.

Lemma purgeAll_cfuncs n0 ss : forall n, n_cfuncs (purgeAll n0 ss n) = n_cfuncs n.
Proof.
  induction ss as [|s ss IH]; intros n; simpl; [done|]. unfold purgeAll in *.
  by rewrite IH, purge_cfuncs.
Qed.

Lemma purgeAll_scopes_notin n0 ss s : forall n,
  s ∉ ss -> n_scopes (purgeAll n0 ss n) !! s = n_scopes n !! s.
Proof.
  induction ss as [|s' ss IH]; intros n Hn; simpl; [done|]. unfold purgeAll in *.
  rewrite IH by set_solver. apply purge_scopes_ne. set_solver.
Qed.

Lemma purgeAll_scopes_in n0 ss s : forall n sc,
  NoDup ss -> s ∈ ss -> n_scopes n !! s = Some sc ->
  n_scopes (purgeAll n0 ss n) !! s
  = Some (mkScope (sc_nameDotless sc)
            (filter (fun b => b ∉ BActive <$> scopeEmpties n0 s) (sc_activesp sc))).
Proof.
  induction ss as [|s' ss IH]; intros n sc Hnd Hin Hs; [by apply elem_of_nil in Hin|].
  apply NoDup_cons in Hnd as [Hn Hnd]. simpl.
  fold (purgeAll n0 ss (purge s' (scopeEmpties n0 s') n)).
  destruct (decide (s = s')) as [->|Hne].
  - rewrite purgeAll_scopes_notin by done. by apply purge_scopes_eq.
  - apply IH; [done|set_solver|]. by rewrite purge_scopes_ne.
Qed.

Lemma purge_actives_None s es a n :
  mjoin (n_actives n !! a) = None -> mjoin (n_actives (purge s es n) !! a) = None.
Proof.
  intros H. destruct (decide (a ∈ es)); [by apply purge_actives_in|].
  by rewrite purge_actives_notin.
Qed.

Lemma purgeAll_actives_in n0 ss a : forall n,
  (exists s, s ∈ ss /\ a ∈ scopeEmpties n0 s) ->
  mjoin (n_actives (purgeAll n0 ss n) !! a) = None.
Proof.
  assert (Hkeep : forall ss n, mjoin (n_actives n !! a) = None ->
            mjoin (n_actives (purgeAll n0 ss n) !! a) = None).
  { clear. induction ss as [|s ss IH]; intros n H; simpl; [done|].
    apply IH. by apply purge_actives_None. }
  induction ss as [|s' ss IH]; intros n (s & Hin & Ha); [by apply elem_of_nil in Hin|].
  simpl. fold (purgeAll n0 ss (purge s' (scopeEmpties n0 s') n)).
  apply elem_of_cons in Hin as [->|Hin].
  - apply Hkeep. by apply purge_actives_in.
  - apply IH. eauto.
Qed.

Lemma purgeAll_actives_notin n0 ss a : forall n,
  (forall s, s ∈ ss -> a ∉ scopeEmpties n0 s) ->
  n_actives (purgeAll n0 ss n) !! a = n_actives n !! a.
Proof.
  induction ss as [|s' ss IH]; intros n H; simpl; [done|].
  fold (purgeAll n0 ss (purge s' (scopeEmpties n0 s') n)).
  rewrite IH by (intros; apply H; by right).
  apply purge_actives_notin. apply H. by left.
Qed.

Lemma activeOk_empty_iff n a :
  activeOk n a -> classOfActive n a = None <-> isEmptyActive n a = true.
Proof.
  intros (act & Ha & Hok). unfold classOfActive, isEmptyActive. rewrite Ha.
  case_bool_decide as He; [done|].
  destruct Hok as [?|(st & -> & _)]; [done|]. simpl. split; discriminate.
Qed.

Lemma class_filters_Permutation n (l : list (nat * nat)) :
  Forall (fun x => activeOk n x.2) l ->
  filter (fun x => classOfActive n x.2 = Some Static) l
  ++ filter (fun x => classOfActive n x.2 = Some Initial) l
  ++ filter (fun x => classOfActive n x.2 = Some Final) l
  ++ filter (fun x => classOfActive n x.2 = Some Comb) l
  ++ filter (fun x => classOfActive n x.2 = Some Clocked) l
  ≡ₚ filter (fun x => isEmptyActive n x.2 = false) l.
Proof.
  induction 1 as [|x l Hx _ IH]; [done|].
  pose proof (activeOk_empty_iff n x.2 Hx) as He.
  rewrite !filter_cons.
  destruct (classOfActive n x.2) as [c|] eqn:Hc.
  - destruct (isEmptyActive n x.2) eqn:Hemp; [destruct He as [_ He]; by specialize (He eq_refl)|].
    rewrite (decide_True (P := false = false)) by done. rewrite <- IH.
    destruct c; repeat case_decide; simplify_eq; simpl;
      rewrite <- ?Permutation_middle; done.
  - destruct He as [He _]. rewrite (He eq_refl).
    repeat case_decide; simplify_eq. done.
Qed.

(** The blocks of a scope the classifier leaves linked: the functions and
    the active blocks that are not empty. *)
Definition keptBlock (n : AstNetlist) (b : Block) : bool :=
  match b with
  | BActive a => negb (isEmptyActive n a)
  | BCFunc _ => true
  end.

Lemma gatherLogicClasses_ok n :
  NoDup (linkedActives n).*2 ->
  Forall (fun x => activeOk n x.2) (linkedActives n) ->
  gatherLogicClasses n
  = Ok (gatherResult n (seq 0 (length (n_scopes n))) (mkLogicClasses [] [] [] [] [] []),
        purgeAll n (seq 0 (length (n_scopes n))) n).
Proof.
  intros Hnd Hok. unfold gatherLogicClasses. rewrite (bind_Ok _ _ n n n eq_refl).
  apply gatherScopes_ok; auto. by split.
Qed.

(** C5: the classifier puts every non-empty active block into exactly one
    of the buckets static, initial, final, combinational and clocked (each
    bucket holds, in tree order, the non-empty active blocks whose
    sensitivity list is of its class, and the buckets together are the
    non-empty active blocks, each once); it fails when a static, initial,
    final or combinational sensitivity list has more than one item or when a
    list of none of these classes is not clocked; and when it returns, every
    empty active block is unlinked from its scope and deleted, the others
    being left alone. *)
Theorem gatherLogicClasses_classifies n :
  NoDup (linkedActives n).*2 ->
  Forall (fun x => activeValid n x.2) (linkedActives n) ->
  (Exists (fun x => activeBad n x.2) (linkedActives n) ->
   exists msg, gatherLogicClasses n = Fatal msg) /\
  (Forall (fun x => activeOk n x.2) (linkedActives n) ->
   exists lc n',
     gatherLogicClasses n = Ok (lc, n') /\
     (forall c, bucket c lc
                = filter (fun x => classOfActive n x.2 = Some c) (linkedActives n)) /\
     m_hybrid lc = [] /\
     m_static lc ++ m_initial lc ++ m_final lc ++ m_comb lc ++ m_clocked lc
       ≡ₚ filter (fun x => isEmptyActive n x.2 = false) (linkedActives n) /\
     NoDup (m_static lc ++ m_initial lc ++ m_final lc ++ m_comb lc ++ m_clocked lc) /\
     (forall x, x ∈ linkedActives n -> isEmptyActive n x.2 = false ->
        exists c, x ∈ bucket c lc /\ forall c', x ∈ bucket c' lc -> c' = c) /\
     (forall s sc, n_scopes n !! s = Some sc ->
        n_scopes n' !! s
        = Some (mkScope (sc_nameDotless sc)
                  (filter (fun b => keptBlock n b = true) (sc_activesp sc)))) /\
     (forall x, x ∈ linkedActives n -> isEmptyActive n x.2 = true ->
        mjoin (n_actives n' !! x.2) = None) /\
     (forall x, x ∈ linkedActives n -> isEmptyActive n x.2 = false ->
        n_actives n' !! x.2 = n_actives n !! x.2) /\
     n_senTrees n' = n_senTrees n /\ n_cfuncs n' = n_cfuncs n).
Proof.
  intros Hnd Hval. split.
  - intros Hbad. unfold gatherLogicClasses. rewrite (bind_Ok _ _ n n n eq_refl).
    apply (gatherScopes_bad n); auto; [by split|].
    apply Exists_exists in Hbad as (x & Hx & Hb). exists x. split; [done|]. split; [lia|done].
  - intros Hok. eexists _, _. split; [by apply gatherLogicClasses_ok|].
    assert (Hb : forall c,
      bucket c (gatherResult n (seq 0 (length (n_scopes n))) (mkLogicClasses [] [] [] [] [] []))
      = filter (fun x => classOfActive n x.2 = Some c) (linkedActives n)).
    { intros c. rewrite gatherResult_bucket. by destruct c. }
    assert (Hemp : forall x, x ∈ linkedActives n ->
              classOfActive n x.2 = None <-> isEmptyActive n x.2 = true).
    { intros x Hx. apply activeOk_empty_iff. rewrite Forall_forall in Hok. by apply Hok. }
    assert (Hperm :
      m_static (gatherResult n (seq 0 (length (n_scopes n))) (mkLogicClasses [] [] [] [] [] []))
      ++ m_initial (gatherResult n (seq 0 (length (n_scopes n))) (mkLogicClasses [] [] [] [] [] []))
      ++ m_final (gatherResult n (seq 0 (length (n_scopes n))) (mkLogicClasses [] [] [] [] [] []))
      ++ m_comb (gatherResult n (seq 0 (length (n_scopes n))) (mkLogicClasses [] [] [] [] [] []))
      ++ m_clocked (gatherResult n (seq 0 (length (n_scopes n))) (mkLogicClasses [] [] [] [] [] []))
      ≡ₚ filter (fun x => isEmptyActive n x.2 = false) (linkedActives n)).
    { rewrite <- (class_filters_Permutation n _ Hok).
      by rewrite <- (Hb Static), <- (Hb Initial), <- (Hb Final), <- (Hb Comb), <- (Hb Clocked). }
    split; [done|]. split; [by rewrite gatherResult_hybrid|]. split; [done|].
    split.
    { rewrite Hperm. apply NoDup_filter. by apply NoDup_fmap_1 with (f := snd). }
    split.
    { intros x Hx Hne. destruct (classOfActive n x.2) as [c|] eqn:Hc.
      - exists c. split.
        + rewrite Hb. by apply list_elem_of_filter.
        + intros c'. rewrite Hb. intros [? _]%list_elem_of_filter. congruence.
      - apply Hemp in Hc; [congruence|done]. }
    split.
    { intros s sc Hs.
      rewrite (purgeAll_scopes_in n _ s n sc (NoDup_seq _ _)); [|  |done].
      2:{ apply elem_of_seq. apply lookup_lt_Some in Hs. lia. }
      do 2 f_equal. apply filter_ext_elem. intros [a|f] Hbl.
      - assert (Ha : a ∈ scopeActives sc).
        { unfold scopeActives. apply list_elem_of_omap. by exists (BActive a). }
        assert (Hl : (s, a) ∈ linkedActives n).
        { apply (scopeLinked_linked n s). unfold scopeLinked. rewrite Hs.
          by apply list_elem_of_fmap_2. }
        specialize (Hemp _ Hl). simpl in Hemp. unfold keptBlock. split.
        + intros Hn. destruct (isEmptyActive n a) eqn:E; [|done]. exfalso. apply Hn.
          apply list_elem_of_fmap_2. unfold scopeEmpties. rewrite Hs.
          apply list_elem_of_filter. split; [by apply Hemp|done].
        + intros E (a' & [= <-] & [_ Hc]%scopeEmpties_linked)%list_elem_of_fmap.
          apply Hemp in Hc. rewrite Hc in E. done.
      - split; [done|]. intros _ (a' & ? & _)%list_elem_of_fmap. done. }
    split.
    { intros x Hx He. apply purgeAll_actives_in. exists x.1. split.
      - apply linked_scopeLinked in Hx. unfold scopeLinked in Hx.
        destruct (n_scopes n !! x.1) eqn:Hs; [|by apply elem_of_nil in Hx].
        apply elem_of_seq. apply lookup_lt_Some in Hs. lia.
      - pose proof Hx as Hx'. apply linked_scopeLinked in Hx.
        unfold scopeLinked in Hx. unfold scopeEmpties.
        destruct (n_scopes n !! x.1) eqn:Hs; [|by apply elem_of_nil in Hx].
        apply list_elem_of_fmap in Hx as (a0 & Hxa & Ha). destruct x as [s' a']; simplify_eq/=.
        apply list_elem_of_filter. split; [|done]. by apply (Hemp (s', a0)). }
    split.
    { intros x Hx Hne. apply purgeAll_actives_notin. intros s _ [Hl Hc]%scopeEmpties_linked.
      apply (Hemp (s, x.2)) in Hc; [simpl in Hc; congruence|].
      by apply (scopeLinked_linked n s). }
    split; [apply purgeAll_senTrees|apply purgeAll_cfuncs].
Qed.

End GatherFacts.

(** ** makeEvalLoop *)

Section EvalLoopFacts.
Context {Q : AstQueries}.
Variable v3Global : V3Global.

Lemma getVarScope_Ok n p v : n_varScopes n !! p = Some v -> getVarScope p n = Ok (v, n).
Proof. intros H. unfold getVarScope. now rewrite H. Qed.

Lemma setVar_Ok n p v val :
  n_varScopes n !! p = Some v ->
  setVar p val n = Ok (AstAssign (AstVarRef p WRITE) (AstConst (vsc_dtypep v) val), n).
Proof. intros H. unfold setVar. by rewrite (bind_Ok _ _ _ _ _ (getVarScope_Ok _ _ _ H)). Qed.

(** The divergence check of a loop: the counter compared with the limit, and
    in its true branch the dump of the triggers under [VL_DEBUG] and the
    fatal message citing file and line of the top module. *)
Definition divergenceCheck (n : AstNetlist) (name : string) (counterp : nat)
    (trigDumpp : nat) : AstNode :=
  AstIf (AstGt (AstVarRef counterp READ)
               (AstConst (bitDType 32) (wrap32 (convergeLimit (opt v3Global)))))
    [AstTextBlock
       [AstText ("#ifdef VL_DEBUG" +:+ newline) true;
        AstCCall trigDumpp;
        AstText ("#endif" +:+ newline) true;
        AstText ("VL_FATAL_MT(" +:+ dquote +:+ protect (n_topModuleFileline n).1 +:+ dquote
                 +:+ ", " +:+ cvtToStr (n_topModuleFileline n).2 +:+ ", "
                 +:+ dquote +:+ dquote +:+ ", ") true;
        AstText (dquote +:+ name +:+ " region did not converge." +:+ dquote +:+ ");"
                 +:+ newline) true]]
    [] BP_UNKNOWN.

(** The counter bumped by one. *)
Definition incrementCounter (counterp : nat) : AstNode :=
  AstAssign (AstVarRef counterp WRITE)
    (AstAdd (AstVarRef counterp READ) (AstConst (bitDType 32) 1)).

Definition assignVar (p : nat) (w val : Z) : AstNode :=
  AstAssign (AstVarRef p WRITE) (AstConst (bitDType w) val).

(** The statements of an eval loop with counter [counterp] and continuation
    flag [continuep]. *)
Definition evalLoop (n : AstNetlist) (name : string) (counterp continuep trigVscp : nat)
    (trigDumpp : nat) (trigsp bodyp : list AstNode) : list AstNode :=
  [ assignVar counterp 32 0;
    assignVar continuep 1 1;
    AstWhile (AstVarRef continuep READ)
      (assignVar continuep 1 0
       :: trigsp
       ++ [AstIf (AstCMethodHard (AstVarRef trigVscp READ) "any" [] (Some (bitDType 1))
                    false false)
             (assignVar continuep 1 1
              :: divergenceCheck n name counterp trigDumpp
              :: incrementCounter counterp
              :: bodyp)
             [] BP_UNKNOWN]) ].

(** The two variables an eval loop creates in the top scope. *)
Definition loopVars (n : AstNetlist) (tag : string) : list AstVarScope :=
  [ mkVarScope ("__V" +:+ tag +:+ "IterCount") (n_topScope n) (bitDType 32);
    mkVarScope ("__V" +:+ tag +:+ "Continue") (n_topScope n) (bitDType 1) ].

Lemma makeEvalLoop_Ok tag name trigVscp trigDumpp computeTriggers makeBody
    n trigVsc trigsp bodyp n3 n4 :
  n_varScopes n !! trigVscp = Some trigVsc ->
  isTriggerVec (vsc_dtypep trigVsc) = true ->
  computeTriggers (set_varScopes (fun l => l ++ loopVars n tag) n) = Ok (trigsp, n3) ->
  n_varScopes n3 !! S (length (n_varScopes n))
    = Some (mkVarScope ("__V" +:+ tag +:+ "Continue") (n_topScope n) (bitDType 1)) ->
  makeBody n3 = Ok (bodyp, n4) ->
  makeEvalLoop v3Global tag name trigVscp trigDumpp computeTriggers makeBody n
  = Ok ((length (n_varScopes n),
         evalLoop n name (length (n_varScopes n)) (S (length (n_varScopes n)))
           trigVscp trigDumpp trigsp bodyp), n4).
Proof.
  intros Hv Htv Htrig Hcont Hbody. unfold makeEvalLoop.
  rewrite (bind_Ok _ _ _ _ _ (getVarScope_Ok _ _ _ Hv)), Htv.
  rewrite (bind_Ok _ _ n tt n eq_refl), (bind_Ok _ _ n n n eq_refl).
  set (n1 := set_varScopes (fun l => l ++ [mkVarScope ("__V" +:+ tag +:+ "IterCount")
                                             (n_topScope n) (bitDType 32)]) n).
  rewrite (bind_Ok _ _ n (length (n_varScopes n)) n1 eq_refl).
  assert (H1 : n_varScopes n1 !! length (n_varScopes n)
               = Some (mkVarScope ("__V" +:+ tag +:+ "IterCount") (n_topScope n) (bitDType 32))).
  { unfold n1; simpl. by rewrite list_lookup_middle. }
  rewrite (bind_Ok _ _ _ _ _ (setVar_Ok _ _ _ 0 H1)).
  set (n2 := set_varScopes (fun l => l ++ loopVars n tag) n).
  assert (Hn2 : set_varScopes (fun l => l ++ [mkVarScope ("__V" +:+ tag +:+ "Continue")
                                                (n_topScope n1) (bitDType 1)]) n1 = n2).
  { unfold n2, n1, loopVars. destruct n; unfold set_varScopes; simpl.
    by rewrite <- app_assoc. }
  assert (H2 : n_varScopes n2 !! S (length (n_varScopes n))
               = Some (mkVarScope ("__V" +:+ tag +:+ "Continue") (n_topScope n) (bitDType 1))).
  { unfold n2, loopVars; simpl.
    rewrite (lookup_app_r _ _ (S (length (n_varScopes n)))) by lia.
    by replace (S (length (n_varScopes n)) - length (n_varScopes n))%nat with 1%nat by lia. }
  erewrite bind_Ok; [reflexivity|].
  unfold buildLoop. rewrite (bind_Ok _ _ n1 n1 n1 eq_refl).
  rewrite (bind_Ok _ _ n1 (S (length (n_varScopes n))) n2).
  2:{ unfold createTemp. rewrite Hn2. do 2 f_equal. unfold n1; simpl.
      rewrite length_app; simpl. lia. }
  rewrite (bind_Ok _ _ _ _ _ (setVar_Ok _ _ _ 1 H2)).
  rewrite (bind_Ok _ _ _ _ _ (setVar_Ok _ _ _ 0 H2)).
  erewrite bind_Ok; [reflexivity|].
  rewrite (bind_Ok _ _ _ _ _ Htrig).
  rewrite (bind_Ok _ _ _ _ _ (setVar_Ok _ _ _ 1 Hcont)).
  destruct (n_topModuleFileline n) as [filename lineno] eqn:Hfl.
  rewrite (bind_Ok _ _ _ _ _ Hbody). unfold mret, M_ret. do 2 f_equal.
  unfold divergenceCheck. by rewrite Hfl.
Qed.

(** C6: every loop [makeEvalLoop] makes sets its 32 bit iteration counter
    to 0 first; the branch taken when some trigger bit is set holds, after
    the continuation flag is set, the divergence check [counter > limit]
    (whose true branch calls the trigger dump under [VL_DEBUG] and then
    emits [VL_FATAL_MT] with the protected file name and the line of the top
    module and the message "<name> region did not converge."), then the one
    increment of the counter, then the body; the limit is the configured
    converge limit as a 32 bit unsigned number. *)
Theorem makeEvalLoop_divergence_check tag name trigVscp trigDumpp computeTriggers makeBody
    n trigVsc trigsp bodyp n3 n4 :
  n_varScopes n !! trigVscp = Some trigVsc ->
  isTriggerVec (vsc_dtypep trigVsc) = true ->
  computeTriggers (set_varScopes (fun l => l ++ loopVars n tag) n) = Ok (trigsp, n3) ->
  n_varScopes n3 !! S (length (n_varScopes n))
    = Some (mkVarScope ("__V" +:+ tag +:+ "Continue") (n_topScope n) (bitDType 1)) ->
  makeBody n3 = Ok (bodyp, n4) ->
  let counterp := length (n_varScopes n) in
  let continuep := S counterp in
  let limit := wrap32 (convergeLimit (opt v3Global)) in
  let fatalp :=
    AstTextBlock
      [AstText ("#ifdef VL_DEBUG" +:+ newline) true;
       AstCCall trigDumpp;
       AstText ("#endif" +:+ newline) true;
       AstText ("VL_FATAL_MT(" +:+ dquote +:+ protect (n_topModuleFileline n).1 +:+ dquote
                +:+ ", " +:+ cvtToStr (n_topModuleFileline n).2 +:+ ", "
                +:+ dquote +:+ dquote +:+ ", ") true;
       AstText (dquote +:+ name +:+ " region did not converge." +:+ dquote +:+ ");"
                +:+ newline) true] in
  let failp := AstIf (AstGt (AstVarRef counterp READ) (AstConst (bitDType 32) limit))
                 [fatalp] [] BP_UNKNOWN in
  let incp := AstAssign (AstVarRef counterp WRITE)
                (AstAdd (AstVarRef counterp READ) (AstConst (bitDType 32) 1)) in
  let triggered := [assignVar continuep 1 1; failp; incp] ++ bodyp in
  makeEvalLoop v3Global tag name trigVscp trigDumpp computeTriggers makeBody n
  = Ok ((counterp,
         [ assignVar counterp 32 0;
           assignVar continuep 1 1;
           AstWhile (AstVarRef continuep READ)
             (assignVar continuep 1 0 :: trigsp
              ++ [AstIf (AstCMethodHard (AstVarRef trigVscp READ) "any" []
                           (Some (bitDType 1)) false false)
                    triggered [] BP_UNKNOWN]) ]), n4) /\
  (set_varScopes (fun l => l ++ loopVars n tag) n).(n_varScopes) !! counterp
    = Some (mkVarScope ("__V" +:+ tag +:+ "IterCount") (n_topScope n) (bitDType 32)) /\
  (0 <= convergeLimit (opt v3Global) < 2 ^ 32 -> limit = convergeLimit (opt v3Global)) /\
  (incp ∉ [assignVar continuep 1 1; failp]).
Proof.
  intros Hv Htv Htrig Hcont Hbody. cbv zeta. split; [|split; [|split]].
  - by apply makeEvalLoop_Ok with (trigVsc := trigVsc) (n3 := n3).
  - unfold set_varScopes, loopVars; cbn [n_varScopes]. by apply list_lookup_middle.
  - intros Hr. unfold wrap32. by apply Z.mod_small.
  - intros [H|[H|H]%elem_of_cons]%elem_of_cons; [discriminate|discriminate|].
    by apply elem_of_nil in H.
Qed.

End EvalLoopFacts.

(** ** createEval *)

Section EvalFacts.
Context {Q : AstQueries}.
Variable v3Global : V3Global.

Lemma makeSubFunction_Ok name slow n sc :
  n_scopes n !! n_topScope n = Some sc ->
  makeSubFunction name slow n
  = Ok (length (n_cfuncs n),
        set_scopes (alter (sc_addActivep (BCFunc (length (n_cfuncs n)))) (n_topScope n))
          (set_cfuncs (fun l => l ++ [mkCFunc name (n_topScope n) [] [] true false true slow
                                        false true false EmptyString]) n)).
Proof.
  intros Hs. unfold makeSubFunction. rewrite (bind_Ok _ _ n n n eq_refl).
  rewrite (bind_Ok _ _ n (length (n_cfuncs n)) _ eq_refl).
  erewrite bind_Ok; [reflexivity|]. by apply addActivep_Ok with (s := sc).
Qed.

Lemma makeTopFunction_Ok name slow n sc :
  n_scopes n !! n_topScope n = Some sc ->
  makeTopFunction name slow n
  = Ok (length (n_cfuncs n),
        set_scopes (alter (sc_addActivep (BCFunc (length (n_cfuncs n)))) (n_topScope n))
          (set_cfuncs (fun l => l ++ [mkCFunc name (n_topScope n) [] [] true false true slow
                                        false true true EmptyString]) n)).
Proof.
  intros Hs. unfold makeTopFunction.
  rewrite (bind_Ok _ _ _ _ _ (makeSubFunction_Ok name slow n sc Hs)).
  erewrite bind_Ok; [|reflexivity]. unfold mret, M_ret. do 2 f_equal.
  destruct n; unfold set_cfuncs, set_scopes; simpl. f_equal.
  by rewrite alter_app_last.
Qed.

(** The statements [createEval] puts after the ico loop: the NBA eval loop,
    whose trigger step clears the NBA trigger vector and runs the Active
    eval loop, and whose body calls the NBA function; the body of the Active
    loop computes the pre triggers, latches the act triggers under the NBA
    triggers and calls the act function, in this order. *)
Definition nestedLoops (n : AstNetlist) (base : nat) (actTrig : TriggerKit)
    (preTrigsp nbaTrigsp : nat) (nbaDumpp actFuncp nbaFuncp : nat) : list AstNode :=
  evalLoop v3Global n "NBA" (base + 2) (base + 3) nbaTrigsp nbaDumpp
    (clearCall nbaTrigsp
     :: evalLoop v3Global n "Active" base (base + 1) (m_vscp actTrig) (m_dumpp actTrig)
          [AstCCall (m_funcp actTrig)]
          [andNotCall preTrigsp (m_vscp actTrig) nbaTrigsp;
           setCall nbaTrigsp (m_vscp actTrig);
           AstCCall actFuncp])
    [AstCCall nbaFuncp].

Lemma createEval_Ok icoLoop actTrig preTrigsp nbaTrigsp actFuncp nbaFuncp n sc actDump va vn :
  n_scopes n !! n_topScope n = Some sc ->
  n_cfuncs n !! m_dumpp actTrig = Some actDump ->
  forallb allRefsReadOnly (cf_stmtsp actDump ++ cf_finalsp actDump) = true ->
  n_varScopes n !! m_vscp actTrig = Some va -> isTriggerVec (vsc_dtypep va) = true ->
  n_varScopes n !! nbaTrigsp = Some vn -> isTriggerVec (vsc_dtypep vn) = true ->
  exists n',
    createEval v3Global icoLoop actTrig preTrigsp nbaTrigsp actFuncp nbaFuncp n = Ok (tt, n') /\
    n_evalp n' = Some (length (n_cfuncs n)) /\
    n_cfuncs n' !! length (n_cfuncs n)
    = Some (mkCFunc "_eval" (n_topScope n)
              (icoLoop ++ nestedLoops n (length (n_varScopes n)) actTrig preTrigsp nbaTrigsp
                            (S (length (n_cfuncs n))) actFuncp nbaFuncp)
              [] true false true false false true true EmptyString).
Proof.
  intros Hs Hd Hro Hva Htva Hvn Htvn. unfold createEval.
  rewrite (bind_Ok _ _ _ _ _ (makeTopFunction_Ok "_eval" false n sc Hs)).
  set (funcp := length (n_cfuncs n)).
  set (f0 := mkCFunc "_eval" (n_topScope n) [] [] true false true false false true true
               EmptyString).
  set (n1 := set_scopes _ _).
  rewrite (bind_Ok _ _ n1 tt (set_evalp (Some funcp) n1) eq_refl).
  set (n2 := set_evalp (Some funcp) n1).
  assert (Hlt : (m_dumpp actTrig < funcp)%nat) by (eapply lookup_lt_Some; eauto).
  assert (Hf2 : n_cfuncs n2 !! funcp = Some f0).
  { unfold n2, n1; simpl. by rewrite list_lookup_middle. }
  set (n3 := set_cfuncs (alter (cf_addStmtsp icoLoop) funcp) n2).
  assert (Hico : (match icoLoop with [] => mret () | _ => addStmtsp funcp icoLoop end) n2
                 = Ok (tt, n3)).
  { destruct icoLoop as [|i ico].
    - unfold mret, M_ret, n3. do 2 f_equal.
      destruct n2; unfold set_cfuncs; simpl. f_equal. by rewrite alter_addStmtsp_nil.
    - by apply addStmtsp_Ok with (f := f0). }
  rewrite (bind_Ok _ _ _ _ _ Hico).
  assert (Hd3 : n_cfuncs n3 !! m_dumpp actTrig = Some actDump).
  { unfold n3, n2, n1; simpl. rewrite list_lookup_alter_ne by lia.
    by rewrite lookup_app_l by done. }
  rewrite (bind_Ok _ _ _ _ _ (getCFunc_Ok _ _ _ Hd3)).
  assert (Hlen3 : length (n_cfuncs n3) = S funcp).
  { unfold n3, n2, n1; simpl. rewrite length_alter, length_app. simpl. lia. }
  rewrite (bind_Ok _ _ n3 (S funcp) (set_cfuncs (fun l => l ++ [actDump]) n3)).
  2:{ unfold newCFunc. by rewrite Hlen3. }
  erewrite bind_Ok; [|reflexivity]. erewrite bind_Ok; [|reflexivity].
  rewrite Hro. erewrite bind_Ok; [|reflexivity]. erewrite bind_Ok; [|reflexivity].
  set (n7 := set_cfuncs _ (set_cfuncs _ (set_scopes _ (set_cfuncs _ n3)))).
  assert (Hvars7 : n_varScopes n7 = n_varScopes n) by reflexivity.
  assert (Hfl7 : n_topModuleFileline n7 = n_topModuleFileline n) by reflexivity.
  assert (Htop7 : n_topScope n7 = n_topScope n) by reflexivity.
  set (n8 := set_varScopes (fun l => l ++ loopVars n7 "act") n7).
  erewrite bind_Ok.
  2:{ eapply makeEvalLoop_Ok with (trigVsc := va) (n3 := n8) (n4 := n8);
        [by rewrite Hvars7|done|reflexivity| |reflexivity].
      unfold n8, loopVars; simpl. rewrite (lookup_app_r _ _ (S _)) by lia.
      replace (S (length (n_varScopes n)) - length (n_varScopes n))%nat with 1%nat by lia.
      done. }
  cbv beta iota. rewrite Hvars7.
  set (n9 := set_varScopes (fun l => l ++ loopVars n8 "nba") n8).
  assert (Hlen8 : length (n_varScopes n8) = (length (n_varScopes n) + 2)%nat).
  { unfold n8; simpl. rewrite length_app. simpl. lia. }
  erewrite bind_Ok.
  2:{ eapply makeEvalLoop_Ok with (trigVsc := vn) (n3 := n9) (n4 := n9);
        [|done|reflexivity| |reflexivity].
      - unfold n8; simpl. by rewrite lookup_app_l by (eapply lookup_lt_Some; eauto).
      - unfold n9, loopVars. cbn [n_varScopes set_varScopes].
        rewrite (lookup_app_r _ _ (S _)) by lia.
        replace (S (length (n_varScopes n8)) - length (n_varScopes n8))%nat with 1%nat by lia.
        done. }
  cbv beta iota. rewrite Hlen8.
  assert (Hf9 : n_cfuncs n9 !! funcp = Some (cf_addStmtsp icoLoop f0)).
  { unfold n9, n8, n7, n3. cbn [n_cfuncs set_cfuncs set_varScopes set_scopes].
    rewrite !list_lookup_alter_ne by lia.
    rewrite lookup_app_l by (rewrite length_alter; unfold n2, n1; simpl; rewrite length_app; simpl; lia).
    by rewrite list_lookup_alter_eq, Hf2. }
  erewrite addStmtsp_Ok by exact Hf9.
  eexists. split; [reflexivity|]. split; [reflexivity|].
  cbn [n_cfuncs set_cfuncs]. rewrite list_lookup_alter_eq, Hf9. simpl. f_equal.
  unfold cf_addStmtsp, f0; simpl. f_equal. f_equal.
  unfold nestedLoops, evalLoop, divergenceCheck. rewrite Hfl7.
  replace (S (length (n_varScopes n) + 2)) with (length (n_varScopes n) + 3)%nat by lia.
  replace (S (length (n_varScopes n))) with (length (n_varScopes n) + 1)%nat by lia.
  reflexivity.
Qed.

(** C1: in the [_eval] function [createEval] makes, after the ico loop comes
    the NBA eval loop: its trigger step first clears the NBA trigger vector
    and then runs the whole Active eval loop, and its body is the call of the
    NBA function.  The body of the Active loop is, in this order, [preTrig :=
    actTrig andNot nbaTrig], [nbaTrig := nbaTrig set actTrig] and the call
    of the act function. *)
Theorem createEval_nested_loops icoLoop actTrig preTrigsp nbaTrigsp actFuncp nbaFuncp
    n sc actDump va vn :
  n_scopes n !! n_topScope n = Some sc ->
  n_cfuncs n !! m_dumpp actTrig = Some actDump ->
  forallb allRefsReadOnly (cf_stmtsp actDump ++ cf_finalsp actDump) = true ->
  n_varScopes n !! m_vscp actTrig = Some va -> isTriggerVec (vsc_dtypep va) = true ->
  n_varScopes n !! nbaTrigsp = Some vn -> isTriggerVec (vsc_dtypep vn) = true ->
  let funcp := length (n_cfuncs n) in
  let nbaDumpp := S funcp in
  let base := length (n_varScopes n) in
  let actTrigsp := m_vscp actTrig in
  let actBody :=
    [ AstCMethodHard (AstVarRef preTrigsp WRITE) "andNot"
        [AstVarRef actTrigsp READ; AstVarRef nbaTrigsp READ] None true false;
      AstCMethodHard (AstVarRef nbaTrigsp WRITE) "set" [AstVarRef actTrigsp READ]
        None true false;
      AstCCall actFuncp ] in
  let activeEvalLoop :=
    evalLoop v3Global n "Active" base (base + 1) actTrigsp (m_dumpp actTrig)
      [AstCCall (m_funcp actTrig)] actBody in
  let nbaTrigger :=
    AstCMethodHard (AstVarRef nbaTrigsp WRITE) "clear" [] None true false
    :: activeEvalLoop in
  let nbaBody := [AstCCall nbaFuncp] in
  exists n' f,
    createEval v3Global icoLoop actTrig preTrigsp nbaTrigsp actFuncp nbaFuncp n = Ok (tt, n') /\
    n_evalp n' = Some funcp /\
    n_cfuncs n' !! funcp = Some f /\
    cf_name f = "_eval" /\
    cf_stmtsp f
    = icoLoop ++ evalLoop v3Global n "NBA" (base + 2) (base + 3) nbaTrigsp nbaDumpp
                   nbaTrigger nbaBody /\
    (exists head check,
       activeEvalLoop
       = head ++ [AstWhile (AstVarRef (base + 1)%nat READ)
                    (assignVar (base + 1) 1 0
                     :: [AstCCall (m_funcp actTrig)]
                     ++ [AstIf (AstCMethodHard (AstVarRef actTrigsp READ) "any" []
                                  (Some (bitDType 1)) false false)
                           (check ++ actBody) [] BP_UNKNOWN])]).
Proof.
  intros Hs Hd Hro Hva Htva Hvn Htvn. cbv zeta.
  destruct (createEval_Ok icoLoop actTrig preTrigsp nbaTrigsp actFuncp nbaFuncp n sc actDump
              va vn Hs Hd Hro Hva Htva Hvn Htvn) as (n' & Hrun & Hev & Hf).
  eexists n', _. split; [exact Hrun|]. split; [exact Hev|]. split; [exact Hf|].
  split; [done|]. split; [done|].
  eexists [_; _], [_; _; _]. reflexivity.
Qed.

End EvalFacts.

(** ** SenExprBuilder *)

Section BuilderFacts.
Context {Q : AstQueries}.
Variable v3Global : V3Global.

(** The initializer and the update of the shadow [v] of expression [e]. *)
Definition shadowAssign (e : AstNode) (v : nat) : AstNode :=
  AstAssign (AstVarRef v WRITE) e.

(** The netlist after a shadow named [name] was made for [e]. *)
Definition withShadow (b : SenExprBuilder) (name : string) (e : AstNode) (n : AstNetlist)
    : AstNetlist :=
  set_cfuncs (alter (cf_addStmtsp [shadowAssign e (length (n_varScopes n))]) (m_initp b))
    (set_varScopes (fun l => l ++ [mkVarScope name (m_scopeTopp b) (dtypep e)]) n).

(** The name [getPrev] gives the shadow of [e]: the scoped signal name when
    [e] is a plain variable reference, the next name of the generator
    otherwise. *)
Definition shadowNamed (n : AstNetlist) (u : V3UniqueNames) (e : AstNode) (name : string)
    (u' : V3UniqueNames) : Prop :=
  match e with
  | AstVarRef x _ =>
      u' = u /\
      exists vsc sc, n_varScopes n !! x = Some vsc /\ n_scopes n !! vsc_scopep vsc = Some sc /\
        name = "__Vtrigrprev__" +:+ sc_nameDotless sc +:+ "__" +:+ vsc_name vsc
  | _ => (name, u') = uniqueNames_get u e
  end.

(** The variables [vs] are the shadows of the expressions [es], made in
    this order with the generator going from [u] to [u']. *)
Fixpoint shadowsOf (n : AstNetlist) (top : nat) (u : V3UniqueNames) (es : list AstNode)
    (vs : list AstVarScope) (u' : V3UniqueNames) : Prop :=
  match es, vs with
  | [], [] => u' = u
  | e :: es, v :: vs =>
      vsc_scopep v = top /\ vsc_dtypep v = dtypep e /\
      exists u1, shadowNamed n u e (vsc_name v) u1 /\ shadowsOf n top u1 es vs u'
  | _, _ => False
  end.

Lemma shadowNamed_mono n n' u e name u' :
  n_scopes n' = n_scopes n -> (exists vs, n_varScopes n' = n_varScopes n ++ vs) ->
  shadowNamed n u e name u' -> shadowNamed n' u e name u'.
Proof.
  intros Hs [vs Hv]. destruct e; try done. simpl.
  intros (-> & vsc & sc & H1 & H2 & ->). split; [done|]. exists vsc, sc.
  rewrite Hs, Hv. split_and!; auto. by apply lookup_app_l_Some.
Qed.

Lemma shadowsOf_mono n n' top u es vs u' :
  n_scopes n' = n_scopes n -> (exists ws, n_varScopes n' = n_varScopes n ++ ws) ->
  shadowsOf n top u es vs u' -> shadowsOf n' top u es vs u'.
Proof.
  intros Hs Hv. revert u vs. induction es as [|e es IH]; intros u [|v vs]; simpl; try done.
  intros (? & ? & u1 & ? & ?). split_and!; auto. exists u1. eauto using shadowNamed_mono.
Qed.

Lemma shadowsOf_app n top u es1 vs1 u1 es2 vs2 u2 :
  shadowsOf n top u es1 vs1 u1 -> shadowsOf n top u1 es2 vs2 u2 ->
  shadowsOf n top u (es1 ++ es2) (vs1 ++ vs2) u2.
Proof.
  revert u vs1. induction es1 as [|e es IH]; intros u [|v vs]; simpl; try done.
  - by intros ->.
  - intros (? & ? & u' & ? & ?) Hrest. split_and!; auto. exists u'. eauto.
Qed.

Lemma shadowsOf_length n top u es vs u' : shadowsOf n top u es vs u' -> length vs = length es.
Proof.
  revert u vs. induction es as [|e es IH]; intros u [|v vs]; simpl; try done.
  intros (_ & _ & u1 & _ & H). f_equal. eauto.
Qed.

Lemma shadowsOf_scope n top u es vs u' :
  shadowsOf n top u es vs u' -> Forall (fun v => vsc_scopep v = top) vs.
Proof.
  revert u vs. induction es as [|e es IH]; intros u [|v vs]; simpl; try done.
  intros (? & _ & u1 & _ & H). constructor; eauto.
Qed.

(** What one call of [getPrev] does. *)
Lemma getPrev_inv b e n v b' n' :
  getPrev b e n = Ok ((v, b'), n') ->
  m_initp b' = m_initp b /\ m_scopeTopp b' = m_scopeTopp b /\
  prev_find e (m_prev b') = Some v /\
  ((prev_find e (m_prev b) = Some v /\ n' = n /\ m_prev b' = m_prev b /\
    m_uniqueNames b' = m_uniqueNames b) \/
   (prev_find e (m_prev b) = None /\ v = length (n_varScopes n) /\
    is_Some (n_cfuncs n !! m_initp b) /\
    m_prev b' = m_prev b ++ [(e, v)] /\
    exists name, shadowNamed n (m_uniqueNames b) e name (m_uniqueNames b') /\
      n' = withShadow b name e n)) /\
  ((e ∈ m_hasUpdate b /\ m_hasUpdate b' = m_hasUpdate b /\ m_updates b' = m_updates b) \/
   ((e ∉ m_hasUpdate b) /\ m_hasUpdate b' = e :: m_hasUpdate b /\
    m_updates b' = m_updates b ++ [shadowAssign e v])).
Proof.
  unfold getPrev. intros H.
  apply bind_Ok_inv in H as ([v1 b1] & n1 & H1 & H2).
  assert (Hupd : (e ∈ m_hasUpdate b1 /\ (v, b', n') = (v1, b1, n1)) \/
                 ((e ∉ m_hasUpdate b1) /\ v = v1 /\ n' = n1 /\
                  b' = b_setUpdates (m_updates b1 ++ [shadowAssign e v1])
                         (b_setHasUpdate (e :: m_hasUpdate b1) b1))).
  { case_bool_decide as Hin; injection H2 as <- <- <-; [by left|by right]. }
  assert (Hfind : forall pv x, prev_find e pv = None -> prev_find e (pv ++ [(e, x)]) = Some x).
  { clear. induction pv as [|[k w] pv IH]; simpl; intros x Hn.
    - by rewrite decide_True.
    - destruct (decide (k = e)); [done|]. by apply IH. }
  assert (Hmain :
    m_initp b1 = m_initp b /\ m_scopeTopp b1 = m_scopeTopp b /\
    m_hasUpdate b1 = m_hasUpdate b /\ m_updates b1 = m_updates b /\
    prev_find e (m_prev b1) = Some v1 /\
    ((prev_find e (m_prev b) = Some v1 /\ n1 = n /\ m_prev b1 = m_prev b /\
      m_uniqueNames b1 = m_uniqueNames b) \/
     (prev_find e (m_prev b) = None /\ v1 = length (n_varScopes n) /\
      is_Some (n_cfuncs n !! m_initp b) /\
      m_prev b1 = m_prev b ++ [(e, v1)] /\
      exists name, shadowNamed n (m_uniqueNames b) e name (m_uniqueNames b1) /\
        n1 = withShadow b name e n))).
  { destruct (prev_find e (m_prev b)) as [pv|] eqn:Hpf.
    - injection H1 as <- <- <-. split_and!; auto.
    - apply bind_Ok_inv in H1 as ([name b2] & n2 & Hname & H1).
      assert (n2 = n /\ m_initp b2 = m_initp b /\ m_scopeTopp b2 = m_scopeTopp b /\
              m_prev b2 = m_prev b /\ m_hasUpdate b2 = m_hasUpdate b /\
              m_updates b2 = m_updates b /\
              shadowNamed n (m_uniqueNames b) e name (m_uniqueNames b2))
        as (-> & Hi & Ht & Hp & Hh & Hu & Hnm).
      { destruct e;
          try (simpl; destruct (uniqueNames_get _ _) as [nm u]; by injection Hname as <- <- <-).
        apply bind_Ok_inv in Hname as (vsc & n3 & [Hvsc ->]%deref_inv & Hname).
        apply bind_Ok_inv in Hname as (sc & n4 & [Hsc ->]%deref_inv & Hname).
        injection Hname as <- <- <-. split_and!; auto. simpl. split; [done|].
        by exists vsc, sc. }
      apply bind_Ok_inv in H1 as (pv & n3 & Hct & H1).
      unfold createTemp in Hct. injection Hct as <- <-.
      apply bind_Ok_inv in H1 as ([] & n4 & Hadd & H1). injection H1 as <- <- <-.
      unfold addStmtsp in Hadd.
      apply bind_Ok_inv in Hadd as (f & n5 & [Hf ->]%deref_inv & Hadd).
      injection Hadd as <-. cbn [m_initp m_scopeTopp m_hasUpdate m_updates m_prev b_setPrev] in *.
      rewrite Hp. split_and!; auto.
      right. split_and!; auto.
      * cbn [n_cfuncs set_varScopes] in Hf. by rewrite Hi in Hf.
      * exists name. unfold withShadow. by rewrite Hi, Ht. }
  destruct Hmain as (Hi & Ht & Hh & Hu & Hpf & Hcase).
  destruct Hupd as [[Hin [= -> -> ->]]|(Hnin & -> & -> & ->)].
  - split_and!; auto. left. rewrite Hh, Hu in *. split_and!; auto.
  - cbn [m_initp m_scopeTopp m_hasUpdate m_updates m_prev b_setUpdates b_setHasUpdate].
    split_and!; auto. right. rewrite Hh in *. rewrite Hu. done.
Qed.

Lemma prev_find_None e pv : prev_find e pv = None <-> e ∉ pv.*1.
Proof.
  induction pv as [|[k w] pv IH]; simpl.
  - split; [intros _ H; by apply elem_of_nil in H|done].
  - destruct (decide (k = e)) as [->|Hne].
    + split; [done|]. intros H. exfalso. apply H. by left.
    + rewrite IH. rewrite not_elem_of_cons. naive_solver.
Qed.


Lemma prev_find_app e v pv new :
  prev_find e pv = Some v -> prev_find e (pv ++ new) = Some v.
Proof.
  induction pv as [|[k w] pv IH]; simpl; [done|]. destruct (decide (k = e)); auto.
Qed.

Lemma prev_find_NoDup e v pv : NoDup pv.*1 -> (e, v) ∈ pv -> prev_find e pv = Some v.
Proof.
  induction pv as [|[k w] pv IH]; simpl; intros Hnd Hin; [by apply elem_of_nil in Hin|].
  apply NoDup_cons in Hnd as [Hn Hnd].
  apply elem_of_cons in Hin as [[= <- <-]|Hin]; [by rewrite decide_True|].
  destruct (decide (k = e)) as [->|Hne]; [|auto].
  exfalso. apply Hn. apply list_elem_of_fmap. by exists (e, v).
Qed.

(** How the builder and the netlist grow from ([b], [n]) to ([b'], [n'])
    while the builder is used: the shadows [new] are made, each a new
    variable of the top scope with its initializer in the initialization
    function, and nothing else of the netlist changes. *)
Definition grows (b : SenExprBuilder) (n : AstNetlist) (b' : SenExprBuilder)
    (n' : AstNetlist) : Prop :=
  m_initp b' = m_initp b /\ m_scopeTopp b' = m_scopeTopp b /\
  exists new vs,
    m_prev b' = m_prev b ++ new /\
    new.*2 = seq (length (n_varScopes n)) (length new) /\
    NoDup new.*1 /\ (forall e, e ∈ new.*1 -> e ∉ (m_prev b).*1) /\
    shadowsOf n' (m_scopeTopp b) (m_uniqueNames b) new.*1 vs (m_uniqueNames b') /\
    (new <> [] -> is_Some (n_cfuncs n !! m_initp b)) /\
    n' = set_cfuncs (alter (cf_addStmtsp ((fun kv => shadowAssign kv.1 kv.2) <$> new))
                       (m_initp b))
           (set_varScopes (fun l => l ++ vs) n).

Lemma set_nothing n p :
  set_cfuncs (alter (cf_addStmtsp []) p) (set_varScopes (fun l => l ++ []) n) = n.
Proof.
  destruct n; unfold set_cfuncs, set_varScopes; cbn -[alter].
  by rewrite alter_addStmtsp_nil, app_nil_r.
Qed.

Lemma grows_refl b n : grows b n b n.
Proof.
  split; [done|]. split; [done|]. exists [], []. rewrite app_nil_r. split_and!; auto.
  - constructor.
  - intros e H. by apply elem_of_nil in H.
  - done.
  - done.
  - exact (eq_sym (set_nothing n _)).
Qed.

Lemma grows_netlist b n b' n' :
  grows b n b' n' ->
  n_scopes n' = n_scopes n /\ n_senTrees n' = n_senTrees n /\
  exists vs, n_varScopes n' = n_varScopes n ++ vs.
Proof.
  intros (_ & _ & new & vs & _ & _ & _ & _ & _ & _ & ->). split_and!; [done..|]. by exists vs.
Qed.

Lemma grows_trans b n b1 n1 b2 n2 : grows b n b1 n1 -> grows b1 n1 b2 n2 -> grows b n b2 n2.
Proof.
  intros G1 G2. pose proof (grows_netlist _ _ _ _ G2) as (Hsc & _ & Hvs).
  destruct G1 as (Hi1 & Ht1 & new1 & vs1 & Hp1 & Hs1 & Hnd1 & Hd1 & Hv1 & Hf1 & Hn1).
  destruct G2 as (Hi2 & Ht2 & new2 & vs2 & Hp2 & Hs2 & Hnd2 & Hd2 & Hv2 & Hf2 & Hn2).
  split; [congruence|]. split; [congruence|].
  exists (new1 ++ new2), (vs1 ++ vs2). split_and!.
  - by rewrite Hp2, Hp1, app_assoc.
  - rewrite fmap_app, length_app, seq_app, Hs1, Hs2. f_equal. f_equal.
    rewrite Hn1. cbn [n_varScopes set_cfuncs set_varScopes].
    rewrite length_app, (shadowsOf_length _ _ _ _ _ _ Hv1), length_fmap. lia.
  - rewrite fmap_app. apply NoDup_app. split_and!; auto.
    intros e He1 He2. apply (Hd2 e He2). rewrite Hp1, fmap_app. apply elem_of_app. by right.
  - intros e. rewrite fmap_app. intros [He|He]%elem_of_app; [by apply Hd1|].
    intros Hb. apply (Hd2 e He). rewrite Hp1, fmap_app. apply elem_of_app. by left.
  - rewrite fmap_app. eapply shadowsOf_app.
    + eapply shadowsOf_mono; [exact Hsc|exact Hvs|exact Hv1].
    + by rewrite <- Ht1.
  - intros Hne. destruct new1 as [|x new1]; [|by apply Hf1].
    simpl in *. destruct Hf2 as [f Hf]; [done|]. subst n1.
    cbn [n_cfuncs set_cfuncs set_varScopes] in Hf. rewrite Hi1 in Hf.
    rewrite list_lookup_alter in Hf. case_decide; [|by eauto].
    destruct (n_cfuncs n !! m_initp b); [eauto|done].
  - rewrite Hn2, Hn1, Hi1. destruct n; unfold set_cfuncs, set_varScopes; simpl. f_equal.
    + by rewrite app_assoc.
    + rewrite list_alter_alter_eq. apply list_alter_ext; [|done].
      intros f _. destruct f; unfold cf_addStmtsp; simpl. by rewrite fmap_app, app_assoc.
Qed.

Lemma getPrev_grows b e n v b' n' :
  getPrev b e n = Ok ((v, b'), n') -> grows b n b' n'.
Proof.
  intros H. apply getPrev_inv in H as (Hi & Ht & Hpf & Hcase & _).
  destruct Hcase as [(_ & -> & Hp & Hu)|(Hnone & -> & Hf & Hp & name & Hnm & ->)].
  - split; [done|]. split; [done|]. exists [], []. rewrite app_nil_r. split_and!; auto.
    + constructor.
    + intros e' He. by apply elem_of_nil in He.
    + done.
    + exact (eq_sym (set_nothing n _)).
  - split; [done|]. split; [done|].
    exists [(e, length (n_varScopes n))], [mkVarScope name (m_scopeTopp b) (dtypep e)].
    split_and!; auto.
    + apply NoDup_singleton.
    + intros e' ->%list_elem_of_singleton. by apply prev_find_None.
    + simpl. split_and!; auto. exists (m_uniqueNames b'). split; [|done].
      eapply shadowNamed_mono; [| |exact Hnm]; [done|].
      by exists [mkVarScope name (m_scopeTopp b) (dtypep e)].
Qed.

(** The translation of one sensitivity term as the specification tables
    it, [shadow] giving the previous-value variable of a sensed expression;
    [None] is the null term. *)
Definition termOf (shadow : AstNode -> option nat) (item : AstSenItem) : option AstNode :=
  let curr := sensp item in
  let prev := fun v => AstVarRef v READ in
  match edgeType item with
  | ET_CHANGED | ET_HYBRID => (fun v => AstNeq curr (prev v)) <$> shadow curr
  | ET_BOTHEDGE => (fun v => AstSel (AstXor curr (prev v)) 0 1) <$> shadow curr
  | ET_POSEDGE => (fun v => AstSel (AstAnd curr (AstNot (prev v))) 0 1) <$> shadow curr
  | ET_NEGEDGE => (fun v => AstSel (AstAnd (AstNot curr) (prev v)) 0 1) <$> shadow curr
  | ET_EVENT => Some (AstCMethodHard curr "isFired" [] (Some (bitDType 1)) false false)
  | _ => None
  end.

(** The kinds that fire at the first evaluation. *)
Definition firesFirst (item : AstSenItem) : bool :=
  match edgeType item with ET_CHANGED | ET_HYBRID => true | _ => false end.

(** The kinds whose term reads the previous value. *)
Definition needsPrev (item : AstSenItem) : bool :=
  match edgeType item with
  | ET_CHANGED | ET_HYBRID | ET_BOTHEDGE | ET_POSEDGE | ET_NEGEDGE => true
  | _ => false
  end.

(** The kinds [createTerm] translates. *)
Definition translated (item : AstSenItem) : bool :=
  match edgeType item with
  | ET_ILLEGAL | ET_CHANGED | ET_HYBRID | ET_BOTHEDGE | ET_POSEDGE | ET_NEGEDGE => true
  | ET_EVENT => hasEvents v3Global
  | _ => false
  end.

(** The terms ORed from the left, onto [acc] when there is one. *)
Definition orTerms (acc : option AstNode) (ts : list AstNode) : option AstNode :=
  foldl (fun acc t => Some (match acc with Some r => AstOr r t | None => t end)) acc ts.

(** [stmt] is an assignment of [e] to a variable: the form of the
    initializer and of the update of the shadow of [e]. *)
Definition assignsFrom (e : AstNode) (stmt : AstNode) : bool :=
  match stmt with
  | AstAssign (AstVarRef _ WRITE) rhs => bool_decide (rhs = e)
  | _ => false
  end.

Definition countAssigns (e : AstNode) (l : list AstNode) : nat :=
  length (filter (fun s => assignsFrom e s = true) l).

(** The per-round bookkeeping: the accumulator holds one update for each
    expression of the dedup set and none for any other. *)
Definition updatesOk (b : SenExprBuilder) : Prop :=
  NoDup (m_hasUpdate b) /\
  forall e, countAssigns e (m_updates b) = if decide (e ∈ m_hasUpdate b) then 1%nat else 0%nat.

Lemma countAssigns_app e l1 l2 :
  countAssigns e (l1 ++ l2) = (countAssigns e l1 + countAssigns e l2)%nat.
Proof. unfold countAssigns. by rewrite filter_app, length_app. Qed.

Lemma countAssigns_shadow e e' v :
  countAssigns e [shadowAssign e' v] = if decide (e' = e) then 1%nat else 0%nat.
Proof.
  unfold countAssigns, shadowAssign. rewrite filter_cons. simpl.
  case_bool_decide; repeat case_decide; simplify_eq; done.
Qed.

Lemma getPrev_updatesOk b e n v b' n' :
  getPrev b e n = Ok ((v, b'), n') -> updatesOk b -> updatesOk b'.
Proof.
  intros H [Hnd Hc]. apply getPrev_inv in H as (_ & _ & _ & _ & Hupd).
  destruct Hupd as [(Hin & Hh & Hu)|(Hnin & Hh & Hu)].
  - split; [by rewrite Hh|]. intros e'. by rewrite Hu, Hh.
  - split; [rewrite Hh; by apply NoDup_cons|].
    intros e'. rewrite Hu, Hh, countAssigns_app, countAssigns_shadow, Hc.
    repeat case_decide; simplify_eq; try done; set_solver.
Qed.

Lemma getPrev_keys b e n v b' n' :
  getPrev b e n = Ok ((v, b'), n') ->
  forall e', e' ∈ (m_prev b').*1 -> e' ∈ (m_prev b).*1 \/ e' = e.
Proof.
  intros H e'. apply getPrev_inv in H as (_ & _ & _ & Hcase & _).
  destruct Hcase as [(_ & _ & -> & _)|(_ & _ & _ & -> & _)]; [by left|].
  rewrite fmap_app. intros [?|?%list_elem_of_singleton]%elem_of_app; auto.
Qed.

Lemma createTerm_inv b item n t fire b' n' :
  createTerm v3Global b item n = Ok ((t, fire), b', n') ->
  grows b n b' n' /\ (updatesOk b -> updatesOk b') /\
  translated item = true /\
  t = termOf (fun e => prev_find e (m_prev b')) item /\
  fire = firesFirst item /\
  (needsPrev item = true -> is_Some (prev_find (sensp item) (m_prev b'))) /\
  (forall e v, prev_find e (m_prev b) = Some v -> prev_find e (m_prev b') = Some v) /\
  (forall e, e ∈ (m_prev b').*1 ->
     e ∈ (m_prev b).*1 \/ (needsPrev item = true /\ e = sensp item)).
Proof.
  unfold createTerm, termOf, firesFirst, needsPrev, translated. intros H.
  assert (Hkeep : forall b1 n1, grows b n b1 n1 ->
            forall e v, prev_find e (m_prev b) = Some v -> prev_find e (m_prev b1) = Some v).
  { intros b1 n1 (_ & _ & new & vs & -> & _) e v Hf. by apply prev_find_app. }
  destruct (edgeType item) eqn:He; try done.
  - injection H as <- <- <- <-. split_and!; auto using grows_refl. done.
  - apply bind_Ok_inv in H as ([v b1] & n1 & Hg & H). injection H as <- <- <- <-.
    pose proof (getPrev_inv _ _ _ _ _ _ Hg) as (_ & _ & Hpf & _).
    split_and!; eauto using getPrev_grows, getPrev_updatesOk.
    + by rewrite Hpf.
    + intros e [?|?]%(getPrev_keys _ _ _ _ _ _ Hg); auto.
  - apply bind_Ok_inv in H as ([v b1] & n1 & Hg & H). injection H as <- <- <- <-.
    pose proof (getPrev_inv _ _ _ _ _ _ Hg) as (_ & _ & Hpf & _).
    split_and!; eauto using getPrev_grows, getPrev_updatesOk.
    + by rewrite Hpf.
    + intros e [?|?]%(getPrev_keys _ _ _ _ _ _ Hg); auto.
  - apply bind_Ok_inv in H as ([v b1] & n1 & Hg & H). injection H as <- <- <- <-.
    pose proof (getPrev_inv _ _ _ _ _ _ Hg) as (_ & _ & Hpf & _).
    split_and!; eauto using getPrev_grows, getPrev_updatesOk.
    + by rewrite Hpf.
    + intros e [?|?]%(getPrev_keys _ _ _ _ _ _ Hg); auto.
  - apply bind_Ok_inv in H as ([v b1] & n1 & Hg & H). injection H as <- <- <- <-.
    pose proof (getPrev_inv _ _ _ _ _ _ Hg) as (_ & _ & Hpf & _).
    split_and!; eauto using getPrev_grows, getPrev_updatesOk.
    + by rewrite Hpf.
    + intros e [?|?]%(getPrev_keys _ _ _ _ _ _ Hg); auto.
  - apply bind_Ok_inv in H as ([] & n1 & [Hev ->]%UASSERT_inv & H).
    injection H as <- <- <- <-. split_and!; auto; [| |done].
    + destruct (grows_refl b n) as (? & ? & new & vs & ?). split; [done|]. split; [done|].
      by exists new, vs.
    + intros [Hnd Hc]. split; [done|]. intros e. cbn [m_updates m_hasUpdate b_setUpdates].
      rewrite countAssigns_app, Hc. unfold countAssigns. simpl. lia.
  - apply bind_Ok_inv in H as ([v b1] & n1 & Hg & H). injection H as <- <- <- <-.
    pose proof (getPrev_inv _ _ _ _ _ _ Hg) as (_ & _ & Hpf & _).
    split_and!; eauto using getPrev_grows, getPrev_updatesOk.
    + by rewrite Hpf.
    + intros e [?|?]%(getPrev_keys _ _ _ _ _ _ Hg); auto.
Qed.

Lemma termOf_stable sh1 sh2 item :
  (needsPrev item = true -> is_Some (sh1 (sensp item))) ->
  (forall e v, sh1 e = Some v -> sh2 e = Some v) ->
  termOf sh1 item = termOf sh2 item.
Proof.
  unfold termOf, needsPrev. intros Hs Hk.
  destruct (edgeType item); try done;
    destruct Hs as [v Hv]; try done; by rewrite Hv, (Hk _ _ Hv).
Qed.

Lemma grows_keep b n b' n' :
  grows b n b' n' ->
  forall e v, prev_find e (m_prev b) = Some v -> prev_find e (m_prev b') = Some v.
Proof. intros (_ & _ & new & vs & -> & _) e v Hf. by apply prev_find_app. Qed.

Lemma build_items_inv items : forall b acc f0 n r fired b' n',
  build_items v3Global b items acc f0 n = Ok ((r, fired), b', n') ->
  grows b n b' n' /\ (updatesOk b -> updatesOk b') /\
  forallb translated items = true /\
  r = orTerms acc (omap (termOf (fun e => prev_find e (m_prev b'))) items) /\
  fired = f0 || existsb firesFirst items /\
  (forall item, item ∈ items -> needsPrev item = true ->
     is_Some (prev_find (sensp item) (m_prev b'))) /\
  (forall e, e ∈ (m_prev b').*1 ->
     e ∈ (m_prev b).*1 \/
     exists item, item ∈ items /\ needsPrev item = true /\ e = sensp item).
Proof.
  induction items as [|item items IH]; intros b acc f0 n r fired b' n' H.
  - injection H as <- <- <- <-. split_and!; auto using grows_refl.
    + by rewrite orb_false_r.
    + intros item Hin. by apply elem_of_nil in Hin.
  - simpl in H. apply bind_Ok_inv in H as ([[t fire] b1] & n1 & Hct & H).
    apply createTerm_inv in Hct as (G1 & U1 & T1 & Ht & Hfire & Hs1 & K1 & Hk1).
    assert (Hrest : exists acc' f', build_items v3Global b1 items acc' f' n1 = Ok (r, fired, b', n') /\
              acc' = orTerms acc (from_option (fun x => [x]) [] t) /\ f' = f0 || fire).
    { destruct t as [t|]; simpl in H; eauto.
      exists acc, f0. split_and!; auto. subst fire. unfold termOf, firesFirst, needsPrev in *.
      destruct (edgeType item); try (by rewrite orb_false_r);
        destruct Hs1 as [v Hv]; try done; by rewrite Hv in Ht. }
    destruct Hrest as (acc' & f' & Hb & -> & ->).
    apply IH in Hb as (G2 & U2 & T2 & Hr & Hf & Hs2 & Hk2).
    pose proof (grows_keep _ _ _ _ G2) as K2.
    assert (Hterm : termOf (fun e => prev_find e (m_prev b')) item = t).
    { subst t. symmetry. by apply termOf_stable. }
    split_and!; eauto using grows_trans.
    + simpl. by rewrite T1, T2.
    + rewrite Hr. cbn [omap list_omap]. rewrite Hterm. by destruct t.
    + rewrite Hf, Hfire. simpl. by rewrite orb_assoc.
    + intros it [->|Hin]%elem_of_cons Hn; [|by apply Hs2].
      destruct (Hs1 Hn) as [v Hv]. exists v. by apply K2.
    + intros e [He|(it & Hin & Hn & ->)]%Hk2.
      * destruct (Hk1 _ He) as [?|[? ->]]; [by left|]. right. exists item. split_and!; auto. by left.
      * right. exists it. split_and!; auto. by right.
Qed.

(** The sensed expression can be named: a referenced variable and its
    scope exist. *)
Definition sensOk (n : AstNetlist) (e : AstNode) : Prop :=
  match e with
  | AstVarRef x _ =>
      exists vsc, n_varScopes n !! x = Some vsc /\ is_Some (n_scopes n !! vsc_scopep vsc)
  | _ => True
  end.

Lemma sensOk_mono n n' e :
  n_scopes n' = n_scopes n -> (exists vs, n_varScopes n' = n_varScopes n ++ vs) ->
  sensOk n e -> sensOk n' e.
Proof.
  intros Hs [vs Hv]. destruct e; try done. simpl. intros (vsc & H1 & H2).
  exists vsc. rewrite Hs, Hv. split; [|done]. by apply lookup_app_l_Some.
Qed.

Lemma getPrev_total b e n :
  is_Some (n_cfuncs n !! m_initp b) -> sensOk n e ->
  exists r n', getPrev b e n = Ok (r, n').
Proof.
  intros [f Hf] Hs. unfold getPrev.
  destruct (prev_find e (m_prev b)) as [pv|].
  - rewrite (bind_Ok _ _ n (pv, b) n) by done. case_bool_decide; eauto.
  - assert (exists nm b2, m_initp b2 = m_initp b /\
      (match e with
       | AstVarRef vscp _ =>
           vsc ← getVarScope vscp;
           sc ← getScope (vsc_scopep vsc);
           mret ("__Vtrigrprev__" +:+ sc_nameDotless sc +:+ "__" +:+ vsc_name vsc, b)
       | _ => let '(name, u) := uniqueNames_get (m_uniqueNames b) e in
              mret (name, b_setUniqueNames u b)
       end : M AstNetlist (string * SenExprBuilder)) n = Ok ((nm, b2), n))
      as (nm & b2 & Hi & Hname).
    { destruct e; try (destruct (uniqueNames_get _ _) as [nm u];
                         by exists nm, (b_setUniqueNames u b)).
      destruct Hs as (vsc & Hv & [sc Hsc]).
      rewrite (bind_Ok _ _ _ _ _ (getVarScope_Ok _ _ _ Hv)).
      rewrite (bind_Ok _ _ _ _ _ (getScope_Ok _ _ _ Hsc)). by eexists _, b. }
    erewrite bind_Ok; [|erewrite bind_Ok; [|exact Hname]; cbn beta iota;
      erewrite bind_Ok; [|reflexivity]; cbn beta iota;
      erewrite bind_Ok; [reflexivity|]; apply addStmtsp_Ok with (f := f);
      cbn [m_initp b_setPrev n_cfuncs set_varScopes]; by rewrite Hi].
    cbn beta iota. case_bool_decide; eauto.
Qed.

Lemma createTerm_total b item n :
  is_Some (n_cfuncs n !! m_initp b) -> translated item = true -> sensOk n (sensp item) ->
  exists r n', createTerm v3Global b item n = Ok (r, n').
Proof.
  intros Hf Ht Hs. unfold createTerm, translated in *.
  destruct (edgeType item); try done;
    try (destruct (getPrev_total b (sensp item) n Hf Hs) as ([v b1] & n1 & Hg);
         rewrite (bind_Ok _ _ _ _ _ Hg); by eauto).
  - by eexists _, n.
  - rewrite Ht. by eexists _, n.
Qed.

Lemma grows_initp b n b' n' :
  grows b n b' n' -> is_Some (n_cfuncs n !! m_initp b) ->
  is_Some (n_cfuncs n' !! m_initp b').
Proof.
  intros (-> & _ & new & vs & _ & _ & _ & _ & _ & _ & ->) [f Hf].
  cbn [n_cfuncs set_cfuncs set_varScopes]. rewrite list_lookup_alter_eq, Hf. by eexists.
Qed.

Lemma build_items_total items : forall b acc f0 n,
  is_Some (n_cfuncs n !! m_initp b) ->
  Forall (fun item => translated item = true /\ sensOk n (sensp item)) items ->
  exists r n', build_items v3Global b items acc f0 n = Ok (r, n').
Proof.
  induction items as [|item items IH]; intros b acc f0 n Hf Hall.
  - by eexists _, n.
  - apply Forall_cons in Hall as [[Ht Hs] Hall]. simpl.
    destruct (createTerm_total b item n Hf Ht Hs) as ([[t fire] b1] & n1 & Hct).
    rewrite (bind_Ok _ _ _ _ _ Hct). cbn beta iota.
    pose proof (createTerm_inv _ _ _ _ _ _ _ Hct) as (G & _).
    pose proof (grows_netlist _ _ _ _ G) as (Hsc & _ & Hvs).
    assert (Hall1 : Forall (fun item => translated item = true /\ sensOk n1 (sensp item)) items).
    { eapply Forall_impl; [exact Hall|]. intros it [? ?]. eauto using sensOk_mono. }
    destruct t; simpl; eauto using grows_initp.
Qed.

(** C4: [build] on a sensitivity tree whose items are of the translated
    kinds returns; with [prev] the shadow of the item's expression [curr],
    an item of kind changed or hybrid gives [curr != prev], both-edge
    [(curr xor prev)[0]], posedge [(curr and not prev)[0]], negedge
    [(not curr and prev)[0]], and illegal the null term; the result is the
    OR, from the left, of the terms that are not null, and the first-eval
    flag is true exactly when an item is of kind changed or hybrid. *)
Theorem build_ors_item_terms b p n st :
  n_senTrees n !! p = Some st ->
  is_Some (n_cfuncs n !! m_initp b) ->
  Forall (fun item => translated item = true /\ sensOk n (sensp item)) (senItems st) ->
  exists r fired b' n',
    build v3Global b p n = Ok ((r, fired), b', n') /\
    let shadow := fun e => prev_find e (m_prev b') in
    let lsb := fun e => AstSel e 0 1 in
    (forall item, item ∈ senItems st ->
       let curr := sensp item in
       match edgeType item with
       | ET_CHANGED | ET_HYBRID =>
           exists v, shadow curr = Some v /\
             termOf shadow item = Some (AstNeq curr (AstVarRef v READ))
       | ET_BOTHEDGE =>
           exists v, shadow curr = Some v /\
             termOf shadow item = Some (lsb (AstXor curr (AstVarRef v READ)))
       | ET_POSEDGE =>
           exists v, shadow curr = Some v /\
             termOf shadow item = Some (lsb (AstAnd curr (AstNot (AstVarRef v READ))))
       | ET_NEGEDGE =>
           exists v, shadow curr = Some v /\
             termOf shadow item = Some (lsb (AstAnd (AstNot curr) (AstVarRef v READ)))
       | ET_ILLEGAL => termOf shadow item = None
       | _ => is_Some (termOf shadow item)
       end) /\
    r = orTerms None (omap (termOf shadow) (senItems st)) /\
    (fired = true <->
     exists item, item ∈ senItems st /\ (edgeType item = ET_CHANGED \/ edgeType item = ET_HYBRID)).
Proof.
  intros Hst Hf Hall. unfold build. rewrite (bind_Ok _ _ _ _ _ (getSenTree_Ok _ _ _ Hst)).
  destruct (build_items_total (senItems st) b None false n Hf Hall) as ([[r fired] b'] & n' & Hb).
  exists r, fired, b', n'. split; [done|].
  apply build_items_inv in Hb as (_ & _ & Htr & Hr & Hfired & Hsh & _).
  split_and!; [|done|].
  - intros item Hin. specialize (Hsh item Hin).
    assert (Ht : translated item = true).
    { rewrite Forall_forall in Hall. by apply Hall. }
    unfold termOf, needsPrev, translated in *.
    destruct (edgeType item); try done;
      (destruct Hsh as [v Hv]; [done|]; exists v; by rewrite Hv).
  - rewrite Hfired, orb_false_l, existsb_exists. unfold firesFirst. split.
    + intros (item & Hin%list_elem_of_In & Hk). exists item. split; [done|].
      destruct (edgeType item); try done; auto.
    + intros (item & Hin%list_elem_of_In & Hk). exists item. split; [done|].
      by destruct Hk as [-> | ->].
Qed.

(** The trigger expression of a sensitivity tree: the OR of its terms. *)
Definition trigExpr (shadow : AstNode -> option nat) (st : AstSenTree) : option AstNode :=
  orTerms None (omap (termOf shadow) (senItems st)).

Lemma build_spec b p n st :
  n_senTrees n !! p = Some st ->
  is_Some (n_cfuncs n !! m_initp b) ->
  Forall (fun item => translated item = true /\ sensOk n (sensp item)) (senItems st) ->
  exists r fired b' n',
    build v3Global b p n = Ok ((r, fired), b', n') /\
    grows b n b' n' /\ (updatesOk b -> updatesOk b') /\
    r = trigExpr (fun e => prev_find e (m_prev b')) st /\
    fired = existsb firesFirst (senItems st) /\
    (forall item, item ∈ senItems st -> needsPrev item = true ->
       is_Some (prev_find (sensp item) (m_prev b'))).
Proof.
  intros Hst Hf Hall. unfold build. rewrite (bind_Ok _ _ _ _ _ (getSenTree_Ok _ _ _ Hst)).
  destruct (build_items_total (senItems st) b None false n Hf Hall) as ([[r fired] b'] & n' & Hb).
  exists r, fired, b', n'. split; [done|].
  apply build_items_inv in Hb as (G & U & _ & Hr & Hfired & Hsh & _). by split_and!.
Qed.

Lemma orTerms_is_Some acc ts : is_Some acc \/ ts <> [] -> is_Some (orTerms acc ts).
Proof.
  unfold orTerms. revert acc. induction ts as [|t ts IH]; intros acc H; simpl.
  - by destruct H.
  - apply IH. left. by eexists.
Qed.

Lemma trigExpr_is_Some shadow st :
  Forall (fun item => translated item = true) (senItems st) ->
  Exists (fun item => edgeType item <> ET_ILLEGAL) (senItems st) ->
  (forall item, item ∈ senItems st -> needsPrev item = true -> is_Some (shadow (sensp item))) ->
  is_Some (trigExpr shadow st).
Proof.
  intros Ht Hex Hsh. apply orTerms_is_Some. right.
  apply Exists_exists in Hex as (item & Hin & Hne).
  rewrite Forall_forall in Ht. specialize (Ht item Hin). specialize (Hsh item Hin).
  assert (Hsome : is_Some (termOf shadow item)).
  { unfold termOf, translated, needsPrev in *.
    destruct (edgeType item); try done; (destruct Hsh as [v ->]; [done|by eexists]). }
  destruct Hsome as [t Hsome]. intros Hnil.
  assert (Hel : t ∈ omap (termOf shadow) (senItems st)).
  { apply list_elem_of_omap. eauto. }
  rewrite Hnil in Hel. by apply elem_of_nil in Hel.
Qed.

Lemma trigExpr_stable sh1 sh2 st :
  (forall item, item ∈ senItems st -> needsPrev item = true -> is_Some (sh1 (sensp item))) ->
  (forall e v, sh1 e = Some v -> sh2 e = Some v) ->
  trigExpr sh1 st = trigExpr sh2 st.
Proof.
  intros Hsh Hk. unfold trigExpr. f_equal. induction (senItems st) as [|item items IH]; [done|].
  cbn [omap list_omap]. rewrite (termOf_stable sh1 sh2 item); [|apply Hsh; by left|done].
  rewrite IH; [done|]. intros it Hin. apply Hsh. by right.
Qed.

(** *** The builder over its whole use *)















End BuilderFacts.

(** ** The trigger vector of [createTriggers] *)

Section TriggerFacts.
Context {Q : AstQueries}.
Variable v3Global : V3Global.

(** The synthetic sensitivity tree that reads bit [index] of the vector. *)
Definition trigTree (vscp : nat) (index : Z) : AstSenTree :=
  mkSenTree (mkSenItem ET_TRUE (trigAt vscp index READ)) [].

(** The tree [p] can be given a trigger: it exists, it is clocked or hybrid,
    its items can be translated, and not all of them are illegal. *)
Definition triggerable (n : AstNetlist) (p : nat) : Prop :=
  exists st, n_senTrees n !! p = Some st /\
    hasClocked st || hasHybrid st = true /\
    Forall (fun item => translated v3Global item = true /\ sensOk n (sensp item))
      (senItems st) /\
    Exists (fun item => edgeType item <> ET_ILLEGAL) (senItems st).

Definition shadowOf (b : SenExprBuilder) : AstNode -> option nat :=
  fun e => prev_find e (m_prev b).


(** The map the loop builds: the [i]-th tree goes to the [i]-th new tree. *)
Definition trigMap (m : gmap nat nat) (ps : list nat) (base : nat) : gmap nat nat :=
  foldl (fun m pq => <[pq.1 := pq.2]> m) m (zip ps (seq base (length ps))).

Lemma trigMap_cons m p ps base :
  trigMap m (p :: ps) base = trigMap (<[p := base]> m) ps (S base).
Proof. done. Qed.




Lemma triggerable_mono n n' p :
  (exists ts, n_senTrees n' = n_senTrees n ++ ts) -> n_scopes n' = n_scopes n ->
  (exists vs, n_varScopes n' = n_varScopes n ++ vs) ->
  triggerable n p -> triggerable n' p.
Proof.
  intros [ts Hts] Hsc Hvs (st & Hst & Hcl & Hall & Hex). exists st. split_and!; auto.
  - rewrite Hts. by apply lookup_app_l_Some.
  - eapply Forall_impl; [exact Hall|]. intros it [? ?]. eauto using sensOk_mono.
Qed.

Lemma alter_is_Some {A} (f : A -> A) (l : list A) i j :
  is_Some (alter f i l !! j) <-> is_Some (l !! j).
Proof. by rewrite !lookup_lt_is_Some, length_alter. Qed.


Lemma triggerable_scopes n n' p :
  n_senTrees n' = n_senTrees n ->
  (forall i, is_Some (n_scopes n !! i) -> is_Some (n_scopes n' !! i)) ->
  (exists vs, n_varScopes n' = n_varScopes n ++ vs) ->
  triggerable n p -> triggerable n' p.
Proof.
  intros Hts Hsc [vs Hvs] (st & Hst & Hcl & Hall & Hex). exists st. split_and!; auto.
  - by rewrite Hts.
  - eapply Forall_impl; [exact Hall|]. intros it [? Hs]. split; [done|].
    destruct (sensp it); try done. destruct Hs as (vsc & H1 & H2). exists vsc.
    split; [|by apply Hsc]. rewrite Hvs. by apply lookup_app_l_Some.
Qed.

Lemma set_cfuncs_alter_addStmtsp l1 l2 fp n :
  set_cfuncs (alter (cf_addStmtsp l2) fp) (set_cfuncs (alter (cf_addStmtsp l1) fp) n)
  = set_cfuncs (alter (cf_addStmtsp (l1 ++ l2)) fp) n.
Proof.
  destruct n; unfold set_cfuncs; cbn -[alter]. f_equal.
  rewrite list_alter_alter_eq. apply list_alter_ext; [|done].
  intros f _. destruct f; unfold cf_addStmtsp; simpl. by rewrite app_assoc.
Qed.

Lemma set_cfuncs_addStmtsp_nil fp n : set_cfuncs (alter (cf_addStmtsp []) fp) n = n.
Proof. destruct n; unfold set_cfuncs; cbn -[alter]. by rewrite alter_addStmtsp_nil. Qed.


Lemma forM_addStmtsp {A} (l : list A) (stmts : A -> list AstNode) fp n :
  is_Some (n_cfuncs n !! fp) ->
  forM_ l (fun x => addStmtsp fp (stmts x)) n
  = Ok (tt, set_cfuncs (alter (cf_addStmtsp (concat (stmts <$> l))) fp) n).
Proof.
  revert n. induction l as [|x l IH]; intros n [f Hf].
  - simpl. by rewrite set_cfuncs_addStmtsp_nil.
  - cbn [forM_]. rewrite (bind_Ok _ _ _ _ _ (addStmtsp_Ok _ _ _ _ Hf)).
    rewrite IH.
    + by rewrite set_cfuncs_alter_addStmtsp.
    + cbn [n_cfuncs set_cfuncs]. by rewrite list_lookup_alter_eq, Hf.
Qed.


End TriggerFacts.

(** ** The settle region of a design without combinational logic *)

Section SettleFacts.
Context {Q : AstQueries} {P : SchedPasses}.
Variable v3Global : V3Global.

(** C7, amended: when there is no combinational and no hybrid logic,
    [createSettle] makes no trigger vector and no loop, and leaves the
    builder as it was; but it has made the entry point [_eval_settle] before
    it looks at the logic, so the netlist gets this one new function, slow
    and with an empty body, linked in the top scope. *)
Theorem createSettle_without_logic b lc n sc :
  n_scopes n !! n_topScope n = Some sc ->
  m_comb lc = [] -> m_hybrid lc = [] ->
  createSettle v3Global b lc n
  = Ok (b, set_cfuncs (alter (cf_setEntryPoint true) (length (n_cfuncs n)))
             (set_scopes (alter (sc_addActivep (BCFunc (length (n_cfuncs n)))) (n_topScope n))
                (set_cfuncs (fun l => l ++ [mkCFunc "_eval_settle" (n_topScope n) [] [] true
                                              false true true false true false EmptyString])
                   n))).
Proof.
  intros Hsc Hc Hh. unfold createSettle, makeTopFunction.
  erewrite bind_Ok; [|erewrite bind_Ok; [|by eapply makeSubFunction_Ok]; reflexivity].
  by rewrite Hc, Hh.
Qed.

End SettleFacts.

(** ** A small design *)

Module Example.

(** A reading of the queries for the examples below: the class flags of a
    sensitivity list are those of the edge kinds of its items, every sensed
    expression is one bit wide, and names are made from a counter. *)
Definition hasEdge (p : VEdgeType -> bool) (t : AstSenTree) : bool :=
  existsb (fun i => p (edgeType i)) (senItems t).

Definition replaceAll (text from to : string) : string :=
  match index 0 from text with
  | Some i => substring 0 i text +:+ to
              +:+ substring (i + String.length from) (String.length text) text
  | None => text
  end.

#[local] Instance queries : AstQueries := {|
  dtypep := fun _ => bitDType 1;
  hasStatic := hasEdge (fun e => match e with ET_STATIC => true | _ => false end);
  hasInitial := hasEdge (fun e => match e with ET_INITIAL => true | _ => false end);
  hasFinal := hasEdge (fun e => match e with ET_FINAL => true | _ => false end);
  hasCombo := hasEdge (fun e => match e with ET_COMBO => true | _ => false end);
  hasClocked := hasEdge (fun e => match e with
                                  | ET_CHANGED | ET_BOTHEDGE | ET_POSEDGE | ET_NEGEDGE
                                  | ET_EVENT | ET_TRUE => true
                                  | _ => false
                                  end);
  hasHybrid := hasEdge (fun e => match e with ET_HYBRID => true | _ => false end);
  verilogForTree := fun _ => "@(...)";
  protect := fun t => t;
  replaceWord := replaceAll;
  V3UniqueNames := Z;
  newUniqueNames := fun _ => 0;
  uniqueNames_get := fun u _ => ("__Vtrigprev__expression_" +:+ cvtToStr u, u + 1)
|}.

(** Variables [clk], [a], [b] of scope [top] (scope 0). *)
Definition clk : AstNode := AstVarRef 0 READ.
Definition va : AstNode := AstVarRef 1 READ.
Definition vb : AstNode := AstVarRef 2 READ.

Definition stmt (name : string) : AstNode := AstOther "ASSIGN" name [va; vb].

(** Sensitivity lists: 0 static, 1 posedge clk, 2 combo, 3 [a or b] changed,
    4 hybrid on [a]. *)
Definition senTrees : list AstSenTree :=
  [ mkSenTree (mkSenItem ET_STATIC (AstOther "NONE" EmptyString [])) [];
    mkSenTree (mkSenItem ET_POSEDGE clk) [];
    mkSenTree (mkSenItem ET_COMBO (AstOther "NONE" EmptyString [])) [];
    mkSenTree (mkSenItem ET_CHANGED va) [mkSenItem ET_CHANGED vb];
    mkSenTree (mkSenItem ET_HYBRID va) [] ].

(** Active blocks: 0 static, 1 empty, 2 and 3 on posedge clk, 4 combo,
    5 on a change of [a] or [b], and 6 hybrid, which no scope links (hybrid
    logic is made after the classification). *)
Definition actives : list (option AstActive) :=
  [ Some (mkActive 0 [stmt "s"]);
    Some (mkActive 1 []);
    Some (mkActive 1 [stmt "p"]);
    Some (mkActive 1 [stmt "q"]);
    Some (mkActive 2 [stmt "c"]);
    Some (mkActive 3 [stmt "d"]);
    Some (mkActive 4 [stmt "h"]) ].

Definition design : AstNetlist :=
  mkNetlist ("t.v", 7)
    [ mkScope "TOP" [BActive 0; BActive 1; BActive 2];
      mkScope "TOP__sub" [BActive 3; BCFunc 0; BActive 4; BActive 5] ]
    0 [0; 1; 2; 3; 4]%nat senTrees
    [ mkVarScope "clk" 0 (bitDType 1); mkVarScope "a" 0 (bitDType 1);
      mkVarScope "b" 0 (bitDType 1) ]
    [newAstCFunc "f" 1] actives [] None None None.

Lemma design_linked :
  linkedActives design = [(0, 0); (0, 1); (0, 2); (1, 3); (1, 4); (1, 5)]%nat.
Proof. reflexivity. Defined.

Ltac solve_active :=
  eexists; split; [reflexivity|];
  first [left; reflexivity | right; eexists; first [split; reflexivity | reflexivity]].

Lemma design_valid : Forall (fun x => activeValid design x.2) (linkedActives design).
Proof.
  rewrite design_linked.
  repeat (apply Forall_cons; split; [solve_active|]). apply Forall_nil_2.
Defined.

Lemma design_ok : Forall (fun x => activeOk design x.2) (linkedActives design).
Proof.
  rewrite design_linked.
  repeat (apply Forall_cons; split; [solve_active|]). apply Forall_nil_2.
Defined.

Lemma design_distinct : NoDup (linkedActives design).*2.
Proof. rewrite design_linked. apply (bool_decide_unpack _). vm_compute. exact I. Defined.

Lemma gatherLogicClasses_classifies_witness :
  exists lc n',
    gatherLogicClasses design = Ok (lc, n') /\
    m_static lc = [(0, 0)]%nat /\
    m_clocked lc = [(0, 2); (1, 3); (1, 5)]%nat /\
    m_comb lc = [(1, 4)]%nat /\
    sc_activesp <$> n_scopes n' !! 0%nat = Some [BActive 0; BActive 2] /\
    n_actives n' !! 1%nat = Some None.
Proof.
  destruct (proj2 (gatherLogicClasses_classifies design design_distinct design_valid)
              design_ok) as (lc & n' & Hrun & _).
  exists lc, n'. split; [exact Hrun|].
  vm_compute in Hrun. injection Hrun as <- <-. vm_compute. repeat split.
Defined.

(** A netlist as the driver hands it to [createEval]: the act trigger
    vector with its two functions, the pre and nba vectors, and the two
    region functions. *)
Definition trigVec : AstBasicDType := mkBasicDType TRIGGERVEC 1 1.

Definition evalNet : AstNetlist :=
  mkNetlist ("t.v", 7)
    [ mkScope "TOP" [BCFunc 0; BCFunc 1; BCFunc 2; BCFunc 3] ]
    0 [] []
    [ mkVarScope "__VactTriggered" 0 trigVec; mkVarScope "__VpreTriggered" 0 trigVec;
      mkVarScope "__VnbaTriggered" 0 trigVec ]
    [ mkCFunc "_eval_triggers__act" 0 [] [] true false true false false true false EmptyString;
      mkCFunc "_dump_triggers__act" 0
        [AstIf (trigAt 0 0 READ) [AstText "trigger 0 of act is active" true] [] BP_UNKNOWN]
        [] true false true false false true false "VL_DEBUG";
      mkCFunc "_eval_act" 0 [] [] true false true false false true false EmptyString;
      mkCFunc "_eval_nba" 0 [] [] true false true false false true false EmptyString ]
    [] [] None None None.

Definition actKit : TriggerKit := mkTriggerKit 0 0 1 ∅.

Definition g : V3Global := mkGlobal (mkOptions 0 100 false false false) false.

Lemma makeEvalLoop_divergence_check_witness :
  exists loopp,
    makeEvalLoop g "act" "Active" 0 1 (mret [AstCCall 0]) (mret [AstCCall 2]) evalNet
    = Ok ((3%nat, loopp),
          set_varScopes (fun l => l ++ loopVars evalNet "act") evalNet).
Proof.
  eexists.
  refine (proj1 (makeEvalLoop_divergence_check g "act" "Active" 0%nat 1%nat
                   (mret [AstCCall 0]) (mret [AstCCall 2]) evalNet
                   (mkVarScope "__VactTriggered" 0 trigVec) [AstCCall 0] [AstCCall 2]
                   (set_varScopes (fun l => l ++ loopVars evalNet "act") evalNet)
                   (set_varScopes (fun l => l ++ loopVars evalNet "act") evalNet)
                   _ _ _ _ _)); reflexivity.
Defined.

Lemma createEval_nested_loops_witness :
  exists n' f,
    createEval g [] actKit 1 2 2 3 evalNet = Ok (tt, n') /\
    n_cfuncs n' !! 4%nat = Some f /\
    cf_stmtsp f
    = evalLoop g evalNet "NBA" 5 6 2 5
        (clearCall 2 :: evalLoop g evalNet "Active" 3 4 0 1 [AstCCall 0]
                          [andNotCall 1 0 2; setCall 2 0; AstCCall 2])
        [AstCCall 3].
Proof.
  assert (H := createEval_nested_loops g [] actKit 1%nat 2%nat 2%nat 3%nat evalNet
                 (mkScope "TOP" [BCFunc 0; BCFunc 1; BCFunc 2; BCFunc 3])
                 (mkCFunc "_dump_triggers__act" 0
                    [AstIf (trigAt 0 0 READ) [AstText "trigger 0 of act is active" true] []
                       BP_UNKNOWN]
                    [] true false true false false true false "VL_DEBUG")
                 (mkVarScope "__VactTriggered" 0 trigVec)
                 (mkVarScope "__VnbaTriggered" 0 trigVec)
                 eq_refl eq_refl eq_refl eq_refl eq_refl eq_refl eq_refl).
  destruct H as (n' & f & Hrun & _ & Hf & _ & Hst & _).
  exists n', f. split; [exact Hrun|]. split; [exact Hf|]. exact Hst.
Defined.

Lemma getSenTreesUsedBy_witness :
  getSenTreesUsedBy [[(0, 2); (1, 3)]; [(1, 4); (1, 5); (1, 6); (0, 2)]]%nat design
  = Ok ([1; 3; 4]%nat, design).
Proof.
  destruct (getSenTreesUsedBy_distinct_clocked_or_hybrid design
              [[(0, 2); (1, 3)]; [(1, 4); (1, 5); (1, 6); (0, 2)]]%nat) as (r & Hrun & _).
  - repeat (apply Forall_cons; split; [|]); try apply Forall_nil_2;
      eexists _, _; split; reflexivity.
  - rewrite Hrun. vm_compute in Hrun. injection Hrun as <-. reflexivity.
Defined.

(** The builder on the design, with the function [f] as the initialization
    function: the shadows of [clk], [a] and [b] are the variables 3, 4, 5. *)
Lemma design_items_ok (p : nat) (st : AstSenTree) :
  (p = 1 \/ p = 3 \/ p = 4)%nat -> n_senTrees design !! p = Some st ->
  Forall (fun item => translated g item = true /\ sensOk design (sensp item)) (senItems st).
Proof.
  intros [->|[->| ->]] [= <-]; unfold senItems; cbn [sensesp sensesp_nextp];
    repeat (apply Forall_cons; split;
            [split; [reflexivity|hnf; eexists; split; [reflexivity|by eexists]]|]);
    apply Forall_nil_2.
Defined.

Lemma build_ors_item_terms_witness :
  exists b' n',
    build g (newSenExprBuilder design 0) 3 design
    = Ok ((Some (AstOr (AstNeq va (AstVarRef 3 READ)) (AstNeq vb (AstVarRef 4 READ))), true),
          b', n') /\
    m_prev b' = [(va, 3); (vb, 4)]%nat.
Proof.
  destruct (build_ors_item_terms g (newSenExprBuilder design 0) 3%nat design _ eq_refl
              (ex_intro _ _ eq_refl) (design_items_ok 3 _ (or_intror (or_introl eq_refl)) eq_refl))
    as (r & fired & b' & n' & Hrun & _).
  exists b', n'. vm_compute in Hrun. injection Hrun as <- <- <- <-. split; reflexivity.
Defined.



(** The triggers of the trees 1 and 3 of the design with one extra trigger:
    the vector is variable 3 with three bits, the trees get the bits 1 and 2
    and the new trees 5 and 6. *)
Lemma design_triggerable : Forall (triggerable g design) [1; 3]%nat.
Proof.
  repeat (apply Forall_cons; split; [|]); [| |apply Forall_nil_2].
  - eexists. split_and!; [reflexivity|reflexivity| |by apply Exists_cons_hd].
    by apply (design_items_ok 1); auto.
  - eexists. split_and!; [reflexivity|reflexivity| |by apply Exists_cons_hd].
    by apply (design_items_ok 3); auto.
Defined.


(** The empty design: one top scope that links nothing.  The external
    ordering pass is never reached on it; the instance stands in for it. *)
#[local] Instance passes : SchedPasses := {|
  order := fun _ _ tag _ _ _ => makeSubFunction ("_eval_" +:+ tag) false
|}.

Definition emptyDesign : AstNetlist :=
  mkNetlist ("t.v", 1) [mkScope "TOP" []] 0 [] [] [] [] [] [] None None None.

Definition noLogic : LogicClasses := mkLogicClasses [] [] [] [] [] [].

(** The empty design with the slow entry points [names], of empty body. *)
Definition emptyWith (names : list string) : AstNetlist :=
  mkNetlist ("t.v", 1) [mkScope "TOP" (BCFunc <$> seq 0 (length names))] 0 [] [] []
    ((fun name => mkCFunc name 0 [] [] true false true true false true true EmptyString)
       <$> names)
    [] [] None None None.

(** The first steps of [schedule] on the empty design: the classes are
    empty, so there is no combinational logic to break cycles in and no
    hybrid logic, and [createSettle] leaves the function [_eval_settle], with
    an empty body, in the netlist. *)
Lemma createSettle_makes_eval_settle :
  gatherLogicClasses emptyDesign = Ok (noLogic, emptyDesign) /\
  createStatic g noLogic emptyDesign = Ok (tt, emptyWith ["_eval_static"]) /\
  createInitial noLogic (emptyWith ["_eval_static"])
  = Ok (1%nat, emptyWith ["_eval_static"; "_eval_initial"]) /\
  createFinal g noLogic (emptyWith ["_eval_static"; "_eval_initial"])
  = Ok (tt, emptyWith ["_eval_static"; "_eval_initial"; "_eval_final"]) /\
  createSettle g (newSenExprBuilder (emptyWith ["_eval_static"; "_eval_initial"; "_eval_final"]) 1)
    noLogic (emptyWith ["_eval_static"; "_eval_initial"; "_eval_final"])
  = Ok (newSenExprBuilder (emptyWith ["_eval_static"; "_eval_initial"; "_eval_final"]) 1,
        emptyWith ["_eval_static"; "_eval_initial"; "_eval_final"; "_eval_settle"]).
Proof. split_and!; vm_compute; reflexivity. Qed.

Lemma createSettle_without_logic_witness :
  exists n',
    createSettle g (newSenExprBuilder emptyDesign 0) (mkLogicClasses [] [] [] [] [] [])
      emptyDesign = Ok (newSenExprBuilder emptyDesign 0, n') /\
    cf_name <$> n_cfuncs n' = ["_eval_settle"] /\ n_varScopes n' = [].
Proof.
  eexists. split; [|split].
  - exact (createSettle_without_logic g (newSenExprBuilder emptyDesign 0)
             (mkLogicClasses [] [] [] [] [] []) emptyDesign _ eq_refl eq_refl eq_refl).
  - reflexivity.
  - reflexivity.
Defined.

End Example.

(** * Further properties of the scheduling code *)

(** ** The builder: repeated requests and rounds *)

Section BuilderRounds.
Context {Q : AstQueries}.
Variable v3Global : V3Global.

(** X1: within a round, a second request for the previous value of the same
    expression returns the same variable and changes neither the builder
    nor the netlist. *)
Theorem getPrev_again b e n v b1 n1 :
  getPrev b e n = Ok ((v, b1), n1) ->
  getPrev b1 e n1 = Ok ((v, b1), n1).
Proof.
  intros H. apply getPrev_inv in H as (_ & _ & Hpf & _ & Hupd).
  assert (Hin : e ∈ m_hasUpdate b1).
  { destruct Hupd as [(Hin & -> & _)|(_ & -> & _)]; [done|by left]. }
  unfold getPrev. rewrite Hpf. rewrite (bind_Ok _ _ n1 (v, b1) n1) by done.
  by rewrite bool_decide_true.
Qed.

(** The clearing statement of an event: made for every event item. *)
Definition eventClear (e : AstNode) : AstNode :=
  AstIf (AstCMethodHard e "isFired" [] (Some (bitDType 1)) false false)
    [AstCMethodHard e "clearFired" [] None true false;
     AstTextBlock [AstText "vlSymsp->enqueueTriggeredEventForClearing(" true; e;
                   AstText (");" +:+ newline) true]]
    [] BP_UNKNOWN.

(** The updates the items add to a round in which the expressions [seen]
    have their update already: one assignment for each further expression
    whose previous value is read, at its first item, and one clearing
    statement for every event item. *)
Fixpoint updatesOf (shadow : AstNode -> option nat) (seen : list AstNode)
    (items : list AstSenItem) : list AstNode :=
  match items with
  | [] => []
  | item :: items =>
      let e := sensp item in
      if needsPrev item then
        if decide (e ∈ seen) then updatesOf shadow seen items
        else from_option (fun v => [shadowAssign e v]) [] (shadow e)
             ++ updatesOf shadow (e :: seen) items
      else
        match edgeType item with
        | ET_EVENT => eventClear e :: updatesOf shadow seen items
        | _ => updatesOf shadow seen items
        end
  end.

(** The expressions with an update after the items. *)
Fixpoint seenAfter (seen : list AstNode) (items : list AstSenItem) : list AstNode :=
  match items with
  | [] => seen
  | item :: items =>
      if needsPrev item then
        if decide (sensp item ∈ seen) then seenAfter seen items
        else seenAfter (sensp item :: seen) items
      else seenAfter seen items
  end.

Lemma updatesOf_stable sh1 sh2 seen items :
  (forall item, item ∈ items -> needsPrev item = true -> is_Some (sh1 (sensp item))) ->
  (forall e v, sh1 e = Some v -> sh2 e = Some v) ->
  updatesOf sh1 seen items = updatesOf sh2 seen items.
Proof.
  revert seen. induction items as [|item items IH]; intros seen Hs Hk; [done|].
  assert (Hrest : forall seen', updatesOf sh1 seen' items = updatesOf sh2 seen' items).
  { intros seen'. apply IH; [|done]. intros it Hin. apply Hs. by right. }
  simpl. destruct (needsPrev item) eqn:Hn.
  - case_decide; [done|]. destruct (Hs item) as [v Hv]; [by left|done|].
    by rewrite Hv, (Hk _ _ Hv), Hrest.
  - destruct (edgeType item); by rewrite Hrest.
Qed.

Lemma createTerm_updates b item n r b' n' :
  createTerm v3Global b item n = Ok (r, b', n') ->
  m_updates b' = m_updates b ++ updatesOf (fun e => prev_find e (m_prev b')) (m_hasUpdate b) [item] /\
  m_hasUpdate b' = seenAfter (m_hasUpdate b) [item].
Proof.
  unfold createTerm. simpl. unfold needsPrev. intros H.
  destruct (edgeType item) eqn:He; try done.
  - injection H as <- <- <-. by rewrite app_nil_r.
  - apply bind_Ok_inv in H as ([v b1] & n1 & Hg & H). injection H as <- <- <-.
    apply getPrev_inv in Hg as (_ & _ & Hpf & _ & [(Hin & -> & ->)|(Hnin & -> & ->)]).
    + rewrite !decide_True by done. by rewrite app_nil_r.
    + rewrite !decide_False by done. by rewrite Hpf.
  - apply bind_Ok_inv in H as ([v b1] & n1 & Hg & H). injection H as <- <- <-.
    apply getPrev_inv in Hg as (_ & _ & Hpf & _ & [(Hin & -> & ->)|(Hnin & -> & ->)]).
    + rewrite !decide_True by done. by rewrite app_nil_r.
    + rewrite !decide_False by done. by rewrite Hpf.
  - apply bind_Ok_inv in H as ([v b1] & n1 & Hg & H). injection H as <- <- <-.
    apply getPrev_inv in Hg as (_ & _ & Hpf & _ & [(Hin & -> & ->)|(Hnin & -> & ->)]).
    + rewrite !decide_True by done. by rewrite app_nil_r.
    + rewrite !decide_False by done. by rewrite Hpf.
  - apply bind_Ok_inv in H as ([v b1] & n1 & Hg & H). injection H as <- <- <-.
    apply getPrev_inv in Hg as (_ & _ & Hpf & _ & [(Hin & -> & ->)|(Hnin & -> & ->)]).
    + rewrite !decide_True by done. by rewrite app_nil_r.
    + rewrite !decide_False by done. by rewrite Hpf.
  - apply bind_Ok_inv in H as ([] & n1 & [Hev ->]%UASSERT_inv & H).
    by injection H as <- <- <-.
  - apply bind_Ok_inv in H as ([v b1] & n1 & Hg & H). injection H as <- <- <-.
    apply getPrev_inv in Hg as (_ & _ & Hpf & _ & [(Hin & -> & ->)|(Hnin & -> & ->)]).
    + rewrite !decide_True by done. by rewrite app_nil_r.
    + rewrite !decide_False by done. by rewrite Hpf.
Qed.

Lemma updatesOf_cons shadow seen item items :
  updatesOf shadow seen (item :: items)
  = updatesOf shadow seen [item] ++ updatesOf shadow (seenAfter seen [item]) items.
Proof.
  simpl. destruct (needsPrev item).
  - case_decide; [done|]. by rewrite app_nil_r.
  - by destruct (edgeType item).
Qed.

Lemma seenAfter_cons seen item items :
  seenAfter seen (item :: items) = seenAfter (seenAfter seen [item]) items.
Proof. simpl. destruct (needsPrev item); [case_decide|]; done. Qed.

Lemma build_items_updates items : forall b acc f0 n r b' n',
  build_items v3Global b items acc f0 n = Ok (r, b', n') ->
  m_updates b' = m_updates b
                 ++ updatesOf (fun e => prev_find e (m_prev b')) (m_hasUpdate b) items /\
  m_hasUpdate b' = seenAfter (m_hasUpdate b) items.
Proof.
  induction items as [|item items IH]; intros b acc f0 n r b' n' H.
  - injection H as <- <- <-. by rewrite app_nil_r.
  - simpl in H. apply bind_Ok_inv in H as ([[t fire] b1] & n1 & Hct & H).
    pose proof (createTerm_updates _ _ _ _ _ _ Hct) as [Hu1 Hh1].
    apply createTerm_inv in Hct as (_ & _ & _ & _ & _ & Hs1 & _).
    assert (Hrest : exists acc' f', build_items v3Global b1 items acc' f' n1 = Ok (r, b', n')).
    { destruct t; simpl in H; eauto. }
    destruct Hrest as (acc' & f' & Hb). destruct r as [r fired].
    pose proof (build_items_inv _ _ _ _ _ _ _ _ _ _ Hb) as (G & _).
    apply IH in Hb as [Hu2 Hh2].
    rewrite (seenAfter_cons _ item items), (updatesOf_cons _ _ item items), <- Hh1.
    split; [|done].
    rewrite Hu2, Hu1, <- app_assoc. do 2 f_equal.
    apply updatesOf_stable.
    + intros it ->%list_elem_of_singleton. done.
    + by apply (grows_keep _ _ _ _ G).
Qed.

(** X2: the updates of a round, exactly: [build] adds to the accumulator one
    assignment for each expression of the tree whose previous value is read
    and that has no update yet in the round, at its first item, and one
    clearing statement for every event item, which are not deduplicated. *)
Theorem build_updates b p n r b' n' :
  build v3Global b p n = Ok (r, b', n') ->
  exists st, n_senTrees n !! p = Some st /\
    m_updates b' = m_updates b
                   ++ updatesOf (fun e => prev_find e (m_prev b')) (m_hasUpdate b) (senItems st) /\
    m_hasUpdate b' = seenAfter (m_hasUpdate b) (senItems st).
Proof.
  unfold build. intros H. apply bind_Ok_inv in H as (st & n1 & [Hst ->]%deref_inv & H).
  exists st. split; [done|]. by eapply build_items_updates.
Qed.

Lemma getPrev_found b e n v :
  prev_find e (m_prev b) = Some v ->
  exists b', getPrev b e n = Ok ((v, b'), n) /\ m_prev b' = m_prev b.
Proof.
  intros H. unfold getPrev. rewrite H. rewrite (bind_Ok _ _ n (v, b) n) by done.
  case_bool_decide; by eexists.
Qed.

Lemma createTerm_found b item n :
  translated v3Global item = true ->
  (needsPrev item = true -> is_Some (prev_find (sensp item) (m_prev b))) ->
  exists b',
    createTerm v3Global b item n
    = Ok ((termOf (fun e => prev_find e (m_prev b)) item, firesFirst item), b', n) /\
    m_prev b' = m_prev b.
Proof.
  unfold createTerm, translated, needsPrev, termOf, firesFirst. intros Ht Hs.
  destruct (edgeType item); try done;
    try (destruct Hs as [v Hv]; [done|];
         destruct (getPrev_found b (sensp item) n v Hv) as (b' & Hg & Hp);
         rewrite (bind_Ok _ _ _ _ _ Hg), Hv; by exists b').
  - by exists b.
  - rewrite Ht. by eexists.
Qed.

Lemma build_items_found items : forall b acc f0 n,
  Forall (fun item => translated v3Global item = true) items ->
  (forall item, item ∈ items -> needsPrev item = true ->
     is_Some (prev_find (sensp item) (m_prev b))) ->
  exists b',
    build_items v3Global b items acc f0 n
    = Ok ((orTerms acc (omap (termOf (fun e => prev_find e (m_prev b))) items),
           f0 || existsb firesFirst items), b', n) /\
    m_prev b' = m_prev b.
Proof.
  induction items as [|item items IH]; intros b acc f0 n Ht Hs.
  - exists b. by rewrite orb_false_r.
  - apply Forall_cons in Ht as [Ht Hts].
    destruct (createTerm_found b item n Ht) as (b1 & Hct & Hp1); [apply Hs; by left|].
    destruct (IH b1 (orTerms acc (from_option (fun x => [x]) []
                                    (termOf (fun e => prev_find e (m_prev b)) item)))
                 (f0 || firesFirst item) n Hts) as (b' & Hb & Hp).
    { intros it Hin. rewrite Hp1. apply Hs. by right. }
    exists b'. split; [|by rewrite Hp, Hp1].
    cbn [build_items]. rewrite (bind_Ok _ _ _ _ _ Hct). cbn beta iota. cbn [fst snd].
    rewrite Hp1 in Hb. cbn [omap list_omap existsb].
    destruct (termOf _ item) as [t|] eqn:Hterm; unfold orTerms in *;
      cbn [from_option foldl] in Hb |- *.
    + rewrite Hb. by rewrite orb_assoc.
    + assert (Hff : firesFirst item = false).
      { assert (Hsi := Hs item ltac:(by left)). clear Hs IH.
        unfold termOf, firesFirst, needsPrev in *.
        destruct (edgeType item); try done;
          (destruct Hsi as [v Hv]; [done|]; by rewrite Hv in Hterm). }
      rewrite Hff, orb_false_r in Hb. by rewrite Hb, Hff.
Qed.

(** X3: building a tree again, at any later state of the builder that still has
    the shadows, gives the same expression and flag, and then touches
    nothing of the netlist and makes no new shadow. *)
Theorem build_again b p n r fired b1 n1 b2 n2 :
  build v3Global b p n = Ok ((r, fired), b1, n1) ->
  (forall e v, prev_find e (m_prev b1) = Some v -> prev_find e (m_prev b2) = Some v) ->
  n_senTrees n2 !! p = n_senTrees n !! p ->
  exists b3,
    build v3Global b2 p n2 = Ok ((r, fired), b3, n2) /\ m_prev b3 = m_prev b2.
Proof.
  unfold build. intros H Hk Hp.
  apply bind_Ok_inv in H as (st & n0 & [Hst ->]%deref_inv & H).
  apply build_items_inv in H as (_ & _ & Htr & -> & -> & Hs & _).
  rewrite (bind_Ok _ _ n2 st n2) by (unfold getSenTree; by rewrite Hp, Hst).
  destruct (build_items_found (senItems st) b2 None false n2) as (b3 & Hb & Hp3).
  { apply Forall_forall. intros it Hin%list_elem_of_In.
    rewrite forallb_forall in Htr. by apply Htr. }
  { intros it Hin Hn. destruct (Hs it Hin Hn) as [v Hv]. exists v. by apply Hk. }
  exists b3. split; [|done]. rewrite Hb.
  pose proof (trigExpr_stable _ _ st Hs Hk) as E. unfold trigExpr in E. by rewrite E.
Qed.

(** X4: [build] aborts on a tree that holds an item of a kind other than
    illegal, changed, hybrid, both-edge, posedge, negedge and, in a design
    with events, event: there is no term for such an item. *)
Theorem build_rejects b p n st :
  n_senTrees n !! p = Some st ->
  Exists (fun item => translated v3Global item = false) (senItems st) ->
  exists msg, build v3Global b p n = Fatal msg.
Proof.
  intros Hp Hbad.
  destruct (build v3Global b p n) as [[[[r fired] b'] n']|msg] eqn:H; [|by eexists].
  exfalso. unfold build in H.
  apply bind_Ok_inv in H as (st' & n0 & [Hst ->]%deref_inv & H).
  rewrite Hp in Hst. injection Hst as <-.
  apply build_items_inv in H as (_ & _ & Htr & _).
  apply Exists_exists in Hbad as (item & Hin & Hf).
  rewrite forallb_forall in Htr. rewrite (Htr item) in Hf; [done|]. by apply list_elem_of_In.
Qed.

End BuilderRounds.

(** ** The functions and variables [createTriggers] makes *)

Section TriggerFull.
Context {Q : AstQueries}.
Variable v3Global : V3Global.

(** What the loop of [createTriggers] adds to the netlist. *)
Record TrigAdds := mkAdds {
  a_trees : list AstSenTree;   (* the new sensitivity trees of the top scope *)
  a_vars : list AstVarScope;   (* the new variables *)
  a_inits : list AstNode;      (* the statements added to the initialization function *)
  a_assigns : list AstNode;    (* the statements added to the compute function *)
  a_dbgs : list AstNode        (* the statements added to the dump function *)
}.

Definition adds_app (a1 a2 : TrigAdds) : TrigAdds :=
  mkAdds (a_trees a1 ++ a_trees a2) (a_vars a1 ++ a_vars a2) (a_inits a1 ++ a_inits a2)
    (a_assigns a1 ++ a_assigns a2) (a_dbgs a1 ++ a_dbgs a2).

Definition addTo (initp funcp dumpp : nat) (a : TrigAdds) (n : AstNetlist) : AstNetlist :=
  mkNetlist (n_topModuleFileline n) (n_scopes n) (n_topScope n)
    (n_senTreesp n ++ seq (length (n_senTrees n)) (length (a_trees a)))
    (n_senTrees n ++ a_trees a) (n_varScopes n ++ a_vars a)
    (alter (cf_addStmtsp (a_dbgs a)) dumpp
       (alter (cf_addStmtsp (a_assigns a)) funcp
          (alter (cf_addStmtsp (a_inits a)) initp (n_cfuncs n))))
    (n_actives n) (n_typeTable n) (n_evalp n) (n_evalNbap n) (n_dpiExportTriggerp n).

Lemma alter_addStmtsp_fuse l1 l2 i (cf : list AstCFunc) :
  alter (cf_addStmtsp l2) i (alter (cf_addStmtsp l1) i cf) = alter (cf_addStmtsp (l1 ++ l2)) i cf.
Proof.
  rewrite list_alter_alter_eq. apply list_alter_ext; [|done].
  intros f _. destruct f; unfold cf_addStmtsp; simpl. by rewrite app_assoc.
Qed.

Lemma addTo_addTo initp funcp dumpp a1 a2 n :
  funcp <> initp -> dumpp <> initp -> funcp <> dumpp ->
  addTo initp funcp dumpp a2 (addTo initp funcp dumpp a1 n)
  = addTo initp funcp dumpp (adds_app a1 a2) n.
Proof.
  intros H1 H2 H3. unfold addTo, adds_app. cbn -[alter seq]. f_equal.
  - rewrite !length_app, seq_app, <- app_assoc. done.
  - by rewrite app_assoc.
  - by rewrite app_assoc.
  - rewrite (list_alter_alter_ne (cf_addStmtsp (a_inits a2)) _ _ initp dumpp) by done.
    rewrite (list_alter_alter_ne (cf_addStmtsp (a_inits a2)) _ _ initp funcp) by done.
    rewrite alter_addStmtsp_fuse.
    rewrite (list_alter_alter_ne (cf_addStmtsp (a_assigns a2)) _ _ funcp dumpp) by done.
    by rewrite !alter_addStmtsp_fuse.
Qed.

(** The message [addDebug] prints for a trigger. *)
Definition debugIf (name : string) (vscp : nat) (index : Z) (text : string) : AstNode :=
  AstIf (trigAt vscp index READ)
    [AstText ("VL_DBG_MSGF(" +:+ dquote +:+ "         '" +:+ name +:+ "' region trigger index "
              +:+ cvtToStr index +:+ " is active"
              +:+ (if decide (text = EmptyString) then EmptyString else ": " +:+ text)
              +:+ backslash +:+ "n" +:+ dquote +:+ ");" +:+ newline) true]
    [] BP_UNKNOWN.

(** The statements the loop makes for the trees [sts], the first of which
    has the trigger number [k]. *)
Fixpoint treeAssigns (shadow : AstNode -> option nat) (vscp : nat) (k : Z)
    (sts : list AstSenTree) : list AstNode :=
  match sts with
  | [] => []
  | st :: sts =>
      from_option (fun rhs => [AstAssign (trigAt vscp k WRITE) rhs]) [] (trigExpr shadow st)
      ++ treeAssigns shadow vscp (k + 1) sts
  end.

Fixpoint treeInits (vscp : nat) (k : Z) (sts : list AstSenTree) : list AstNode :=
  match sts with
  | [] => []
  | st :: sts =>
      (if existsb firesFirst (senItems st) || xInitialEdge (opt v3Global)
       then [AstAssign (trigAt vscp k WRITE) (AstConst32 1)] else [])
      ++ treeInits vscp (k + 1) sts
  end.

Fixpoint treeDebugs (name : string) (vscp : nat) (k : Z) (sts : list AstSenTree)
    : list AstNode :=
  match sts with
  | [] => []
  | st :: sts => debugIf name vscp k (verilogForTree st) :: treeDebugs name vscp (k + 1) sts
  end.

Fixpoint treeUpdates (shadow : AstNode -> option nat) (seen : list AstNode)
    (sts : list AstSenTree) : list AstNode :=
  match sts with
  | [] => []
  | st :: sts =>
      updatesOf shadow seen (senItems st)
      ++ treeUpdates shadow (seenAfter seen (senItems st)) sts
  end.

Fixpoint seenAfterTrees (seen : list AstNode) (sts : list AstSenTree) : list AstNode :=
  match sts with
  | [] => seen
  | st :: sts => seenAfterTrees (seenAfter seen (senItems st)) sts
  end.

Definition trigTreesFrom (vscp : nat) (k : Z) (len : nat) : list AstSenTree :=
  (fun i => trigTree vscp (k + Z.of_nat i)) <$> seq 0 len.

Lemma trigTreesFrom_S vscp k len :
  trigTreesFrom vscp k (S len) = trigTree vscp k :: trigTreesFrom vscp (k + 1) len.
Proof.
  unfold trigTreesFrom. cbn [seq fmap list_fmap]. rewrite Z.add_0_r. f_equal.
  rewrite <- fmap_S_seq, <- list_fmap_compose. apply list_fmap_ext. intros i x _. simpl.
  f_equal. lia.
Qed.

Definition shadowInits (new : list (AstNode * nat)) : list AstNode :=
  (fun kv => shadowAssign kv.1 kv.2) <$> new.

Lemma treeUpdates_stable sh1 sh2 sts : forall seen,
  (forall st, st ∈ sts -> forall item, item ∈ senItems st -> needsPrev item = true ->
     is_Some (sh1 (sensp item))) ->
  (forall e v, sh1 e = Some v -> sh2 e = Some v) ->
  treeUpdates sh1 seen sts = treeUpdates sh2 seen sts.
Proof.
  induction sts as [|st sts IH]; intros seen Hs Hk; [done|]. cbn [treeUpdates].
  rewrite (updatesOf_stable sh1 sh2); [|apply Hs; by left|done].
  rewrite IH; [done| |done]. intros st' Hin. apply Hs. by right.
Qed.

Lemma treeAssigns_stable sh1 sh2 vscp sts : forall k,
  (forall st, st ∈ sts -> forall item, item ∈ senItems st -> needsPrev item = true ->
     is_Some (sh1 (sensp item))) ->
  (forall e v, sh1 e = Some v -> sh2 e = Some v) ->
  treeAssigns sh1 vscp k sts = treeAssigns sh2 vscp k sts.
Proof.
  induction sts as [|st sts IH]; intros k Hs Hk; [done|]. cbn [treeAssigns].
  rewrite (trigExpr_stable sh1 sh2); [|apply Hs; by left|done].
  rewrite IH; [done| |done]. intros st' Hin. apply Hs. by right.
Qed.

(** The loop of [createTriggers], in full. *)
Lemma createTriggers_loop_full ps : forall b name vscp funcp dumpp k init map n,
  Forall (triggerable v3Global n) ps ->
  is_Some (n_cfuncs n !! m_initp b) -> is_Some (n_cfuncs n !! funcp) ->
  is_Some (n_cfuncs n !! dumpp) ->
  funcp <> m_initp b -> dumpp <> m_initp b -> funcp <> dumpp ->
  0 <= k -> k + Z.of_nat (length ps) < 2 ^ 32 ->
  exists b' sts new vs,
    Forall2 (fun p st => n_senTrees n !! p = Some st) ps sts /\
    createTriggers_loop v3Global b ps name vscp funcp dumpp k init map n
    = Ok ((b', init ++ treeInits vscp k sts, trigMap map ps (length (n_senTrees n))),
          addTo (m_initp b) funcp dumpp
            (mkAdds (trigTreesFrom vscp k (length ps)) vs (shadowInits new)
               (treeAssigns (shadowOf b') vscp k sts) (treeDebugs name vscp k sts)) n) /\
    m_initp b' = m_initp b /\ m_scopeTopp b' = m_scopeTopp b /\
    m_prev b' = m_prev b ++ new /\
    new.*2 = seq (length (n_varScopes n)) (length new) /\
    length vs = length new /\
    Forall (fun v => vsc_scopep v = m_scopeTopp b) vs /\
    (forall st, st ∈ sts -> forall item, item ∈ senItems st -> needsPrev item = true ->
       is_Some (shadowOf b' (sensp item))) /\
    Forall (fun st => is_Some (trigExpr (shadowOf b') st)) sts /\
    m_updates b' = m_updates b ++ treeUpdates (shadowOf b') (m_hasUpdate b) sts /\
    m_hasUpdate b' = seenAfterTrees (m_hasUpdate b) sts.
Proof.
  induction ps as [|p ps IH]; intros b name vscp funcp dumpp k init map n
    Hall Hi Hfn Hd Hne1 Hne2 Hne3 Hk Hlen.
  - exists b, [], [], []. split_and!; auto using Forall2_nil_2.
    + cbn [createTriggers_loop treeInits]. rewrite app_nil_r. do 2 f_equal.
      unfold addTo, trigTreesFrom, shadowInits. cbn -[alter].
      rewrite !alter_addStmtsp_nil, !app_nil_r. by destruct n.
    + by rewrite app_nil_r.
    + intros st Hin. by apply elem_of_nil in Hin.
    + by rewrite app_nil_r.
  - apply Forall_cons in Hall as [(st & Hst & Hcl & Hits & Hex) Hall].
    cbn [length] in Hlen.
    set (n1 := set_senTreesp (fun l => l ++ [length (n_senTrees n)])
                 (set_senTrees (fun l => l ++ [trigTree vscp k]) n)).
    destruct (build_spec v3Global b p n1 st)
      as (r & fired & b1 & n2 & Hb & G & _ & Hr & -> & Hsh).
    { cbn [n1 n_senTrees set_senTreesp set_senTrees]. by apply lookup_app_l_Some. }
    { done. }
    { done. }
    assert (Hupd : m_updates b1 = m_updates b
                     ++ updatesOf (shadowOf b1) (m_hasUpdate b) (senItems st) /\
                   m_hasUpdate b1 = seenAfter (m_hasUpdate b) (senItems st)).
    { pose proof Hb as Hb'. unfold build in Hb'.
      apply bind_Ok_inv in Hb' as (st' & n0 & [Hst' ->]%deref_inv & Hbi).
      cbn [n1 n_senTrees set_senTreesp set_senTrees] in Hst'.
      rewrite (lookup_app_l_Some _ _ _ _ Hst) in Hst'. injection Hst' as <-.
      by apply build_items_updates in Hbi. }
    destruct Hupd as [Hu1 Hh1].
    assert (Hrhs : is_Some r).
    { rewrite Hr. apply trigExpr_is_Some with (v3Global := v3Global); [|done|done].
      eapply Forall_impl; [exact Hits|]. by intros it [? ?]. }
    destruct Hrhs as [rhs ->].
    pose proof (grows_keep _ _ _ _ G) as Hkeep.
    destruct G as (Hi1 & Ht1 & new1 & vs1 & Hp1 & Hseq1 & _ & _ & Hsh1 & _ & Hn2).
    set (assign := AstAssign (trigAt vscp k WRITE) rhs).
    set (dbg := debugIf name vscp k (verilogForTree st)).
    set (n4 := addTo (m_initp b) funcp dumpp
                 (mkAdds [trigTree vscp k] vs1 (shadowInits new1) [assign] [dbg]) n).
    set (init1 := if existsb firesFirst (senItems st) || xInitialEdge (opt v3Global)
                  then init ++ [AstAssign (trigAt vscp k WRITE) (AstConst32 1)] else init).
    assert (Hn4 : set_cfuncs (alter (cf_addStmtsp [dbg]) dumpp)
                    (set_cfuncs (alter (cf_addStmtsp [assign]) funcp) n2) = n4).
    { rewrite Hn2. unfold n4, n1, addTo, shadowInits. by destruct n. }
    destruct Hfn as [f0 Hf0].
    assert (Hf2 : n_cfuncs n2 !! funcp = Some f0).
    { rewrite Hn2. cbn [n1 n_cfuncs set_cfuncs set_varScopes set_senTreesp set_senTrees].
      by rewrite list_lookup_alter_ne. }
    assert (Hd3 : is_Some (n_cfuncs (set_cfuncs (alter (cf_addStmtsp [assign]) funcp) n2)
                             !! dumpp)).
    { rewrite Hn2.
      cbn [n1 n_cfuncs set_cfuncs set_varScopes set_senTreesp set_senTrees].
      by rewrite !alter_is_Some. }
    destruct Hd3 as [fd Hd3].
    assert (Hcf4 : forall i, is_Some (n_cfuncs n4 !! i) <-> is_Some (n_cfuncs n !! i)).
    { intros i. unfold n4, addTo. cbn [n_cfuncs]. by rewrite !alter_is_Some. }
    destruct (IH b1 name vscp funcp dumpp (k + 1) init1 (<[p := length (n_senTrees n)]> map) n4)
      as (b' & sts & new2 & vs2 & Hsts & Hloop & Hi' & Ht' & Hp' & Hseq' & Hlen' & Hvs'
          & Hsh' & Hsome' & Hu' & Hh').
    { eapply Forall_impl; [exact Hall|]. intros q. apply triggerable_mono.
      - by eexists.
      - done.
      - by eexists. }
    { rewrite Hi1. by apply Hcf4. }
    { apply Hcf4. by eexists. }
    { by apply Hcf4. }
    { by rewrite Hi1. }
    { by rewrite Hi1. }
    { done. }
    { lia. }
    { lia. }
    assert (Hkeep' : forall e v, shadowOf b1 e = Some v -> shadowOf b' e = Some v).
    { intros e v He. unfold shadowOf. rewrite Hp'. by apply prev_find_app. }
    assert (Hr' : trigExpr (shadowOf b') st = Some rhs).
    { rewrite Hr. symmetry. by apply trigExpr_stable. }
    exists b', (st :: sts), (new1 ++ new2), (vs1 ++ vs2). split_and!.
    + apply Forall2_cons; split; [done|].
      clear -Hsts Hall. induction Hsts as [|q st' qs sts' Hq _ IHs]; [constructor|].
      apply Forall_cons in Hall as [(st'' & Hq'' & _) Hall]. constructor; [|by apply IHs].
      unfold n4, addTo in Hq. cbn [n_senTrees] in Hq.
      rewrite (lookup_app_l_Some _ _ _ _ Hq'') in Hq. by injection Hq as <-.
    + cbn [createTriggers_loop].
      rewrite (bind_Ok _ _ _ _ _ (getSenTree_Ok _ _ _ Hst)).
      rewrite (bind_Ok _ _ n tt n) by (by rewrite Hcl).
      rewrite (bind_Ok _ _ n (length (n_senTrees n)) n1) by done.
      rewrite (bind_Ok _ _ _ _ _ Hb). cbn beta iota. cbn [fst snd].
      rewrite (bind_Ok _ _ n2 rhs n2) by done.
      rewrite (bind_Ok _ _ _ _ _ (addStmtsp_Ok _ _ _ _ Hf2)).
      unfold addDebug. rewrite (bind_Ok _ _ _ _ _ (addStmtsp_Ok _ _ _ _ Hd3)).
      unfold wrap32. rewrite Z.mod_small by lia.
      change (AstIf (trigAt vscp k READ) _ [] BP_UNKNOWN) with dbg.
      fold assign. rewrite Hn4. fold init1. rewrite Hloop.
      assert (Hl4 : length (n_senTrees n4) = S (length (n_senTrees n))).
      { unfold n4, addTo. cbn [n_senTrees a_trees]. rewrite length_app. simpl. lia. }
      rewrite Hl4, trigMap_cons, Hi1. unfold n4. rewrite addTo_addTo by done.
      unfold adds_app. cbn [a_trees a_vars a_inits a_assigns a_dbgs length].
      rewrite trigTreesFrom_S. cbn [treeInits treeAssigns treeDebugs app].
      rewrite Hr'. cbn [from_option app]. unfold shadowInits. rewrite fmap_app.
      unfold init1. destruct (existsb firesFirst (senItems st) || xInitialEdge (opt v3Global));
        by rewrite <- ?app_assoc.
    + by rewrite Hi', Hi1.
    + by rewrite Ht', Ht1.
    + by rewrite Hp', Hp1, app_assoc.
    + rewrite fmap_app, length_app, seq_app, Hseq1, Hseq'. f_equal.
      unfold n4, addTo. cbn [n_varScopes a_vars]. rewrite length_app.
      by rewrite (shadowsOf_length _ _ _ _ _ _ Hsh1), length_fmap.
    + rewrite !length_app, Hlen'. f_equal.
      by rewrite (shadowsOf_length _ _ _ _ _ _ Hsh1), length_fmap.
    + apply Forall_app. split; [by eapply shadowsOf_scope|]. by rewrite <- Ht1.
    + intros st' [->|Hin]%elem_of_cons item Hin' Hn; [|by eapply Hsh'].
      destruct (Hsh item Hin' Hn) as [v Hv]. exists v. by apply Hkeep'.
    + apply Forall_cons. split; [by rewrite Hr'|done].
    + rewrite Hu', Hu1, Hh1, <- app_assoc. cbn [treeUpdates]. do 2 f_equal.
      apply updatesOf_stable; [done|exact Hkeep'].
    + by rewrite Hh', Hh1.
Qed.

Ltac norm_netlist :=
  cbn [n_topModuleFileline n_scopes n_topScope n_senTreesp n_senTrees n_varScopes n_cfuncs
       n_actives n_typeTable n_evalp n_evalNbap n_dpiExportTriggerp
       set_scopes set_senTreesp set_senTrees set_varScopes set_cfuncs set_actives
       set_typeTable].

Lemma concat_singletons {A B} (f : A -> B) (l : list A) :
  concat ((fun x => [f x]) <$> l) = f <$> l.
Proof. induction l as [|x l IH]; [done|]. csimpl. by f_equal. Qed.

(** The first statement of the dump function. *)
Definition noTriggerIf (vscp : nat) : AstNode :=
  AstIf (AstCMethodHard (AstVarRef vscp READ) "any" [] (Some (bitDType 1)) false false)
    []
    [AstText ("VL_DBG_MSGF(" +:+ dquote +:+ "         No triggers active" +:+ backslash
              +:+ "n" +:+ dquote +:+ ");" +:+ newline) true]
    BP_UNKNOWN.

(** The last statement of the compute function. *)
Definition dumpCall (dumpp : nat) : AstNode :=
  AstTextBlock
    [AstText ("#ifdef VL_DEBUG" +:+ newline) true;
     AstText ("if (VL_UNLIKELY(vlSymsp->_vm_contextp__->debug())) {" +:+ newline) true;
     AstCCall dumpp;
     AstText ("}" +:+ newline) true;
     AstText ("#endif" +:+ newline) true].

(** The statements that fire the triggers [inits] at the first call, and
    their guard variable; there is neither when [inits] is empty. *)
Definition initBlock (didInit : nat) (inits : list AstNode) : list AstNode :=
  match inits with
  | [] => []
  | _ => [AstIf (AstNot (AstVarRef didInit READ))
            (AstAssign (AstVarRef didInit WRITE) (AstConst (bitDType 1) 1) :: inits)
            [] BP_UNLIKELY]
  end.

Definition didInitVar (name : string) (top : nat) (inits : list AstNode) : list AstVarScope :=
  match inits with
  | [] => []
  | _ => [mkVarScope ("__V" +:+ name +:+ "DidInit") top (bitDType 1)]
  end.

Definition newFunc (name : string) (top : nat) (stmts : list AstNode) (slow : bool)
    (ifdef : string) : AstCFunc :=
  mkCFunc name top stmts [] true false true slow false true false ifdef.

(** [createTriggers], in full. *)
Lemma createTriggers_full b ps name extra slow n sc :
  n_scopes n !! n_topScope n = Some sc ->
  is_Some (n_cfuncs n !! m_initp b) ->
  Forall (triggerable v3Global n) ps ->
  0 <= extra -> extra + Z.of_nat (length ps) < 2 ^ 32 ->
  let top := n_topScope n in
  let vscp := length (n_varScopes n) in
  let funcp := length (n_cfuncs n) in
  let dumpp := S funcp in
  let width := extra + Z.of_nat (length ps) in
  exists b1 sts new vs nF,
    Forall2 (fun p st => n_senTrees n !! p = Some st) ps sts /\
    createTriggers v3Global b ps name extra slow n
    = Ok ((mkTriggerKit vscp funcp dumpp (trigMap ∅ ps (length (n_senTrees n))),
           b_setUpdates [] (b_setHasUpdate [] b1)), nF) /\
    (m_initp b1 = m_initp b /\ m_scopeTopp b1 = m_scopeTopp b /\
     m_prev b1 = m_prev b ++ new /\
     new.*2 = seq (S (length (n_varScopes n))) (length new) /\
     length vs = length new /\
     Forall (fun v => vsc_scopep v = m_scopeTopp b) vs /\
     Forall (fun st => is_Some (trigExpr (shadowOf b1) st)) sts /\
     m_updates b1 = m_updates b ++ treeUpdates (shadowOf b1) (m_hasUpdate b) sts) /\
    (n_topModuleFileline nF = n_topModuleFileline n /\ n_topScope nF = top /\
     n_actives nF = n_actives n /\ n_evalp nF = n_evalp n /\
     n_evalNbap nF = n_evalNbap n /\ n_dpiExportTriggerp nF = n_dpiExportTriggerp n /\
     n_typeTable nF = n_typeTable n ++ [mkBasicDType TRIGGERVEC width width] /\
     n_scopes nF = alter (sc_addActivep (BCFunc dumpp)) top
                     (alter (sc_addActivep (BCFunc funcp)) top (n_scopes n)) /\
     n_senTreesp nF = n_senTreesp n ++ seq (length (n_senTrees n)) (length ps) /\
     n_senTrees nF = n_senTrees n ++ trigTreesFrom vscp extra (length ps) /\
     n_varScopes nF
     = n_varScopes n
       ++ [mkVarScope ("__V" +:+ name +:+ "Triggered") top (mkBasicDType TRIGGERVEC width width)]
       ++ vs ++ didInitVar name top (treeInits vscp extra sts)) /\
    (length (n_cfuncs nF) = S (S (length (n_cfuncs n))) /\
     (forall i, (i < length (n_cfuncs n))%nat ->
        n_cfuncs nF !! i = alter (cf_addStmtsp (shadowInits new)) (m_initp b) (n_cfuncs n) !! i) /\
     n_cfuncs nF !! funcp
     = Some (newFunc ("_eval_triggers__" +:+ name) top
               (treeAssigns (shadowOf b1) vscp extra sts ++ m_updates b1
                ++ initBlock (S vscp + length vs) (treeInits vscp extra sts)
                ++ [dumpCall dumpp]) slow EmptyString) /\
     n_cfuncs nF !! dumpp
     = Some (newFunc ("_dump_triggers__" +:+ name) top
               (noTriggerIf vscp
                :: ((fun i => debugIf name vscp (Z.of_nat i) EmptyString)
                      <$> seq 0 (Z.to_nat extra))
                ++ treeDebugs name vscp extra sts) slow "VL_DEBUG")).
Proof.
  intros Hsc Hi Hall Hex Hlen top vscp funcp dumpp width.
  unfold createTriggers. rewrite (bind_Ok _ _ n n n) by done. cbv zeta.
  replace (wrap32 (Z.of_nat (length ps) + extra)) with width
    by (unfold wrap32, width; rewrite Z.mod_small by lia; lia).
  set (vec := mkVarScope ("__V" +:+ name +:+ "Triggered") (n_topScope n)
                (mkBasicDType TRIGGERVEC width width)).
  erewrite bind_Ok; [|reflexivity].
  erewrite bind_Ok; [|reflexivity]. norm_netlist.
  erewrite bind_Ok; [|by eapply makeSubFunction_Ok; exact Hsc]. norm_netlist.
  erewrite bind_Ok;
    [|eapply makeSubFunction_Ok; norm_netlist; by rewrite list_lookup_alter_eq, Hsc].
  norm_netlist.
  erewrite bind_Ok; [|reflexivity]. norm_netlist.
  rewrite length_app. cbn [length]. rewrite Nat.add_1_r.
  fold vscp funcp top. fold dumpp.
  set (F0 := mkCFunc ("_eval_triggers__" +:+ name) top [] [] true false true slow false true
               false EmptyString).
  set (D0 := mkCFunc ("_dump_triggers__" +:+ name) top [] [] true false true slow false true
               false EmptyString).
  match goal with |- context [@mbind _ _ _ _ _ _ ?x] => set (nA := x) end.
  assert (HcfA : n_cfuncs nA = alter (cf_setIfdef "VL_DEBUG") dumpp ((n_cfuncs n ++ [F0]) ++ [D0]))
    by done.
  assert (HlenA : length (n_cfuncs nA) = S (S funcp)).
  { rewrite HcfA, length_alter, !length_app. simpl. unfold funcp. lia. }
  assert (Hinit : (m_initp b < funcp)%nat) by (by apply lookup_lt_is_Some).
  assert (HdA : is_Some (n_cfuncs nA !! dumpp)).
  { apply lookup_lt_is_Some. rewrite HlenA. unfold dumpp. lia. }
  destruct HdA as [fd HdA].
  rewrite (bind_Ok _ _ _ _ _ (addStmtsp_Ok _ _ _ _ HdA)).
  unfold addDebug. cbv zeta.
  erewrite bind_Ok;
    [|apply forM_addStmtsp; norm_netlist; rewrite alter_is_Some; by eexists].
  rewrite set_cfuncs_alter_addStmtsp.
  change (AstIf (AstCMethodHard (AstVarRef vscp READ) "any" [] (Some (bitDType 1)) false false)
            [] _ BP_UNKNOWN) with (noTriggerIf vscp).
  change (fun x : nat => [AstIf (trigAt vscp (Z.of_nat x) READ) _ [] BP_UNKNOWN])
    with (fun x : nat => [debugIf name vscp (Z.of_nat x) EmptyString]).
  rewrite (concat_singletons (fun x => debugIf name vscp (Z.of_nat x) EmptyString)).
  set (pre := [noTriggerIf vscp]
              ++ ((fun x => debugIf name vscp (Z.of_nat x) EmptyString) <$> seq 0 (Z.to_nat extra))).
  match goal with |- context [@mbind _ _ _ _ _ _ ?x] => set (nP := x) end.
  assert (HcfP : n_cfuncs nP = alter (cf_addStmtsp pre) dumpp (n_cfuncs nA)) by done.
  assert (HsenP : n_senTrees nP = n_senTrees n) by done.
  assert (HvsP : n_varScopes nP = n_varScopes n ++ [vec]) by done.
  assert (HfP : n_cfuncs nP !! funcp = Some F0).
  { rewrite HcfP, HcfA. rewrite !list_lookup_alter_ne by (unfold dumpp; lia).
    rewrite lookup_app_l by (rewrite length_app; simpl; unfold funcp; lia).
    by rewrite list_lookup_middle. }
  assert (HdP : n_cfuncs nP !! dumpp
                = Some (cf_addStmtsp pre (cf_setIfdef "VL_DEBUG" D0))).
  { rewrite HcfP, HcfA. rewrite !list_lookup_alter_eq.
    rewrite (list_lookup_middle _ _ _ dumpp) by (rewrite length_app; simpl; unfold dumpp, funcp; lia).
    done. }
  destruct (createTriggers_loop_full ps b name vscp funcp dumpp extra [] ∅ nP)
    as (b1 & sts & new & vs & Hsts & Hloop & Hi1 & Ht1 & Hp1 & Hseq1 & Hlen1 & Hvs1 & _
        & Hsome1 & Hu1 & _).
  { eapply Forall_impl; [exact Hall|]. intros q. apply triggerable_scopes; [done| |by eexists].
    intros i. unfold nP, nA. norm_netlist. by rewrite !alter_is_Some. }
  { rewrite HcfP, HcfA, !alter_is_Some. apply lookup_lt_is_Some. rewrite !length_app. simpl.
    fold funcp. lia. }
  { by eexists. }
  { by eexists. }
  { lia. }
  { unfold dumpp. lia. }
  { unfold dumpp. lia. }
  { done. }
  { done. }
  rewrite (bind_Ok _ _ _ _ _ Hloop). cbn beta iota. unfold getAndClearUpdates. cbn beta iota.
  rewrite HsenP, app_nil_l.
  set (adds := mkAdds (trigTreesFrom vscp extra (length ps)) vs (shadowInits new)
                 (treeAssigns (shadowOf b1) vscp extra sts) (treeDebugs name vscp extra sts)).
  set (nL := addTo (m_initp b) funcp dumpp adds nP).
  set (inits := treeInits vscp extra sts).
  assert (HcfL : n_cfuncs nL
                 = alter (cf_addStmtsp (treeDebugs name vscp extra sts)) dumpp
                     (alter (cf_addStmtsp (treeAssigns (shadowOf b1) vscp extra sts)) funcp
                        (alter (cf_addStmtsp (shadowInits new)) (m_initp b) (n_cfuncs nP))))
    by done.
  assert (HfL : n_cfuncs nL !! funcp
                = Some (cf_addStmtsp (treeAssigns (shadowOf b1) vscp extra sts) F0)).
  { rewrite HcfL. rewrite list_lookup_alter_ne by (unfold dumpp; lia).
    rewrite list_lookup_alter_eq, list_lookup_alter_ne by lia. by rewrite HfP. }
  erewrite bind_Ok; [|apply forM_addStmtsp; by eexists].
  rewrite (concat_singletons (fun x => x)), list_fmap_id.
  set (nU := set_cfuncs (alter (cf_addStmtsp (m_updates b1)) funcp) nL).
  assert (HfU : n_cfuncs nU !! funcp
                = Some (cf_addStmtsp (m_updates b1)
                          (cf_addStmtsp (treeAssigns (shadowOf b1) vscp extra sts) F0))).
  { unfold nU. norm_netlist. by rewrite list_lookup_alter_eq, HfL. }
  assert (HvsU : n_varScopes nU = n_varScopes n ++ [vec] ++ vs).
  { unfold nU, nL, addTo. norm_netlist. cbn [a_vars adds]. by rewrite HvsP, <- app_assoc. }
  assert (Hmid : exists nM,
    (match inits with
     | [] => mret tt
     | _ :: _ =>
         didInit ← createTemp (n_topScope n) ("__V" +:+ name +:+ "DidInit") (bitDType 1);
         setp ← setVar didInit 1;
         addStmtsp funcp
           [AstIf (AstNot (AstVarRef didInit READ)) (setp :: inits) [] BP_UNLIKELY]
     end : M AstNetlist unit) nU = Ok (tt, nM) /\
    nM = set_cfuncs (alter (cf_addStmtsp (initBlock (S vscp + length vs) inits)) funcp)
           (set_varScopes (fun l => l ++ didInitVar name top inits) nU)).
  { destruct inits as [|t inits'] eqn:Hin.
    - exists nU. split; [done|]. cbn [initBlock didInitVar].
      rewrite set_cfuncs_addStmtsp_nil. destruct nU; unfold set_varScopes; simpl.
      by rewrite app_nil_r.
    - erewrite bind_Ok; [|reflexivity].
      erewrite bind_Ok; [|apply setVar_Ok; norm_netlist; by apply list_lookup_middle].
      eexists. split.
      + eapply addStmtsp_Ok. norm_netlist. exact HfU.
      + cbn [initBlock didInitVar vsc_dtypep].
        replace (length (n_varScopes nU)) with (S vscp + length vs)%nat; [done|].
        rewrite HvsU, !length_app. simpl. unfold vscp. lia. }
  destruct Hmid as (nM & Hmid & HnM).
  rewrite (bind_Ok _ _ _ _ _ Hmid).
  assert (HfM : n_cfuncs nM !! funcp
                = Some (cf_addStmtsp (initBlock (S vscp + length vs) inits)
                          (cf_addStmtsp (m_updates b1)
                             (cf_addStmtsp (treeAssigns (shadowOf b1) vscp extra sts) F0)))).
  { rewrite HnM. norm_netlist. by rewrite list_lookup_alter_eq, HfU. }
  rewrite (bind_Ok _ _ _ _ _ (addStmtsp_Ok _ _ _ _ HfM)).
  change (AstTextBlock _) with (dumpCall dumpp).
  eexists b1, sts, new, vs, _. split; [done|]. split; [reflexivity|].
  assert (HcfF : n_cfuncs (set_cfuncs (alter (cf_addStmtsp [dumpCall dumpp]) funcp) nM)
                 = alter (cf_addStmtsp [dumpCall dumpp]) funcp
                     (alter (cf_addStmtsp (initBlock (S vscp + length vs) inits)) funcp
                        (alter (cf_addStmtsp (m_updates b1)) funcp (n_cfuncs nL)))).
  { by rewrite HnM. }
  split; [|split].
  - split_and!; auto.
    rewrite Hseq1, HvsP, length_app. simpl. f_equal. lia.
  - rewrite HnM. unfold nU, nL, addTo, nP, nA. norm_netlist. cbn [a_trees a_vars adds].
    split_and!; try done.
    + unfold trigTreesFrom. by rewrite length_fmap, length_seq.
    + by rewrite <- !app_assoc.
  - rewrite HcfF, HcfL, HcfP, HcfA. split_and!.
    + rewrite !length_alter, !length_app. simpl. lia.
    + intros i Hlt. do 5 (rewrite list_lookup_alter_ne by (unfold dumpp; lia)).
      unfold funcp in Hlt. destruct (decide (m_initp b = i)) as [<-|Hne].
      * rewrite !list_lookup_alter_eq.
        do 2 (rewrite (list_lookup_alter_ne _ _ dumpp) by (unfold dumpp, funcp; lia)).
        by rewrite !lookup_app_l by (rewrite ?length_app; simpl; lia).
      * rewrite !(list_lookup_alter_ne _ _ (m_initp b) i) by done.
        do 2 (rewrite (list_lookup_alter_ne _ _ dumpp) by (unfold dumpp, funcp; lia)).
        by rewrite !lookup_app_l by (rewrite ?length_app; simpl; lia).
    + rewrite !list_lookup_alter_eq.
      rewrite (list_lookup_alter_ne _ _ dumpp funcp) by (unfold dumpp; lia).
      rewrite list_lookup_alter_eq.
      rewrite (list_lookup_alter_ne _ _ (m_initp b) funcp) by lia.
      do 2 (rewrite (list_lookup_alter_ne _ _ dumpp funcp) by (unfold dumpp; lia)).
      rewrite lookup_app_l by (rewrite length_app; simpl; unfold funcp; lia).
      rewrite list_lookup_middle by done. cbn [fmap option_fmap option_map].
      unfold newFunc, cf_addStmtsp, F0. cbn [cf_name cf_scopep cf_stmtsp cf_finalsp
        cf_dontCombine cf_isStatic cf_isLoose cf_slow cf_isConst cf_declPrivate cf_entryPoint
        cf_ifdef app]. by rewrite <- !app_assoc.
    + do 3 (rewrite (list_lookup_alter_ne _ _ funcp dumpp) by (unfold dumpp; lia)).
      rewrite list_lookup_alter_eq.
      rewrite (list_lookup_alter_ne _ _ funcp dumpp) by (unfold dumpp; lia).
      rewrite (list_lookup_alter_ne _ _ (m_initp b) dumpp) by (unfold dumpp; lia).
      rewrite !list_lookup_alter_eq.
      rewrite (list_lookup_middle _ _ _ dumpp)
        by (rewrite length_app; simpl; unfold dumpp, funcp; lia).
      done.
Qed.


(** X6: the dump function is compiled under [VL_DEBUG]; it reports that no
    trigger is active, then has one message for each extra trigger, of the
    indices below [extra], and then one for each tree, at its own index and
    with the text of its sensitivity list. *)
Theorem createTriggers_dump_function b ps name extra slow n sc :
  n_scopes n !! n_topScope n = Some sc ->
  is_Some (n_cfuncs n !! m_initp b) ->
  Forall (triggerable v3Global n) ps ->
  0 <= extra -> extra + Z.of_nat (length ps) < 2 ^ 32 ->
  exists kit b' n' sts,
    createTriggers v3Global b ps name extra slow n = Ok ((kit, b'), n') /\
    Forall2 (fun p st => n_senTrees n !! p = Some st) ps sts /\
    n_cfuncs n' !! m_dumpp kit
    = Some (newFunc ("_dump_triggers__" +:+ name) (n_topScope n)
              (noTriggerIf (m_vscp kit)
               :: ((fun i => debugIf name (m_vscp kit) (Z.of_nat i) EmptyString)
                     <$> seq 0 (Z.to_nat extra))
               ++ treeDebugs name (m_vscp kit) extra sts) slow "VL_DEBUG").
Proof.
  intros Hsc Hi Hall Hex Hlen.
  destruct (createTriggers_full b ps name extra slow n sc Hsc Hi Hall Hex Hlen)
    as (b1 & sts & new & vs & nF & Hsts & Hrun & _ & _ & (_ & _ & _ & Hd)).
  eexists _, _, nF, sts. split; [exact Hrun|]. by split.
Qed.

(** X7: what [createTriggers] leaves alone: it links its two functions at the
    end of the top scope and changes no other scope; the variables, the
    sensitivity trees and the functions that were there keep their places
    and, but for the initializers added to the builder's initialization
    function, their contents; and no active block is touched. *)
Theorem createTriggers_frame b ps name extra slow n sc :
  n_scopes n !! n_topScope n = Some sc ->
  is_Some (n_cfuncs n !! m_initp b) ->
  Forall (triggerable v3Global n) ps ->
  0 <= extra -> extra + Z.of_nat (length ps) < 2 ^ 32 ->
  exists kit b' n',
    createTriggers v3Global b ps name extra slow n = Ok ((kit, b'), n') /\
    n_topScope n' = n_topScope n /\ n_actives n' = n_actives n /\
    n_scopes n' !! n_topScope n
    = Some (mkScope (sc_nameDotless sc)
              (sc_activesp sc ++ [BCFunc (m_funcp kit); BCFunc (m_dumpp kit)])) /\
    (forall i, i <> n_topScope n -> n_scopes n' !! i = n_scopes n !! i) /\
    (forall i x, n_varScopes n !! i = Some x -> n_varScopes n' !! i = Some x) /\
    (forall i x, n_senTrees n !! i = Some x -> n_senTrees n' !! i = Some x) /\
    (forall i f, n_cfuncs n !! i = Some f -> i <> m_initp b -> n_cfuncs n' !! i = Some f) /\
    (forall f, n_cfuncs n !! m_initp b = Some f ->
       exists new, n_cfuncs n' !! m_initp b = Some (cf_addStmtsp (shadowInits new) f) /\
         m_prev b' = m_prev b ++ new).
Proof.
  intros Hsc Hi Hall Hex Hlen.
  destruct (createTriggers_full b ps name extra slow n sc Hsc Hi Hall Hex Hlen)
    as (b1 & sts & new & vs & nF & Hsts & Hrun & (_ & _ & Hp & _)
        & (_ & Htop & Hact & _ & _ & _ & _ & Hscs & _ & Hsen & Hvs) & (_ & Hold & _ & _)).
  eexists _, _, nF. split; [exact Hrun|].
  cbn [m_vscp m_funcp m_dumpp m_prev b_setUpdates b_setHasUpdate].
  split_and!; try done.
  - rewrite Hscs, !list_lookup_alter_eq, Hsc. simpl. unfold sc_addActivep. simpl.
    by rewrite <- app_assoc.
  - intros i Hne. by rewrite Hscs, !list_lookup_alter_ne.
  - intros i x Hx. rewrite Hvs. by apply lookup_app_l_Some.
  - intros i x Hx. rewrite Hsen. by apply lookup_app_l_Some.
  - intros i f Hf Hne. rewrite Hold by (by eapply lookup_lt_Some).
    by rewrite list_lookup_alter_ne.
  - intros f Hf. exists new. split; [|done].
    rewrite Hold by (by eapply lookup_lt_Some). by rewrite list_lookup_alter_eq, Hf.
Qed.



Lemma addStmtsp_inv funcp stmts n u n' :
  addStmtsp funcp stmts n = Ok (u, n') ->
  n' = set_cfuncs (alter (cf_addStmtsp stmts) funcp) n.
Proof.
  unfold addStmtsp. intros H. apply bind_Ok_inv in H as (f & n1 & [_ ->]%deref_inv & H).
  by injection H as <-.
Qed.

Lemma forM_senTrees {A} (f : A -> M AstNetlist unit) (l : list A) :
  (forall x n u n', f x n = Ok (u, n') -> n_senTrees n' = n_senTrees n) ->
  forall n u n', forM_ l f n = Ok (u, n') -> n_senTrees n' = n_senTrees n.
Proof.
  intros Hf. induction l as [|x l IH]; intros n u n' H.
  - by injection H as <- <-.
  - cbn [forM_] in H. apply bind_Ok_inv in H as (u1 & n1 & H1 & H).
    rewrite (IH _ _ _ H). by eapply Hf.
Qed.

Lemma makeSubFunction_senTrees fname slow n p n' :
  makeSubFunction fname slow n = Ok (p, n') -> n_senTrees n' = n_senTrees n.
Proof.
  unfold makeSubFunction, newCFunc, addActivep. intros H.
  apply bind_Ok_inv in H as (n0 & n1 & [= <- <-] & H).
  apply bind_Ok_inv in H as (q & n2 & [= <- <-] & H).
  apply bind_Ok_inv in H as ([] & n3 & H3 & [= <- <-]).
  apply bind_Ok_inv in H3 as (s & n4 & [_ ->]%deref_inv & [= <-]). done.
Qed.

Lemma createTriggers_loop_clocked ps : forall b name vscp funcp dumpp k init map n r n',
  createTriggers_loop v3Global b ps name vscp funcp dumpp k init map n = Ok (r, n') ->
  forall p st, p ∈ ps -> n_senTrees n !! p = Some st -> hasClocked st || hasHybrid st = true.
Proof.
  induction ps as [|q ps IH]; intros b name vscp funcp dumpp k init map n r n' H p st Hin Hst.
  { by apply elem_of_nil in Hin. }
  cbn [createTriggers_loop] in H.
  apply bind_Ok_inv in H as (st0 & n0 & [Hst0 ->]%deref_inv & H).
  apply bind_Ok_inv in H as ([] & n0 & [Hcl ->]%UASSERT_inv & H).
  apply bind_Ok_inv in H as (tp & n1 & [= <- <-] & H).
  apply bind_Ok_inv in H as ([[r0 fired] b1] & n2 & Hb & H).
  unfold build in Hb. apply bind_Ok_inv in Hb as (st1 & n0 & [_ ->]%deref_inv & Hb).
  apply build_items_inv in Hb as (G & _). apply grows_netlist in G as (_ & Hsen & _).
  apply bind_Ok_inv in H as (rhs & n3 & Hrhs & H).
  assert (n3 = n2) as ->.
  { cbn [fst] in Hrhs. destruct r0; [by injection Hrhs as <- <-|done]. }
  apply bind_Ok_inv in H as ([] & n4 & ->%addStmtsp_inv & H).
  apply bind_Ok_inv in H as ([] & n5 & ->%addStmtsp_inv & H).
  apply elem_of_cons in Hin as [->|Hin].
  - rewrite Hst0 in Hst. by injection Hst as <-.
  - eapply IH; [exact H|exact Hin|].
    cbn [n_senTrees set_cfuncs]. rewrite Hsen. cbn [n_senTrees set_senTreesp set_senTrees].
    by apply lookup_app_l_Some.
Qed.

(** X10: [createTriggers] aborts when one of the trees is neither clocked nor
    hybrid: no trigger is made for combinational, static, initial or final
    sensitivity lists. *)
Theorem createTriggers_rejects_unclocked b ps name extra slow n p st :
  p ∈ ps -> n_senTrees n !! p = Some st -> hasClocked st || hasHybrid st = false ->
  exists msg, createTriggers v3Global b ps name extra slow n = Fatal msg.
Proof.
  intros Hin Hst Hcl.
  destruct (createTriggers v3Global b ps name extra slow n) as [[r n']|msg] eqn:H;
    [|by eexists].
  exfalso. unfold createTriggers in H.
  apply bind_Ok_inv in H as (n0 & n1 & [= <- <-] & H). cbv zeta in H.
  apply bind_Ok_inv in H as ([] & n1 & [= <-] & H).
  apply bind_Ok_inv in H as (vscp & n2 & [= <- <-] & H).
  apply bind_Ok_inv in H as (funcp & n3 & Hf%makeSubFunction_senTrees & H).
  apply bind_Ok_inv in H as (dumpp & n4 & Hd%makeSubFunction_senTrees & H).
  apply bind_Ok_inv in H as ([] & n5 & [= <-] & H).
  apply bind_Ok_inv in H as ([] & n6 & ->%addStmtsp_inv & H).
  apply bind_Ok_inv in H as ([] & n7 & Hx & H).
  apply forM_senTrees in Hx; [|by intros x m u m' ->%addStmtsp_inv].
  apply bind_Ok_inv in H as (r1 & n8 & Hloop & _).
  rewrite (createTriggers_loop_clocked _ _ _ _ _ _ _ _ _ _ _ _ Hloop p st Hin) in Hcl; [done|].
  rewrite Hx. cbn [n_senTrees set_cfuncs]. rewrite Hd, Hf. done.
Qed.

End TriggerFull.

(** ** Remapping the sensitivities onto the triggers *)

Section RemapFacts.
Context {Q : AstQueries}.

(** One step of the loop of [remapSensitivities]. *)
Definition remapStep (senTreeMap : gmap nat nat) (pr : nat * nat) : M AstNetlist unit :=
  active ← getActive pr.2;
  senTree ← getSenTree (act_sensesp active);
  if hasCombo senTree then mret tt
  else
    match senTreeMap !! act_sensesp active with
    | Some newp => modify (set_actives (alter (fmap (act_setSensesp newp)) pr.2))
    | None => fatal "std::out_of_range"
    end.

Lemma remapStep_inv senTreeMap pr n u n' :
  remapStep senTreeMap pr n = Ok (u, n') ->
  exists act st,
    mjoin (n_actives n !! pr.2) = Some act /\ n_senTrees n !! act_sensesp act = Some st /\
    ((hasCombo st = true /\ n' = n) \/
     (hasCombo st = false /\ exists newp, senTreeMap !! act_sensesp act = Some newp /\
        n' = set_actives (alter (fmap (act_setSensesp newp)) pr.2) n)).
Proof.
  unfold remapStep. intros H.
  apply bind_Ok_inv in H as (act & n0 & [Hact ->]%deref_inv & H).
  apply bind_Ok_inv in H as (st & n0 & [Hst ->]%deref_inv & H).
  exists act, st. split; [done|]. split; [done|].
  destruct (hasCombo st); [left; by injection H as <- <-|right].
  split; [done|]. destruct (senTreeMap !! act_sensesp act) as [newp|]; [|done].
  exists newp. split; [done|]. by injection H as <- <-.
Qed.

Lemma remapStep_frame senTreeMap pr n u n' :
  remapStep senTreeMap pr n = Ok (u, n') ->
  n_senTrees n' = n_senTrees n /\
  (forall a, a <> pr.2 -> n_actives n' !! a = n_actives n !! a).
Proof.
  intros (act & st & _ & _ & [[_ ->]|(_ & newp & _ & ->)])%remapStep_inv; [done|].
  split; [done|]. intros a Ha. cbn [n_actives set_actives]. by rewrite list_lookup_alter_ne.
Qed.

Lemma remapSensitivities_inv lbs senTreeMap n u n' :
  remapSensitivities lbs senTreeMap n = Ok (u, n') ->
  NoDup lbs.*2 ->
  n' = set_actives (fun _ => n_actives n') n /\
  (forall a, a ∉ lbs.*2 -> n_actives n' !! a = n_actives n !! a) /\
  (forall pr, pr ∈ lbs ->
     exists act st,
       mjoin (n_actives n !! pr.2) = Some act /\ n_senTrees n !! act_sensesp act = Some st /\
       if hasCombo st then mjoin (n_actives n' !! pr.2) = Some act
       else exists newp, senTreeMap !! act_sensesp act = Some newp /\
              mjoin (n_actives n' !! pr.2) = Some (mkActive newp (act_stmtsp act))).
Proof.
  unfold remapSensitivities. change (fun pr : nat * nat => _) with (remapStep senTreeMap).
  revert n. induction lbs as [|pr lbs IH]; intros n H Hnd.
  - injection H as <- <-. split_and!; [by destruct n|done|].
    intros pr Hin. by apply elem_of_nil in Hin.
  - cbn [forM_] in H. apply bind_Ok_inv in H as ([] & n1 & H1 & H).
    rewrite fmap_cons in Hnd. apply NoDup_cons in Hnd as [Hnin Hnd].
    destruct (IH _ H Hnd) as (Hn' & Hout & Hin).
    pose proof (remapStep_frame _ _ _ _ _ H1) as [Hsen Hact].
    apply remapStep_inv in H1 as (act & st & Ha & Hs & Hcase).
    split_and!.
    + rewrite Hn'. destruct Hcase as [[_ ->]|(_ & newp & _ & ->)]; by destruct n.
    + intros a [Hne Ha']%not_elem_of_cons. rewrite Hout by done. by apply Hact.
    + intros pr' [->|Hpr]%elem_of_cons.
      * exists act, st. split; [done|]. split; [done|]. rewrite Hout by done.
        destruct Hcase as [[-> ->]|(-> & newp & Hm & ->)]; [done|].
        exists newp. split; [done|]. cbn [n_actives set_actives].
        rewrite list_lookup_alter_eq. destruct (n_actives n !! pr.2) as [[a0|]|]; try done.
        simpl in Ha. by injection Ha as ->.
      * destruct (Hin pr' Hpr) as (act' & st' & Ha' & Hs' & Hres).
        assert (Hne : pr'.2 <> pr.2).
        { intros E. apply Hnin. rewrite <- E. apply list_elem_of_fmap. by exists pr'. }
        exists act', st'. rewrite <- (Hact _ Hne), <- Hsen. by split_and!.
Qed.

Lemma remapSensitivities_ok lbs senTreeMap : forall n,
  NoDup lbs.*2 ->
  (forall pr, pr ∈ lbs ->
     exists act st,
       mjoin (n_actives n !! pr.2) = Some act /\ n_senTrees n !! act_sensesp act = Some st /\
       (hasCombo st = false -> is_Some (senTreeMap !! act_sensesp act))) ->
  exists n', remapSensitivities lbs senTreeMap n = Ok (tt, n').
Proof.
  unfold remapSensitivities. change (fun pr : nat * nat => _) with (remapStep senTreeMap).
  induction lbs as [|pr lbs IH]; intros n Hnd Hv; [by eexists|].
  rewrite fmap_cons in Hnd. apply NoDup_cons in Hnd as [Hnin Hnd].
  destruct (Hv pr) as (act & st & Ha & Hs & Hk); [by left|].
  assert (H1 : exists n1, remapStep senTreeMap pr n = Ok (tt, n1)).
  { unfold remapStep. rewrite (bind_Ok _ _ _ _ _ (getActive_Ok _ _ _ Ha)).
    rewrite (bind_Ok _ _ _ _ _ (getSenTree_Ok _ _ _ Hs)).
    destruct (hasCombo st); [by eexists|]. destruct Hk as [newp ->]; [done|]. by eexists. }
  destruct H1 as [n1 H1]. pose proof (remapStep_frame _ _ _ _ _ H1) as [Hsen Hact].
  destruct (IH n1 Hnd) as [n' Hrest].
  - intros pr' Hpr. destruct (Hv pr') as (act' & st' & Ha' & Hs' & Hk'); [by right|].
    exists act', st'. rewrite Hsen, Hact; [done|].
    intros E. apply Hnin. rewrite <- E. apply list_elem_of_fmap. by exists pr'.
  - exists n'. cbn [forM_]. by rewrite (bind_Ok _ _ _ _ _ H1).
Qed.

(** X11: [remapSensitivities] returns when no block is listed twice, the blocks
    and their trees exist, and the map has an entry for the tree of every
    block that is not combinational; every such block then senses the tree that the
    map gives for the tree it sensed before, and keeps its statements; the
    combinational blocks of the list, the blocks that are not listed and
    everything else in the netlist are as they were. *)
Theorem remapSensitivities_remaps lbs senTreeMap n :
  NoDup lbs.*2 ->
  (forall pr, pr ∈ lbs ->
     exists act st,
       mjoin (n_actives n !! pr.2) = Some act /\ n_senTrees n !! act_sensesp act = Some st /\
       (hasCombo st = false -> is_Some (senTreeMap !! act_sensesp act))) ->
  exists n',
    remapSensitivities lbs senTreeMap n = Ok (tt, n') /\
    n' = set_actives (fun _ => n_actives n') n /\
    (forall a, a ∉ lbs.*2 -> n_actives n' !! a = n_actives n !! a) /\
    (forall pr, pr ∈ lbs ->
       exists act st,
         mjoin (n_actives n !! pr.2) = Some act /\ n_senTrees n !! act_sensesp act = Some st /\
         if hasCombo st then mjoin (n_actives n' !! pr.2) = Some act
         else exists newp, senTreeMap !! act_sensesp act = Some newp /\
                mjoin (n_actives n' !! pr.2) = Some (mkActive newp (act_stmtsp act))).
Proof.
  intros Hnd Hv. destruct (remapSensitivities_ok lbs senTreeMap n Hnd Hv) as [n' H].
  exists n'. split; [done|]. by eapply remapSensitivities_inv.
Qed.

(** X12: [remapSensitivities] aborts when the map has no entry for the tree of a
    block of the list that is not combinational: the lookup is [at]. *)
Theorem remapSensitivities_missing_key lbs senTreeMap n pr act st :
  NoDup lbs.*2 -> pr ∈ lbs ->
  mjoin (n_actives n !! pr.2) = Some act -> n_senTrees n !! act_sensesp act = Some st ->
  hasCombo st = false -> senTreeMap !! act_sensesp act = None ->
  exists msg, remapSensitivities lbs senTreeMap n = Fatal msg.
Proof.
  intros Hnd Hin Ha Hs Hc Hm.
  destruct (remapSensitivities lbs senTreeMap n) as [[u n']|msg] eqn:H; [|by eexists].
  exfalso. apply remapSensitivities_inv in H as (_ & _ & Hall); [|done].
  destruct (Hall pr Hin) as (act' & st' & Ha' & Hs' & Hres).
  rewrite Ha in Ha'. injection Ha' as <-. rewrite Hs in Hs'. injection Hs' as <-.
  rewrite Hc in Hres. destruct Hres as (newp & Hm' & _). by rewrite Hm in Hm'.
Qed.

(** One step of the loop of [invertAndMergeSenTreeMap]. *)
Definition invertStep (first second : nat) (acc : M AstNetlist (gmap nat nat))
    : M AstNetlist (gmap nat nat) :=
  result ← acc;
  t ← getSenTree second;
  UASSERT_OBJ (bool_decide (sensesp_nextp t = [])) "Should be single AstSenIem";;
  mret (match result !! second with
        | Some _ => result
        | None => <[second := first]> result
        end).

(** The tree at [v] has a single item. *)
Definition singleItem (n : AstNetlist) (v : nat) : Prop :=
  exists t, n_senTrees n !! v = Some t /\ sensesp_nextp t = [].

Lemma invertStep_Ok first second acc n r :
  acc n = Ok (r, n) -> singleItem n second ->
  invertStep first second acc n
  = Ok (match r !! second with Some _ => r | None => <[second := first]> r end, n).
Proof.
  intros Hacc (t & Ht & Hs). unfold invertStep.
  rewrite (bind_Ok _ _ _ _ _ Hacc), (bind_Ok _ _ _ _ _ (getSenTree_Ok _ _ _ Ht)).
  rewrite (bind_Ok _ _ n tt n); [done|]. by rewrite bool_decide_true.
Qed.

Lemma invertStep_inv first second acc n r' n' :
  invertStep first second acc n = Ok (r', n') ->
  exists r n1, acc n = Ok (r, n1) /\ singleItem n1 second /\ n' = n1.
Proof.
  unfold invertStep. intros H. apply bind_Ok_inv in H as (r & n1 & Hacc & H).
  apply bind_Ok_inv in H as (t & n2 & [Ht ->]%deref_inv & H).
  apply bind_Ok_inv in H as ([] & n2 & [Hs%bool_decide_eq_true ->]%UASSERT_inv & H).
  injection H as _ <-. exists r, n1. split; [done|]. split; [by exists t|done].
Qed.

Lemma invertAndMergeSenTreeMap_spec result senTreeMap n :
  (forall k v, senTreeMap !! k = Some v -> singleItem n v) ->
  exists r,
    invertAndMergeSenTreeMap result senTreeMap n = Ok (r, n) /\
    result ⊆ r /\
    (forall k v, senTreeMap !! k = Some v -> is_Some (r !! v)) /\
    (forall v k, r !! v = Some k -> result !! v = Some k \/ senTreeMap !! k = Some v) /\
    ((forall k1 k2 v, senTreeMap !! k1 = Some v -> senTreeMap !! k2 = Some v -> k1 = k2) ->
     (forall k v, senTreeMap !! k = Some v -> result !! v = None) ->
     forall k v, senTreeMap !! k = Some v -> r !! v = Some k).
Proof.
  unfold invertAndMergeSenTreeMap.
  change (fun first second acc => _) with invertStep.
  apply (map_fold_weak_ind
    (fun acc m =>
       (forall k v, m !! k = Some v -> singleItem n v) ->
       exists r, acc n = Ok (r, n) /\ result ⊆ r /\
         (forall k v, m !! k = Some v -> is_Some (r !! v)) /\
         (forall v k, r !! v = Some k -> result !! v = Some k \/ m !! k = Some v) /\
         ((forall k1 k2 v, m !! k1 = Some v -> m !! k2 = Some v -> k1 = k2) ->
          (forall k v, m !! k = Some v -> result !! v = None) ->
          forall k v, m !! k = Some v -> r !! v = Some k))).
  - intros _. exists result. split_and!; [done|done|..].
    + intros k v Hk. by rewrite lookup_empty in Hk.
    + intros v k Hv. by left.
    + intros _ _ k v Hk. by rewrite lookup_empty in Hk.
  - intros i x m acc Hi IH Hv.
    destruct IH as (r & Hacc & Hsub & Hval & Hfrom & Hinj).
    { intros k v Hk. apply (Hv k). rewrite lookup_insert_ne; [done|]. intros ->.
      by rewrite Hi in Hk. }
    eexists. split; [apply invertStep_Ok; [exact Hacc|apply (Hv i); by rewrite lookup_insert_eq]|].
    assert (Hne : forall k v, m !! k = Some v -> k <> i).
    { intros k v Hk ->. by rewrite Hi in Hk. }
    destruct (r !! x) as [k0|] eqn:Hrx.
    + split_and!; [done|..].
      * intros k v [[-> ->]|[Hki Hk]]%lookup_insert_Some; [by rewrite Hrx|by eapply Hval].
      * intros v k Hr. destruct (Hfrom v k Hr) as [?|Hm]; [by left|right].
        rewrite lookup_insert_ne; [done|]. intros ->. by rewrite Hi in Hm.
      * intros Hinj' Hnone k v Hk. exfalso.
        destruct (Hfrom x k0 Hrx) as [Hres|Hm].
        -- rewrite (Hnone i x) in Hres; [done|]. by rewrite lookup_insert_eq.
        -- apply (Hne k0 x Hm). apply (Hinj' k0 i x).
           ++ rewrite lookup_insert_ne; [done|]. intros ->. by apply (Hne k0 x).
           ++ by rewrite lookup_insert_eq.
    + split_and!.
      * etrans; [exact Hsub|]. by apply insert_subseteq.
      * intros k v [[-> ->]|[Hki Hk]]%lookup_insert_Some; [by rewrite lookup_insert_eq|].
        destruct (decide (v = x)) as [->|Hvx]; [by rewrite lookup_insert_eq|].
        rewrite lookup_insert_ne by done. by eapply Hval.
      * intros v k [[-> ->]|[Hvx Hr]]%lookup_insert_Some.
        -- right. by rewrite lookup_insert_eq.
        -- destruct (Hfrom v k Hr) as [?|Hm]; [by left|right].
           rewrite lookup_insert_ne; [done|]. intros ->. by apply (Hne k v).
      * intros Hinj' Hnone k v [[-> ->]|[Hki Hk]]%lookup_insert_Some.
        -- by rewrite lookup_insert_eq.
        -- destruct (decide (v = x)) as [->|Hvx].
           ++ exfalso. apply Hki. symmetry. apply (Hinj' k i x).
              ** by rewrite lookup_insert_ne.
              ** by rewrite lookup_insert_eq.
           ++ rewrite lookup_insert_ne by done. apply Hinj; [| |done].
              ** intros k1 k2 v' H1 H2. apply (Hinj' k1 k2 v').
                 --- rewrite lookup_insert_ne; [done|]. intros ->. by apply (Hne _ _ H1).
                 --- rewrite lookup_insert_ne; [done|]. intros ->. by apply (Hne _ _ H2).
              ** intros k' v' H'. apply (Hnone k'). rewrite lookup_insert_ne; [done|].
                 intros ->. by apply (Hne _ _ H').
Qed.

(** X13: [invertAndMergeSenTreeMap] returns when every value of the map is a
    tree with a single item, and leaves the netlist as it is.  The entries
    of [result] are kept, every value of the map gets an entry, and every
    new entry is the inverse of an entry of the map; for a map that sends
    distinct keys to distinct values none of which is in [result], as the
    map of a trigger kit does, the new entries are exactly the inverses. *)
Theorem invertAndMergeSenTreeMap_inverts result senTreeMap n :
  (forall k v, senTreeMap !! k = Some v -> singleItem n v) ->
  exists r,
    invertAndMergeSenTreeMap result senTreeMap n = Ok (r, n) /\
    result ⊆ r /\
    (forall k v, senTreeMap !! k = Some v -> is_Some (r !! v)) /\
    (forall v k, r !! v = Some k -> result !! v = Some k \/ senTreeMap !! k = Some v) /\
    ((forall k1 k2 v, senTreeMap !! k1 = Some v -> senTreeMap !! k2 = Some v -> k1 = k2) ->
     (forall k v, senTreeMap !! k = Some v -> result !! v = None) ->
     forall k v, senTreeMap !! k = Some v -> r !! v = Some k).
Proof. apply invertAndMergeSenTreeMap_spec. Qed.

(** X14: [invertAndMergeSenTreeMap] aborts when a value of the map is a tree
    with more than one item. *)
Theorem invertAndMergeSenTreeMap_rejects result senTreeMap n k v t :
  senTreeMap !! k = Some v -> n_senTrees n !! v = Some t -> sensesp_nextp t <> [] ->
  exists msg, invertAndMergeSenTreeMap result senTreeMap n = Fatal msg.
Proof.
  intros Hk Ht Hbad.
  destruct (invertAndMergeSenTreeMap result senTreeMap n) as [[r n']|msg] eqn:H; [|by eexists].
  exfalso. revert r n' H. unfold invertAndMergeSenTreeMap.
  change (fun first second acc => _) with invertStep.
  cut (forall r n', map_fold invertStep (mret result) senTreeMap n = Ok (r, n') ->
         n' = n /\ forall k v, senTreeMap !! k = Some v -> singleItem n v).
  { intros Hc r n' H. destruct (proj2 (Hc r n' H) k v Hk) as (t' & Ht' & Hs).
    rewrite Ht in Ht'. injection Ht' as <-. done. }
  apply (map_fold_weak_ind
    (fun acc m => forall r n', acc n = Ok (r, n') ->
       n' = n /\ forall k v, m !! k = Some v -> singleItem n v)).
  - intros r n' H. injection H as _ <-. split; [done|].
    intros k' v' Hk'. by rewrite lookup_empty in Hk'.
  - intros i x m acc Hi IH r' n' H.
    apply invertStep_inv in H as (r & n1 & Hacc & Hs & ->).
    destruct (IH r n1 Hacc) as [-> Hall]. split; [done|].
    intros k' v' [[-> ->]|[Hki Hk']]%lookup_insert_Some; [done|]. by eapply Hall.
Qed.

End RemapFacts.

(** ** Simple ordering in source order *)

Section SequentialFacts.

(** What a statement of an active block gives to the sub-function. *)
Definition logicOne (logicp : AstNode) : list AstNode :=
  match logicp with
  | AstNodeProcedure bodysp => bodysp
  | _ => [logicp]
  end.

Definition logicOf (stmts : list AstNode) : list AstNode := concat (logicOne <$> stmts).

(** The logic of the block at [activep]. *)
Definition logicAt (n : AstNetlist) (activep : AstActiveP) : list AstNode :=
  match mjoin (n_actives n !! activep) with
  | Some active => logicOf (act_stmtsp active)
  | None => []
  end.

(** The elements of a list of pointers in the order of their first
    occurrence, those of [seen] apart. *)
Fixpoint firstOccurrences (seen : gset nat) (l : list nat) : list nat :=
  match l with
  | [] => []
  | s :: l' =>
      if decide (s ∈ seen) then firstOccurrences seen l' else s :: firstOccurrences ({[s]} ∪ seen) l'
  end.

(** The logic of the blocks whose scope has the sub-function [p]. *)
Definition stmtsTo (n : AstNetlist) (user1 : gmap nat nat)
    (lbs : list (AstScopeP * AstActiveP)) (p : AstCFuncP) : list AstNode :=
  concat ((fun x => if decide (user1 !! x.1 = Some p) then logicAt n x.2 else []) <$> lbs).

(** The logic of the blocks of the scope [s], in the order of [lbs]. *)
Definition lbsStmts (n : AstNetlist) (lbs : list (AstScopeP * AstActiveP))
    (s : AstScopeP) : list AstNode :=
  concat ((fun x => if decide (x.1 = s) then logicAt n x.2 else []) <$> lbs).

(** The sub-function [orderSequentially] makes for a scope. *)
Definition seqSubFunc (name : string) (slow : bool) (scopeName : string)
    (scopep : AstScopeP) (stmts : list AstNode) : AstCFunc :=
  mkCFunc (name +:+ "__" +:+ scopeName) scopep stmts []
    (* dontCombine *) false (* isStatic *) false (* isLoose *) true slow
    (* isConst *) false (* declPrivate *) true (* entryPoint *) false EmptyString.

(** The blocks of scope [s] that [lbs] names. *)
Definition dropped (lbs : list (AstScopeP * AstActiveP)) (s : AstScopeP) (b : Block) : bool :=
  match b with
  | BActive a => bool_decide ((s, a) ∈ lbs)
  | BCFunc _ => false
  end.

Definition keptBlocks (lbs : list (AstScopeP * AstActiveP)) (s : AstScopeP)
    (l : list Block) : list Block :=
  filter (fun b => dropped lbs s b = false) l.

Definition deleteAll (acts : list AstActiveP) (l : list (option AstActive))
    : list (option AstActive) :=
  foldl (fun l a => <[a := None]> l) l acts.

(** Every pair names a scope and a block that is there. *)
Definition seqValid (n : AstNetlist) (lbs : list (AstScopeP * AstActiveP)) : Prop :=
  Forall (fun x => is_Some (n_scopes n !! x.1) /\ is_Some (mjoin (n_actives n !! x.2))) lbs.

(** What the loop of [orderSequentially] leaves, from a state in which the
    scopes of [user1] have their sub-function. *)
Definition seqPost (funcp : AstCFuncP) (name : string) (slow : bool)
    (lbs : list (AstScopeP * AstActiveP)) (user1 : gmap nat nat)
    (n n' : AstNetlist) : Prop :=
  let base := length (n_cfuncs n) in
  let new := firstOccurrences (dom user1) lbs.*1 in
  n' = set_actives (fun _ => n_actives n')
         (set_scopes (fun _ => n_scopes n') (set_cfuncs (fun _ => n_cfuncs n') n)) /\
  n_actives n' = deleteAll lbs.*2 (n_actives n) /\
  length (n_cfuncs n') = (base + length new)%nat /\
  (forall p f, n_cfuncs n !! p = Some f ->
     n_cfuncs n' !! p
     = Some (cf_addStmtsp (if decide (p = funcp)
                           then AstCCall <$> seq base (length new)
                           else stmtsTo n user1 lbs p) f)) /\
  (forall i s sc, new !! i = Some s -> n_scopes n !! s = Some sc ->
     n_cfuncs n' !! (base + i)%nat
     = Some (seqSubFunc name slow (sc_nameDotless sc) s (lbsStmts n lbs s)) /\
     n_scopes n' !! s
     = Some (mkScope (sc_nameDotless sc)
               (keptBlocks lbs s (sc_activesp sc) ++ [BCFunc (base + i)%nat]))) /\
  length (n_scopes n') = length (n_scopes n) /\
  (forall s sc, s ∉ new -> n_scopes n !! s = Some sc ->
     n_scopes n' !! s
     = Some (mkScope (sc_nameDotless sc) (keptBlocks lbs s (sc_activesp sc)))).

(** One round of the loop for a scope that has its sub-function. *)
Definition seqStep (s : AstScopeP) (a : AstActiveP) (p : AstCFuncP) (stmts : list AstNode)
    (n : AstNetlist) : AstNetlist :=
  set_actives (<[a := None]>)
    (set_scopes (alter (sc_unlink (BActive a)) s)
       (set_cfuncs (alter (cf_addStmtsp stmts) p) n)).

(** The state after the sub-function of a new scope is made. *)
Definition seqAlloc (funcp : AstCFuncP) (s : AstScopeP) (sub : AstCFunc)
    (n : AstNetlist) : AstNetlist :=
  set_cfuncs (alter (cf_addStmtsp [AstCCall (length (n_cfuncs n))]) funcp)
    (set_scopes (alter (sc_addActivep (BCFunc (length (n_cfuncs n)))) s)
       (set_cfuncs (fun l => l ++ [sub]) n)).

Ltac fields :=
  unfold seqStep, seqAlloc, set_cfuncs, set_scopes, set_actives;
  cbn [n_topModuleFileline n_scopes n_topScope n_senTreesp n_senTrees n_varScopes n_cfuncs
       n_actives n_typeTable n_evalp n_evalNbap n_dpiExportTriggerp].

Lemma cf_addStmtsp_nil f : cf_addStmtsp [] f = f.
Proof. destruct f. unfold cf_addStmtsp. simpl. by rewrite app_nil_r. Qed.

Lemma cf_addStmtsp_app l1 l2 f :
  cf_addStmtsp l2 (cf_addStmtsp l1 f) = cf_addStmtsp (l1 ++ l2) f.
Proof. destruct f. unfold cf_addStmtsp. simpl. by rewrite app_assoc. Qed.

Lemma keptBlocks_nil s l : keptBlocks [] s l = l.
Proof.
  unfold keptBlocks. induction l as [|b l IH]; [done|].
  rewrite filter_cons_True; [by rewrite IH|].
  by destruct b.
Qed.

Lemma keptBlocks_unlink s a rest l :
  keptBlocks rest s (filter (fun b' => b' <> BActive a) l) = keptBlocks ((s, a) :: rest) s l.
Proof.
  unfold keptBlocks. rewrite list_filter_filter. apply list_filter_iff.
  intros b. destruct b as [a'|f]; simpl.
  - rewrite !bool_decide_eq_false, not_elem_of_cons. split.
    + intros [H1 H2]. split; [congruence|done].
    + intros [H1 H2]. split; [done|congruence].
  - split; [by intros [? ?]|done].
Qed.

Lemma keptBlocks_other s s' a rest l :
  s' <> s -> keptBlocks ((s, a) :: rest) s' l = keptBlocks rest s' l.
Proof.
  intros Hne. unfold keptBlocks. apply list_filter_iff.
  intros b. destruct b as [a'|f]; simpl; [|done].
  rewrite !bool_decide_eq_false, not_elem_of_cons. split; [by intros [_ ?]|].
  intros H. split; [congruence|done].
Qed.

Lemma keptBlocks_app lbs s l1 l2 :
  keptBlocks lbs s (l1 ++ l2) = keptBlocks lbs s l1 ++ keptBlocks lbs s l2.
Proof. apply filter_app. Qed.

Lemma firstOccurrences_notin l : forall seen x, x ∈ firstOccurrences seen l -> x ∉ seen.
Proof.
  induction l as [|s l IH]; intros seen x; simpl; [by intros ?%elem_of_nil|].
  case_decide as Hs; [by apply IH|].
  intros [->|Hx%IH]%elem_of_cons; [done|]. set_solver.
Qed.




Lemma logicAt_delete n a a' f g :
  a' <> a ->
  logicAt (set_actives (<[a := None]>) (set_scopes f (set_cfuncs g n))) a' = logicAt n a'.
Proof.
  intros Hne. unfold logicAt. fields.
  by rewrite list_lookup_insert_ne.
Qed.

Lemma stmtsTo_ext n1 n user1 lbs p :
  (forall x, x ∈ lbs -> logicAt n1 x.2 = logicAt n x.2) ->
  stmtsTo n1 user1 lbs p = stmtsTo n user1 lbs p.
Proof.
  intros H. unfold stmtsTo. f_equal. apply list_fmap_ext.
  intros i x Hx. rewrite H; [done|]. by eapply list_elem_of_lookup_2.
Qed.

Lemma lbsStmts_ext n1 n lbs s :
  (forall x, x ∈ lbs -> logicAt n1 x.2 = logicAt n x.2) ->
  lbsStmts n1 lbs s = lbsStmts n lbs s.
Proof.
  intros H. unfold lbsStmts. f_equal. apply list_fmap_ext.
  intros i x Hx. rewrite H; [done|]. by eapply list_elem_of_lookup_2.
Qed.

Lemma forM_addLogic stmts : forall fp n,
  is_Some (n_cfuncs n !! fp) ->
  forM_ stmts (addLogic fp) n
  = Ok (tt, set_cfuncs (alter (cf_addStmtsp (logicOf stmts)) fp) n).
Proof.
  induction stmts as [|x stmts IH]; intros fp n [f Hf].
  - simpl. by rewrite set_cfuncs_addStmtsp_nil.
  - assert (Hx : addLogic fp x n
                 = Ok (tt, set_cfuncs (alter (cf_addStmtsp (logicOne x)) fp) n)).
    { destruct x; try (by apply (addStmtsp_Ok _ _ f)).
      destruct bodysp as [|b bodysp]; [|by apply (addStmtsp_Ok _ _ f)].
      simpl. by rewrite set_cfuncs_addStmtsp_nil. }
    change (forM_ (x :: stmts) (addLogic fp)) with (addLogic fp x;; forM_ stmts (addLogic fp)).
    rewrite (bind_Ok _ _ _ _ _ Hx), IH.
    + by rewrite set_cfuncs_alter_addStmtsp.
    + fields. rewrite list_lookup_alter_eq, Hf. by eexists.
Qed.

Lemma seq_step funcp s a rest user1 n p act :
  user1 !! s = Some p -> is_Some (n_cfuncs n !! p) ->
  mjoin (n_actives n !! a) = Some act ->
  orderSequentially_loop funcp ((s, a) :: rest) user1 n
  = orderSequentially_loop funcp rest user1 (seqStep s a p (logicOf (act_stmtsp act)) n).
Proof.
  intros Hu Hp Ha. cbn [orderSequentially_loop]. rewrite Hu.
  rewrite (bind_Ok _ _ n (p, user1) n) by done.
  rewrite (bind_Ok _ _ _ _ _ (getActive_Ok _ _ _ Ha)).
  by rewrite (bind_Ok _ _ _ _ _ (forM_addLogic _ _ _ Hp)).
Qed.

Lemma seq_alloc funcp s a rest user1 n func sc :
  user1 !! s = None -> n_cfuncs n !! funcp = Some func -> n_scopes n !! s = Some sc ->
  orderSequentially_loop funcp ((s, a) :: rest) user1 n
  = orderSequentially_loop funcp ((s, a) :: rest) (<[s := length (n_cfuncs n)]> user1)
      (seqAlloc funcp s (seqSubFunc (cf_name func) (cf_slow func) (sc_nameDotless sc) s []) n).
Proof.
  intros Hu Hf Hs. cbn [orderSequentially_loop]. rewrite Hu, lookup_insert_eq.
  match goal with |- _ = (mret ?x ≫= ?k) ?n1 => change ((mret x ≫= k) n1) with (k x n1) end.
  match goal with |- (?m ≫= ?k) n = _ =>
    assert (Hm : m n = Ok ((length (n_cfuncs n), <[s := length (n_cfuncs n)]> user1),
                           seqAlloc funcp s (seqSubFunc (cf_name func) (cf_slow func)
                                               (sc_nameDotless sc) s []) n))
  end.
  { rewrite (bind_Ok _ _ _ _ _ (getCFunc_Ok _ _ _ Hf)).
    rewrite (bind_Ok _ _ _ _ _ (getScope_Ok _ _ _ Hs)).
    erewrite bind_Ok; [|reflexivity].
    erewrite bind_Ok; [|by apply (addActivep_Ok _ _ sc)].
    erewrite bind_Ok; [reflexivity|].
    apply (addStmtsp_Ok _ _ func). fields. by apply lookup_app_l_Some. }
  by rewrite (bind_Ok _ _ _ _ _ Hm).
Qed.

Lemma stmtsTo_cons n user1 x lbs p :
  stmtsTo n user1 (x :: lbs) p
  = (if decide (user1 !! x.1 = Some p) then logicAt n x.2 else []) ++ stmtsTo n user1 lbs p.
Proof. done. Qed.

Lemma lbsStmts_cons n x lbs s :
  lbsStmts n (x :: lbs) s
  = (if decide (x.1 = s) then logicAt n x.2 else []) ++ lbsStmts n lbs s.
Proof. done. Qed.

Lemma seqPost_step funcp name slow s a rest user1 n n' p act :
  user1 !! s = Some p -> p <> funcp ->
  mjoin (n_actives n !! a) = Some act -> a ∉ rest.*2 ->
  seqPost funcp name slow rest user1 (seqStep s a p (logicOf (act_stmtsp act)) n) n' ->
  seqPost funcp name slow ((s, a) :: rest) user1 n n'.
Proof.
  intros Hu Hne Ha Hnotin (Hfr & Hact & Hlen & Hold & Hnew & Hslen & Hsold).
  assert (Hlog : forall x, x ∈ rest ->
            logicAt (seqStep s a p (logicOf (act_stmtsp act)) n) x.2 = logicAt n x.2).
  { intros x Hx. unfold seqStep. apply logicAt_delete. intros Heq. apply Hnotin.
    rewrite <- Heq. apply list_elem_of_fmap. by exists x. }
  assert (Hla : logicAt n a = logicOf (act_stmtsp act)).
  { unfold logicAt. by rewrite Ha. }
  revert Hact Hlen Hold Hnew Hslen Hsold. unfold seqPost. fields.
  rewrite !fmap_cons. cbn [fst snd firstOccurrences deleteAll foldl].
  rewrite decide_True by (apply elem_of_dom; eauto).
  rewrite !length_alter.
  intros Hact Hlen Hold Hnew Hslen Hsold.
  split; [exact Hfr|]. split; [exact Hact|]. split; [exact Hlen|].
  split; [|split; [|split; [exact Hslen|]]].
  - intros p' f Hf. destruct (decide (p' = p)) as [->|Hp'].
    + rewrite (Hold p (cf_addStmtsp (logicOf (act_stmtsp act)) f))
        by (by rewrite list_lookup_alter_eq, Hf).
      rewrite cf_addStmtsp_app, !decide_False by done.
      rewrite stmtsTo_cons. cbn [fst snd]. rewrite decide_True by done.
      by rewrite Hla, (stmtsTo_ext _ n) by done.
    + rewrite (Hold p' f) by (by rewrite list_lookup_alter_ne).
      do 2 f_equal. case_decide; [done|].
      rewrite stmtsTo_cons. cbn [fst snd]. rewrite decide_False by congruence.
      by rewrite (stmtsTo_ext _ n) by done.
  - intros i s' sc Hi Hsc.
    assert (s' <> s) as Hs'.
    { intros ->. apply list_elem_of_lookup_2, firstOccurrences_notin in Hi. apply Hi.
      apply elem_of_dom. eauto. }
    destruct (Hnew i s' sc Hi) as [H1 H2]; [by rewrite list_lookup_alter_ne|].
    rewrite H1, H2. rewrite lbsStmts_cons. cbn [fst snd].
    rewrite decide_False by done.
    by rewrite (lbsStmts_ext _ n), keptBlocks_other by done.
  - intros s' sc Hnot Hsc. destruct (decide (s' = s)) as [->|Hs'].
    + rewrite (Hsold s (sc_unlink (BActive a) sc)); [|done|by rewrite list_lookup_alter_eq, Hsc].
      unfold sc_unlink. cbn [sc_nameDotless sc_activesp]. by rewrite keptBlocks_unlink.
    + rewrite (Hsold s' sc); [|done|by rewrite list_lookup_alter_ne].
      by rewrite keptBlocks_other.
Qed.

Lemma seqSubFunc_add name slow scopeName s stmts :
  cf_addStmtsp stmts (seqSubFunc name slow scopeName s []) = seqSubFunc name slow scopeName s stmts.
Proof. done. Qed.

Lemma seqPost_alloc funcp name slow s a rest user1 n n' func sc :
  user1 !! s = None -> n_cfuncs n !! funcp = Some func -> n_scopes n !! s = Some sc ->
  (forall s' p, user1 !! s' = Some p -> (p < length (n_cfuncs n))%nat) ->
  seqPost funcp name slow ((s, a) :: rest) (<[s := length (n_cfuncs n)]> user1)
    (seqAlloc funcp s (seqSubFunc name slow (sc_nameDotless sc) s []) n) n' ->
  seqPost funcp name slow ((s, a) :: rest) user1 n n'.
Proof.
  intros Hu Hf Hsc Hlt (Hfr & Hact & Hlen & Hold & Hnew & Hslen & Hsold).
  assert (Hfl := lookup_lt_Some _ _ _ Hf).
  revert Hact Hlen Hold Hnew Hslen Hsold. unfold seqPost. fields.
  rewrite !fmap_cons. cbn [fst snd firstOccurrences deleteAll foldl].
  rewrite dom_insert_L.
  rewrite decide_True by set_solver.
  rewrite decide_False by (by apply not_elem_of_dom).
  set (new := firstOccurrences ({[s]} ∪ dom user1) rest.*1).
  rewrite !length_alter, length_app. cbn [length].
  intros Hact Hlen Hold Hnew Hslen Hsold.
  assert (Hsn : s ∉ new).
  { intros H%firstOccurrences_notin. set_solver. }
  split; [exact Hfr|]. split; [exact Hact|]. split; [lia|].
  split; [|split; [|split; [exact Hslen|]]].
  - intros p f Hp. assert (Hpl := lookup_lt_Some _ _ _ Hp).
    destruct (decide (p = funcp)) as [->|Hpf].
    + rewrite (Hold funcp (cf_addStmtsp [AstCCall (length (n_cfuncs n))] f)).
      2:{ rewrite list_lookup_alter_eq, lookup_app_l by done. by rewrite Hp. }
      rewrite cf_addStmtsp_app, decide_True by done.
      do 2 f_equal. rewrite Nat.add_1_r. reflexivity.
    + rewrite (Hold p f).
      2:{ rewrite list_lookup_alter_ne, lookup_app_l by done. done. }
      rewrite decide_False by done. do 2 f_equal.
      unfold stmtsTo. f_equal. apply list_fmap_ext. intros i x Hx.
      unfold logicAt. fields.
      destruct (decide (x.1 = s)) as [->|Hxs].
      * rewrite lookup_insert_eq, Hu. rewrite !decide_False; [done|done|].
        intros [= Heq]. lia.
      * by rewrite lookup_insert_ne.
  - intros i s' sc' Hi Hsc'. destruct i as [|i].
    + injection Hi as <-. rewrite Hsc in Hsc'. injection Hsc' as <-.
      rewrite Nat.add_0_r. split.
      * rewrite (Hold (length (n_cfuncs n)) (seqSubFunc name slow (sc_nameDotless sc) s [])).
        2:{ rewrite list_lookup_alter_ne by lia.
            by rewrite list_lookup_middle. }
        rewrite decide_False by lia.
        rewrite seqSubFunc_add. do 2 f_equal.
        unfold stmtsTo, lbsStmts. f_equal. apply list_fmap_ext. intros j x Hx.
        unfold logicAt. fields.
        destruct (decide (x.1 = s)) as [->|Hxs].
        -- by rewrite lookup_insert_eq, decide_True.
        -- rewrite lookup_insert_ne by done. rewrite decide_False; [done|].
           intros H%Hlt. lia.
      * rewrite (Hsold s (sc_addActivep (BCFunc (length (n_cfuncs n))) sc));
          [|done|by rewrite list_lookup_alter_eq, Hsc].
        unfold sc_addActivep. cbn [sc_nameDotless sc_activesp].
        by rewrite keptBlocks_app.
    + cbn in Hi.
      assert (s' <> s) as Hs'.
      { intros ->. apply Hsn. by eapply list_elem_of_lookup_2. }
      destruct (Hnew i s' sc' Hi) as [H1 H2]; [by rewrite list_lookup_alter_ne|].
      replace (length (n_cfuncs n) + S i)%nat with (length (n_cfuncs n) + 1 + i)%nat by lia.
      rewrite H1, H2. split; [|done]. do 2 f_equal.
  - intros s' sc' Hnot Hsc'. apply not_elem_of_cons in Hnot as [Hs' Hnot].
    apply Hsold; [done|]. by rewrite list_lookup_alter_ne.
Qed.

Lemma seq_loop_spec funcp name slow lbs : forall user1 n func,
  n_cfuncs n !! funcp = Some func -> cf_name func = name -> cf_slow func = slow ->
  (forall s p, user1 !! s = Some p -> (p < length (n_cfuncs n))%nat /\ p <> funcp) ->
  seqValid n lbs -> NoDup lbs.*2 ->
  exists n', orderSequentially_loop funcp lbs user1 n = Ok (tt, n') /\
    seqPost funcp name slow lbs user1 n n'.
Proof.
  induction lbs as [|[s a] rest IH]; intros user1 n func Hf Hname Hslow Hu Hv Hnd.
  - exists n. split; [done|]. unfold seqPost. cbn [fmap list_fmap firstOccurrences length deleteAll foldl seq].
    split_and!.
    + by destruct n.
    + done.
    + lia.
    + intros p f Hp. rewrite Hp. f_equal. case_decide; by rewrite cf_addStmtsp_nil.
    + intros i s sc Hi. by rewrite lookup_nil in Hi.
    + done.
    + intros s sc _ Hs. rewrite Hs, keptBlocks_nil. by destruct sc.
  - apply Forall_cons in Hv as [[Hsc [act Hact]] Hv]. cbn [fst snd] in Hsc, Hact.
    rewrite fmap_cons in Hnd. apply NoDup_cons in Hnd as [Hnotin Hnd]. cbn [snd] in Hnotin.
    assert (Hsome : forall user1 n func p,
      n_cfuncs n !! funcp = Some func -> cf_name func = name -> cf_slow func = slow ->
      (forall s p, user1 !! s = Some p -> (p < length (n_cfuncs n))%nat /\ p <> funcp) ->
      mjoin (n_actives n !! a) = Some act -> seqValid n rest ->
      user1 !! s = Some p ->
      exists n', orderSequentially_loop funcp ((s, a) :: rest) user1 n = Ok (tt, n') /\
        seqPost funcp name slow ((s, a) :: rest) user1 n n').
    { clear Hf Hu Hv Hact Hsc Hname Hslow func user1 n.
      intros user1 n func p Hf Hname Hslow Hu Hact Hv Hus.
      destruct (Hu s p Hus) as [Hlt Hne].
      rewrite (seq_step funcp s a rest user1 n p act Hus (lookup_lt_is_Some_2 _ _ Hlt) Hact).
      destruct (IH user1 (seqStep s a p (logicOf (act_stmtsp act)) n) func)
        as (n' & Hrun & Hpost); try done.
      - fields. by rewrite list_lookup_alter_ne.
      - fields. intros s' p' H'. rewrite length_alter. by apply (Hu s').
      - unfold seqValid in *. rewrite Forall_forall in Hv |- *. intros x Hx.
        destruct (Hv x Hx) as [H1 H2]. fields. split.
        + apply lookup_lt_is_Some. rewrite length_alter. by apply lookup_lt_is_Some.
        + rewrite list_lookup_insert_ne; [done|]. intros Heq. apply Hnotin.
          rewrite Heq. apply list_elem_of_fmap. by exists x.
      - exists n'. split; [done|]. by eapply seqPost_step. }
    destruct (user1 !! s) as [p|] eqn:Hus.
    + by eapply Hsome.
    + destruct Hsc as [sc Hsc].
      assert (Hfl := lookup_lt_Some _ _ _ Hf).
      rewrite (seq_alloc funcp s a rest user1 n func sc Hus Hf Hsc), Hname, Hslow.
      destruct (Hsome (<[s := length (n_cfuncs n)]> user1)
                  (seqAlloc funcp s (seqSubFunc name slow (sc_nameDotless sc) s []) n)
                  (cf_addStmtsp [AstCCall (length (n_cfuncs n))] func) (length (n_cfuncs n)))
        as (n' & Hrun & Hpost); try done.
      * fields. rewrite list_lookup_alter_eq, lookup_app_l by done. by rewrite Hf.
      * fields. rewrite length_alter, length_app. cbn [length].
        intros s' p' [[-> <-]|[Hs' H']]%lookup_insert_Some; [lia|].
        destruct (Hu s' p' H'). lia.
      * unfold seqValid in *. rewrite Forall_forall in Hv |- *. intros x Hx.
        destruct (Hv x Hx) as [H1 H2]. fields. split; [|done].
        apply lookup_lt_is_Some. rewrite length_alter. by apply lookup_lt_is_Some.
      * by rewrite lookup_insert_eq.
      * exists n'. split; [done|]. eapply seqPost_alloc; try done.
        intros s' p' H'. by destruct (Hu s' p' H').
Qed.

Lemma stmtsTo_empty n lbs p : stmtsTo n ∅ lbs p = [].
Proof.
  unfold stmtsTo. induction lbs as [|x lbs IH]; [done|].
  rewrite fmap_cons. cbn [concat]. rewrite IH, lookup_empty. by rewrite decide_False.
Qed.


Lemma deleteAll_lookup acts : forall l a,
  deleteAll acts l !! a
  = if decide (a ∈ acts) then (fun _ => None) <$> l !! a else l !! a.
Proof.
  induction acts as [|x acts IH]; intros l a.
  - by rewrite decide_False by apply not_elem_of_nil.
  - cbn [deleteAll foldl]. fold (deleteAll acts (<[x := None]> l)). rewrite IH.
    destruct (decide (a = x)) as [->|Hne].
    + rewrite (decide_True (P := x ∈ x :: acts)) by (by left).
      destruct (decide (x < length l)%nat) as [Hlt|Hge].
      * rewrite list_lookup_insert_eq by done.
        destruct (lookup_lt_is_Some_2 l x Hlt) as [o ->]. by case_decide.
      * rewrite list_insert_ge by lia. rewrite (lookup_ge_None_2 l x) by lia. by case_decide.
    + rewrite list_lookup_insert_ne by done.
      case_decide as H1; case_decide as H2; try done.
      * exfalso. apply H2. by right.
      * apply elem_of_cons in H2 as [?|?]; done.
Qed.


Lemma makeTopFunction_new name slow n sc :
  n_scopes n !! n_topScope n = Some sc ->
  makeTopFunction name slow n
  = Ok (length (n_cfuncs n),
        set_scopes (alter (sc_addActivep (BCFunc (length (n_cfuncs n)))) (n_topScope n))
          (set_cfuncs (fun l => l ++ [mkCFunc name (n_topScope n) [] [] true false true slow
                                        false true true EmptyString]) n)).
Proof.
  intros Hs. unfold makeTopFunction, makeSubFunction.
  erewrite bind_Ok.
  2:{ rewrite (bind_Ok _ _ n n n eq_refl).
      rewrite (bind_Ok _ _ n (length (n_cfuncs n)) _ eq_refl).
      erewrite bind_Ok; [reflexivity|]. by apply addActivep_Ok with (s := sc). }
  erewrite bind_Ok; [|reflexivity]. unfold mret, M_ret. do 2 f_equal.
  fields. rewrite alter_app_r_alt by lia. by rewrite Nat.sub_diag.
Qed.

(** X16: [createInitial] returns a new entry point [_eval_initial] of the top
    scope, slow, whose statements are the calls of the sub-functions of the
    scopes of the initial logic in the order of their first occurrence; the
    sub-function of a scope is named [_eval_initial__<scope>], is slow too,
    and holds the logic of the scope's initial blocks in their order.  The
    functions that were there are not changed and the blocks are deleted. *)
Theorem createInitial_entry_point logicClasses n sc :
  n_scopes n !! n_topScope n = Some sc ->
  seqValid n (m_initial logicClasses) -> NoDup (m_initial logicClasses).*2 ->
  exists n',
    createInitial logicClasses n = Ok (length (n_cfuncs n), n') /\
    length (n_cfuncs n')
    = (length (n_cfuncs n) + 1
       + length (firstOccurrences ∅ (m_initial logicClasses).*1))%nat /\
    n_cfuncs n' !! length (n_cfuncs n)
    = Some (mkCFunc "_eval_initial" (n_topScope n)
              (AstCCall <$> seq (length (n_cfuncs n) + 1)
                              (length (firstOccurrences ∅ (m_initial logicClasses).*1)))
              [] true false true true false true true EmptyString) /\
    (forall i s sc', firstOccurrences ∅ (m_initial logicClasses).*1 !! i = Some s ->
       n_scopes n !! s = Some sc' ->
       n_cfuncs n' !! (length (n_cfuncs n) + 1 + i)%nat
       = Some (seqSubFunc "_eval_initial" true (sc_nameDotless sc') s
                 (lbsStmts n (m_initial logicClasses) s))) /\
    (forall p f, n_cfuncs n !! p = Some f -> n_cfuncs n' !! p = Some f) /\
    (forall a, a ∈ (m_initial logicClasses).*2 -> n_actives n' !! a = Some None).
Proof.
  intros Hsc Hv Hnd. unfold createInitial.
  rewrite (bind_Ok _ _ _ _ _ (makeTopFunction_new _ _ _ _ Hsc)).
  set (lbs := m_initial logicClasses) in *.
  set (top := mkCFunc "_eval_initial" (n_topScope n) [] [] true false true true
                false true true EmptyString).
  set (n1 := set_scopes _ _).
  assert (Hc1 : n_cfuncs n1 = n_cfuncs n ++ [top]) by done.
  assert (Ha1 : n_actives n1 = n_actives n) by done.
  destruct (seq_loop_spec (length (n_cfuncs n)) "_eval_initial" true lbs ∅ n1 top)
    as (n' & Hrun & Hfr & Hact & Hlen & Hold & Hnew & Hslen & Hsold); try done.
  { rewrite Hc1. by rewrite list_lookup_middle. }
  { unfold seqValid in *. rewrite Forall_forall in Hv |- *. intros x Hx.
    destruct (Hv x Hx) as [H1 H2]. split; [|by rewrite Ha1].
    apply lookup_lt_is_Some. unfold n1, set_scopes. cbn [n_scopes set_cfuncs].
    rewrite length_alter. by apply lookup_lt_is_Some. }
  unfold orderSequentially. rewrite (bind_Ok _ _ _ _ _ Hrun).
  exists n'. split; [done|].
  rewrite dom_empty_L in Hlen, Hold, Hnew, Hsold.
  rewrite Hc1, length_app in Hlen, Hold, Hnew. cbn [length] in Hlen, Hold, Hnew.
  split; [exact Hlen|]. split_and!.
  - rewrite (Hold (length (n_cfuncs n)) top) by (by rewrite list_lookup_middle).
    by rewrite decide_True.
  - intros i s sc' Hi Hs.
    assert (exists sc1, n_scopes n1 !! s = Some sc1 /\ sc_nameDotless sc1 = sc_nameDotless sc')
      as (sc1 & Hs1 & Hname).
    { unfold n1, set_scopes. cbn [n_scopes set_cfuncs].
      destruct (decide (s = n_topScope n)) as [->|Hne].
      - rewrite list_lookup_alter_eq, Hs. by eexists.
      - rewrite list_lookup_alter_ne by done. by eexists. }
    destruct (Hnew i s sc1 Hi Hs1) as [H1 _]. rewrite H1, Hname.
    do 2 f_equal.
  - intros p f Hp. assert (Hlt := lookup_lt_Some _ _ _ Hp).
    rewrite (Hold p f) by (by apply lookup_app_l_Some).
    rewrite decide_False by lia. by rewrite stmtsTo_empty, cf_addStmtsp_nil.
  - intros a Ha. rewrite Hact, deleteAll_lookup, decide_True by done. rewrite Ha1.
    apply list_elem_of_fmap in Ha as (x & -> & Hx).
    unfold seqValid in Hv. rewrite Forall_forall in Hv.
    destruct (Hv x Hx) as [_ [act Hact']].
    destruct (n_actives n !! x.2); [done|discriminate].
Qed.

End SequentialFacts.

(** ** The checks of the helpers *)

Section HelperChecks.
Context {Q : AstQueries}.
Variable v3Global : V3Global.

(** X17: [splitCheck] aborts on a function that has to be split and has final
    statements. *)
Theorem splitCheck_rejects_finals n ofuncp ofunc :
  n_cfuncs n !! ofuncp = Some ofunc ->
  outputSplitCFuncs (opt v3Global) <> 0 -> cf_stmtsp ofunc <> [] ->
  outputSplitCFuncs (opt v3Global) <= cf_nodeCount ofunc ->
  cf_finalsp ofunc <> [] ->
  splitCheck v3Global ofuncp n = Fatal "Should not have any finalps".
Proof.
  intros Ho Hz Hs Hc Hf. unfold splitCheck.
  rewrite (bind_Ok _ _ _ _ _ (getCFunc_Ok _ _ _ Ho)).
  rewrite (proj2 (Z.eqb_neq _ _) Hz), bool_decide_false by done. cbn [orb].
  rewrite (proj2 (Z.ltb_ge _ _) Hc).
  erewrite bind_Ok; [|reflexivity].
  by rewrite bool_decide_false.
Qed.

(** X18: [makeEvalLoop] aborts, before it makes anything, when the trigger
    variable is not a trigger vector. *)
Theorem makeEvalLoop_rejects_other_types tag name trigVscp trigDumpp computeTriggers makeBody
    n trigVsc :
  n_varScopes n !! trigVscp = Some trigVsc ->
  isTriggerVec (vsc_dtypep trigVsc) = false ->
  makeEvalLoop v3Global tag name trigVscp trigDumpp computeTriggers makeBody n
  = Fatal "Not TRIGGERVEC".
Proof.
  intros Hv Ht. unfold makeEvalLoop.
  rewrite (bind_Ok _ _ _ _ _ (getVarScope_Ok _ _ _ Hv)). by rewrite Ht.
Qed.

End HelperChecks.

(** ** From the sensitivity lists to the remapped logic *)

Section PipelineFacts.
Context {Q : AstQueries}.
Variable v3Global : V3Global.





(** The trees the blocks of a list sense, in the order of the list. *)
Definition sensedTrees (n : AstNetlist) (lbs : list (AstScopeP * AstActiveP)) : list AstSenTreeP :=
  omap (fun pr => act_sensesp <$> mjoin (n_actives n !! pr.2)) lbs.

(** The tree at [p] is clocked or hybrid. *)
Definition isTrig (n : AstNetlist) (p : AstSenTreeP) : bool :=
  match n_senTrees n !! p with
  | Some st => hasClocked st || hasHybrid st
  | None => false
  end.

Lemma firstOccurrences_app l1 : forall seen l2,
  firstOccurrences seen (l1 ++ l2)
  = firstOccurrences seen l1 ++ firstOccurrences (list_to_set l1 ∪ seen) l2.
Proof.
  induction l1 as [|x l1 IH]; intros seen l2.
  - cbn [app firstOccurrences list_to_set]. by rewrite (left_id_L ∅ (∪)).
  - cbn [app firstOccurrences list_to_set]. case_decide as Hx.
    + rewrite IH. do 2 f_equal. set_solver.
    + rewrite IH. cbn [app]. do 3 f_equal. set_solver.
Qed.

Lemma getSenTreesUsedBy_lbs_order n lbs : forall user1 result,
  lbsValid n lbs ->
  getSenTreesUsedBy_lbs lbs user1 result n
  = Ok ((list_to_set (sensedTrees n lbs) ∪ user1,
         result ++ filter (fun p => isTrig n p = true)
                     (firstOccurrences user1 (sensedTrees n lbs))), n).
Proof.
  induction lbs as [|pr lbs IH]; intros user1 result Hv.
  - cbn. by rewrite (left_id_L ∅ (∪)), app_nil_r.
  - apply Forall_cons in Hv as [(a & st & Ha & Hst) Hv].
    cbn [getSenTreesUsedBy_lbs]. rewrite (bind_Ok _ _ _ _ _ (getActive_Ok _ _ _ Ha)).
    assert (Hts : sensedTrees n (pr :: lbs) = act_sensesp a :: sensedTrees n lbs).
    { unfold sensedTrees. cbn [omap list_omap]. by rewrite Ha. }
    rewrite Hts. cbn [firstOccurrences list_to_set].
    case_bool_decide as Hin.
    + rewrite decide_True by done. rewrite IH by done. do 3 f_equal. set_solver.
    + rewrite decide_False by done.
      rewrite (bind_Ok _ _ _ _ _ (getSenTree_Ok _ _ _ Hst)).
      assert (Ht : isTrig n (act_sensesp a) = hasClocked st || hasHybrid st).
      { unfold isTrig. by rewrite Hst. }
      destruct (hasClocked st || hasHybrid st) eqn:Hc.
      * rewrite IH by done. rewrite filter_cons_True by done.
        rewrite <- app_assoc. cbn [app]. do 3 f_equal. set_solver.
      * rewrite IH by done. rewrite filter_cons_False by (by rewrite Ht).
        do 3 f_equal. set_solver.
Qed.

Lemma getSenTreesUsedBy_loop_order n lbsps : forall user1 result,
  Forall (lbsValid n) lbsps ->
  getSenTreesUsedBy_loop lbsps user1 result n
  = Ok ((list_to_set (sensedTrees n (concat lbsps)) ∪ user1,
         result ++ filter (fun p => isTrig n p = true)
                     (firstOccurrences user1 (sensedTrees n (concat lbsps)))), n).
Proof.
  induction lbsps as [|lbs lbsps IH]; intros user1 result Hv.
  - cbn. by rewrite (left_id_L ∅ (∪)), app_nil_r.
  - apply Forall_cons in Hv as [Hv1 Hv].
    cbn [getSenTreesUsedBy_loop concat].
    rewrite (bind_Ok _ _ _ _ _ (getSenTreesUsedBy_lbs_order n lbs user1 result Hv1)).
    rewrite IH by done. unfold sensedTrees. rewrite omap_app.
    fold (sensedTrees n lbs) (sensedTrees n (concat lbsps)).
    rewrite firstOccurrences_app, filter_app, list_to_set_app_L, <- app_assoc.
    do 3 f_equal. set_solver.
Qed.

(** X21: [getSenTreesUsedBy] returns the clocked and hybrid trees in the order
    in which the blocks of the buckets, taken bucket after bucket, first
    sense them: this is the order in which [createTriggers] numbers the
    triggers. *)
Theorem getSenTreesUsedBy_first_use_order n lbsps :
  Forall (lbsValid n) lbsps ->
  getSenTreesUsedBy lbsps n
  = Ok (filter (fun p => isTrig n p = true)
          (firstOccurrences ∅ (sensedTrees n (concat lbsps))), n).
Proof.
  intros Hv. unfold getSenTreesUsedBy.
  by rewrite (bind_Ok _ _ _ _ _ (getSenTreesUsedBy_loop_order n lbsps ∅ [] Hv)).
Qed.

End PipelineFacts.

(** ** The dump function of the NBA triggers *)

Section EvalMore.
Context {Q : AstQueries}.
Variable v3Global : V3Global.

(** The clone [createEval] makes of the dump function [f] of the act
    triggers: renamed, every reference to the act vector [oldp] reading the
    nba vector [newp] instead, and "act" replaced by "nba" in every text. *)
Definition nbaDump (oldp newp : AstVarScopeP) (f : AstCFunc) : AstCFunc :=
  let re := retarget oldp newp (fun t => replaceWord t "act" "nba") in
  mkCFunc "_dump_triggers__nba" (cf_scopep f) (map re (cf_stmtsp f)) (map re (cf_finalsp f))
    (cf_dontCombine f) (cf_isStatic f) (cf_isLoose f) (cf_slow f) (cf_isConst f)
    (cf_declPrivate f) (cf_entryPoint f) (cf_ifdef f).

Lemma createEval_dump icoLoop actTrig preTrigsp nbaTrigsp actFuncp nbaFuncp n sc actDump va vn :
  n_scopes n !! n_topScope n = Some sc ->
  n_cfuncs n !! m_dumpp actTrig = Some actDump ->
  forallb allRefsReadOnly (cf_stmtsp actDump ++ cf_finalsp actDump) = true ->
  n_varScopes n !! m_vscp actTrig = Some va -> isTriggerVec (vsc_dtypep va) = true ->
  n_varScopes n !! nbaTrigsp = Some vn -> isTriggerVec (vsc_dtypep vn) = true ->
  exists n',
    createEval v3Global icoLoop actTrig preTrigsp nbaTrigsp actFuncp nbaFuncp n = Ok (tt, n') /\
    length (n_cfuncs n') = S (S (length (n_cfuncs n))) /\
    n_cfuncs n' !! S (length (n_cfuncs n))
    = Some (nbaDump (m_vscp actTrig) nbaTrigsp actDump) /\
    (forall p f, n_cfuncs n !! p = Some f -> n_cfuncs n' !! p = Some f) /\
    n_scopes n'
    = alter (sc_addNextHere (BCFunc (m_dumpp actTrig)) (BCFunc (S (length (n_cfuncs n)))))
        (cf_scopep actDump)
        (alter (sc_addActivep (BCFunc (length (n_cfuncs n)))) (n_topScope n) (n_scopes n)).
Proof.
  intros Hs Hd Hro Hva Htva Hvn Htvn. unfold createEval.
  erewrite bind_Ok; [|by eapply makeTopFunction_new].
  set (funcp := length (n_cfuncs n)).
  set (f0 := mkCFunc "_eval" (n_topScope n) [] [] true false true false false true true
               EmptyString).
  set (n1 := set_scopes _ _).
  rewrite (bind_Ok _ _ n1 tt (set_evalp (Some funcp) n1) eq_refl).
  set (n2 := set_evalp (Some funcp) n1).
  assert (Hlt : (m_dumpp actTrig < funcp)%nat) by (eapply lookup_lt_Some; eauto).
  assert (Hf2 : n_cfuncs n2 !! funcp = Some f0).
  { unfold n2, n1; simpl. by rewrite list_lookup_middle. }
  set (n3 := set_cfuncs (alter (cf_addStmtsp icoLoop) funcp) n2).
  assert (Hico : (match icoLoop with [] => mret () | _ => addStmtsp funcp icoLoop end) n2
                 = Ok (tt, n3)).
  { destruct icoLoop as [|i ico].
    - unfold mret, M_ret, n3. by rewrite set_cfuncs_addStmtsp_nil.
    - by apply addStmtsp_Ok with (f := f0). }
  rewrite (bind_Ok _ _ _ _ _ Hico).
  assert (Hd3 : n_cfuncs n3 !! m_dumpp actTrig = Some actDump).
  { unfold n3, n2, n1; simpl. rewrite list_lookup_alter_ne by lia.
    by rewrite lookup_app_l by done. }
  rewrite (bind_Ok _ _ _ _ _ (getCFunc_Ok _ _ _ Hd3)).
  assert (Hlen3 : length (n_cfuncs n3) = S funcp).
  { unfold n3, n2, n1; simpl. rewrite length_alter, length_app. simpl. lia. }
  rewrite (bind_Ok _ _ n3 (S funcp) (set_cfuncs (fun l => l ++ [actDump]) n3)).
  2:{ unfold newCFunc. by rewrite Hlen3. }
  erewrite bind_Ok; [|reflexivity]. erewrite bind_Ok; [|reflexivity].
  rewrite Hro. erewrite bind_Ok; [|reflexivity]. erewrite bind_Ok; [|reflexivity].
  set (n7 := set_cfuncs _ (set_cfuncs _ (set_scopes _ (set_cfuncs _ n3)))).
  assert (Hvars7 : n_varScopes n7 = n_varScopes n) by reflexivity.
  set (n8 := set_varScopes (fun l => l ++ loopVars n7 "act") n7).
  erewrite bind_Ok.
  2:{ eapply makeEvalLoop_Ok with (trigVsc := va) (n3 := n8) (n4 := n8);
        [by rewrite Hvars7|done|reflexivity| |reflexivity].
      unfold n8, loopVars; simpl. rewrite (lookup_app_r _ _ (S _)) by lia.
      replace (S (length (n_varScopes n)) - length (n_varScopes n))%nat with 1%nat by lia.
      done. }
  cbv beta iota. rewrite Hvars7.
  set (n9 := set_varScopes (fun l => l ++ loopVars n8 "nba") n8).
  assert (Hlen8 : length (n_varScopes n8) = (length (n_varScopes n) + 2)%nat).
  { unfold n8; simpl. rewrite length_app. simpl. lia. }
  erewrite bind_Ok.
  2:{ eapply makeEvalLoop_Ok with (trigVsc := vn) (n3 := n9) (n4 := n9);
        [|done|reflexivity| |reflexivity].
      - unfold n8; simpl. by rewrite lookup_app_l by (eapply lookup_lt_Some; eauto).
      - unfold n9, loopVars. cbn [n_varScopes set_varScopes].
        rewrite (lookup_app_r _ _ (S _)) by lia.
        replace (S (length (n_varScopes n8)) - length (n_varScopes n8))%nat with 1%nat by lia.
        done. }
  cbv beta iota. rewrite Hlen8.
  assert (Hc9 : n_cfuncs n9
                = alter (nbaDump (m_vscp actTrig) nbaTrigsp) (S funcp)
                    (alter (cf_addStmtsp icoLoop) funcp (n_cfuncs n ++ [f0]) ++ [actDump])).
  { unfold n9, n8, n7, n3, n2, n1.
    cbn [n_cfuncs set_cfuncs set_varScopes set_scopes set_evalp].
    rewrite list_alter_alter_eq. by apply list_alter_ext. }
  assert (Hlen9 : length (alter (cf_addStmtsp icoLoop) funcp (n_cfuncs n ++ [f0])) = S funcp).
  { rewrite length_alter, length_app. simpl. unfold funcp. lia. }
  assert (Hf9 : n_cfuncs n9 !! funcp = Some (cf_addStmtsp icoLoop f0)).
  { rewrite Hc9, list_lookup_alter_ne by lia. rewrite lookup_app_l by lia.
    by rewrite list_lookup_alter_eq, list_lookup_middle. }
  erewrite addStmtsp_Ok by exact Hf9.
  eexists. split; [reflexivity|].
  cbn [n_cfuncs set_cfuncs n_scopes]. rewrite Hc9. split_and!.
  - rewrite !length_alter, length_app, Hlen9. simpl. lia.
  - rewrite list_lookup_alter_ne by lia. rewrite list_lookup_alter_eq.
    by rewrite list_lookup_middle.
  - intros p f Hp. assert (Hpl := lookup_lt_Some _ _ _ Hp). fold funcp in Hpl.
    rewrite !list_lookup_alter_ne by lia. rewrite lookup_app_l by lia.
    rewrite list_lookup_alter_ne by lia. by apply lookup_app_l_Some.
  - reflexivity.
Qed.

(** X22: [createEval] leaves the dump function of the act triggers as it is
    and puts a clone of it right after it, as the function after [_eval]:
    the clone is named [_dump_triggers__nba], reads the nba vector wherever
    the original reads the act vector, and has "act" replaced by "nba" in
    its texts.  No other function that was there is changed. *)
Theorem createEval_nba_dump_function icoLoop actTrig preTrigsp nbaTrigsp actFuncp nbaFuncp
    n sc actDump va vn :
  n_scopes n !! n_topScope n = Some sc ->
  n_cfuncs n !! m_dumpp actTrig = Some actDump ->
  forallb allRefsReadOnly (cf_stmtsp actDump ++ cf_finalsp actDump) = true ->
  n_varScopes n !! m_vscp actTrig = Some va -> isTriggerVec (vsc_dtypep va) = true ->
  n_varScopes n !! nbaTrigsp = Some vn -> isTriggerVec (vsc_dtypep vn) = true ->
  exists n',
    createEval v3Global icoLoop actTrig preTrigsp nbaTrigsp actFuncp nbaFuncp n = Ok (tt, n') /\
    length (n_cfuncs n') = S (S (length (n_cfuncs n))) /\
    n_cfuncs n' !! S (length (n_cfuncs n))
    = Some (nbaDump (m_vscp actTrig) nbaTrigsp actDump) /\
    (forall p f, n_cfuncs n !! p = Some f -> n_cfuncs n' !! p = Some f) /\
    n_scopes n'
    = alter (sc_addNextHere (BCFunc (m_dumpp actTrig)) (BCFunc (S (length (n_cfuncs n)))))
        (cf_scopep actDump)
        (alter (sc_addActivep (BCFunc (length (n_cfuncs n)))) (n_topScope n) (n_scopes n)).
Proof. apply createEval_dump. Qed.

(** X23: [createEval] aborts when the dump function of the act triggers holds a
    reference that writes. *)
Theorem createEval_rejects_writes icoLoop actTrig preTrigsp nbaTrigsp actFuncp nbaFuncp
    n sc actDump :
  n_scopes n !! n_topScope n = Some sc ->
  n_cfuncs n !! m_dumpp actTrig = Some actDump ->
  forallb allRefsReadOnly (cf_stmtsp actDump ++ cf_finalsp actDump) = false ->
  createEval v3Global icoLoop actTrig preTrigsp nbaTrigsp actFuncp nbaFuncp n
  = Fatal "Should only read state".
Proof.
  intros Hs Hd Hro. unfold createEval.
  erewrite bind_Ok; [|by eapply makeTopFunction_new].
  set (funcp := length (n_cfuncs n)).
  set (f0 := mkCFunc "_eval" (n_topScope n) [] [] true false true false false true true
               EmptyString).
  set (n1 := set_scopes _ _).
  rewrite (bind_Ok _ _ n1 tt (set_evalp (Some funcp) n1) eq_refl).
  set (n2 := set_evalp (Some funcp) n1).
  assert (Hlt : (m_dumpp actTrig < funcp)%nat) by (eapply lookup_lt_Some; eauto).
  assert (Hf2 : n_cfuncs n2 !! funcp = Some f0).
  { unfold n2, n1; simpl. by rewrite list_lookup_middle. }
  set (n3 := set_cfuncs (alter (cf_addStmtsp icoLoop) funcp) n2).
  assert (Hico : (match icoLoop with [] => mret () | _ => addStmtsp funcp icoLoop end) n2
                 = Ok (tt, n3)).
  { destruct icoLoop as [|i ico].
    - unfold mret, M_ret, n3. by rewrite set_cfuncs_addStmtsp_nil.
    - by apply addStmtsp_Ok with (f := f0). }
  rewrite (bind_Ok _ _ _ _ _ Hico).
  assert (Hd3 : n_cfuncs n3 !! m_dumpp actTrig = Some actDump).
  { unfold n3, n2, n1; simpl. rewrite list_lookup_alter_ne by lia.
    by rewrite lookup_app_l by done. }
  rewrite (bind_Ok _ _ _ _ _ (getCFunc_Ok _ _ _ Hd3)).
  erewrite bind_Ok; [|reflexivity].
  erewrite bind_Ok; [|reflexivity]. erewrite bind_Ok; [|reflexivity].
  by rewrite Hro.
Qed.

Lemma debugs_read_only name vscp (l : list nat) :
  forallb allRefsReadOnly ((fun i => debugIf name vscp (Z.of_nat i) EmptyString) <$> l) = true.
Proof. induction l as [|i l IH]; [done|]. rewrite fmap_cons. cbn [forallb]. by rewrite IH. Qed.

Lemma treeDebugs_read_only name vscp sts : forall k,
  forallb allRefsReadOnly (treeDebugs name vscp k sts) = true.
Proof. induction sts as [|st sts IH]; intros k; [done|]. cbn [treeDebugs forallb]. by rewrite IH. Qed.

(** X24: the dump function [createTriggers] makes only reads state, so
    [createEval] accepts the kit: with any nba vector it returns, and the
    [_eval] function it makes is the entry point of the netlist. *)
Theorem createTriggers_then_createEval b ps name extra slow n sc :
  n_scopes n !! n_topScope n = Some sc ->
  is_Some (n_cfuncs n !! m_initp b) ->
  Forall (triggerable v3Global n) ps ->
  0 <= extra -> extra + Z.of_nat (length ps) < 2 ^ 32 ->
  exists kit b' n' dump,
    createTriggers v3Global b ps name extra slow n = Ok ((kit, b'), n') /\
    n_cfuncs n' !! m_dumpp kit = Some dump /\
    forallb allRefsReadOnly (cf_stmtsp dump ++ cf_finalsp dump) = true /\
    forall icoLoop preTrigsp nbaTrigsp actFuncp nbaFuncp vn,
      n_varScopes n' !! nbaTrigsp = Some vn -> isTriggerVec (vsc_dtypep vn) = true ->
      exists n'',
        createEval v3Global icoLoop kit preTrigsp nbaTrigsp actFuncp nbaFuncp n' = Ok (tt, n'') /\
        n_evalp n'' = Some (length (n_cfuncs n')) /\
        n_cfuncs n'' !! S (length (n_cfuncs n')) = Some (nbaDump (m_vscp kit) nbaTrigsp dump).
Proof.
  intros Hsc Hi Hall Hex Hlen.
  destruct (createTriggers_full v3Global b ps name extra slow n sc Hsc Hi Hall Hex Hlen)
    as (b1 & sts & new & vs & nF & Hsts & Hrun & _
        & (_ & Htop & _ & _ & _ & _ & _ & Hscs & _ & _ & Hvs) & (_ & _ & _ & Hdump)).
  eexists _, _, nF, _. split; [exact Hrun|]. cbn [m_vscp m_funcp m_dumpp].
  split; [exact Hdump|].
  assert (Hro : forallb allRefsReadOnly
                  (cf_stmtsp (newFunc ("_dump_triggers__" +:+ name) (n_topScope n)
                     (noTriggerIf (length (n_varScopes n))
                      :: ((fun i => debugIf name (length (n_varScopes n)) (Z.of_nat i) EmptyString)
                            <$> seq 0 (Z.to_nat extra))
                      ++ treeDebugs name (length (n_varScopes n)) extra sts) slow "VL_DEBUG")
                   ++ []) = true).
  { rewrite app_nil_r. cbn [cf_stmtsp newFunc forallb].
    rewrite forallb_app, debugs_read_only, treeDebugs_read_only. done. }
  split; [exact Hro|].
  intros icoLoop preTrigsp nbaTrigsp actFuncp nbaFuncp vn Hvn Htvn.
  set (kit := mkTriggerKit (length (n_varScopes n)) (length (n_cfuncs n))
                (S (length (n_cfuncs n))) (trigMap ∅ ps (length (n_senTrees n)))).
  assert (HscF : n_scopes nF !! n_topScope nF
                 = Some (sc_addActivep (BCFunc (S (length (n_cfuncs n))))
                           (sc_addActivep (BCFunc (length (n_cfuncs n))) sc))).
  { rewrite Htop, Hscs, !list_lookup_alter_eq, Hsc. done. }
  assert (HvF : n_varScopes nF !! m_vscp kit
                = Some (mkVarScope ("__V" +:+ name +:+ "Triggered") (n_topScope n)
                          (mkBasicDType TRIGGERVEC (extra + Z.of_nat (length ps))
                             (extra + Z.of_nat (length ps))))).
  { cbn [m_vscp kit]. rewrite Hvs. by apply list_lookup_middle. }
  destruct (createEval_Ok v3Global icoLoop kit preTrigsp nbaTrigsp actFuncp nbaFuncp nF
              _ _ _ vn HscF Hdump Hro HvF eq_refl Hvn Htvn) as (n'' & Hev & Hevalp & _).
  destruct (createEval_dump icoLoop kit preTrigsp nbaTrigsp actFuncp nbaFuncp nF
              _ _ _ vn HscF Hdump Hro HvF eq_refl Hvn Htvn) as (n3 & Hev3 & _ & Hd3 & _).
  rewrite Hev in Hev3. injection Hev3 as <-.
  exists n''. by split_and!.
Qed.

End EvalMore.

(** ** The further properties on the example design *)

Module MoreExamples.
Import Example.

#[local] Existing Instance Example.queries.

Lemma getPrev_again_witness :
  exists v b1 n1,
    getPrev (newSenExprBuilder design 0) clk design = Ok ((v, b1), n1) /\
    getPrev b1 clk n1 = Ok ((v, b1), n1).
Proof.
  destruct (getPrev (newSenExprBuilder design 0) clk design) as [[[v b1] n1]|msg] eqn:H.
  - exists v, b1, n1. split; [reflexivity|]. exact (getPrev_again _ _ _ _ _ _ H).
  - vm_compute in H. discriminate H.
Defined.

Lemma build_updates_witness :
  exists r b' n',
    build g (newSenExprBuilder design 0) 3 design = Ok (r, b', n') /\
    m_updates b' = [shadowAssign va 3; shadowAssign vb 4].
Proof.
  destruct (build g (newSenExprBuilder design 0) 3 design) as [[[r b'] n']|msg] eqn:H.
  - exists r, b', n'. split; [reflexivity|].
    destruct (build_updates g _ _ _ _ _ _ H) as (st & Hst & Hu & _).
    injection Hst as <-. rewrite Hu.
    vm_compute in H. injection H as <- <- <-. reflexivity.
  - vm_compute in H. discriminate H.
Defined.

Lemma build_again_witness :
  exists r fired b1 n1,
    build g (newSenExprBuilder design 0) 3 design = Ok ((r, fired), b1, n1) /\
    build g b1 3 n1 = Ok ((r, fired), b1, n1).
Proof.
  destruct (build g (newSenExprBuilder design 0) 3 design) as [[[[r fired] b1] n1]|msg] eqn:H.
  - exists r, fired, b1, n1. split; [reflexivity|].
    destruct (build_again g _ _ _ _ _ _ _ b1 n1 H (fun e v Hv => Hv)) as (b3 & Hb & _).
    + vm_compute in H. injection H as <- <- <- <-. reflexivity.
    + rewrite Hb. vm_compute in H. injection H as <- <- <- <-.
      vm_compute in Hb. injection Hb as <-. reflexivity.
  - vm_compute in H. discriminate H.
Defined.

Lemma build_rejects_witness :
  exists msg, build g (newSenExprBuilder design 0) 0 design = Fatal msg.
Proof.
  refine (build_rejects g (newSenExprBuilder design 0) 0%nat design _ eq_refl _).
  apply Exists_cons_hd. reflexivity.
Defined.


Lemma createTriggers_dump_function_witness :
  exists kit b' n',
    createTriggers g (newSenExprBuilder design 0) [1; 3]%nat "act" 1 false design
    = Ok ((kit, b'), n') /\
    (fun f => (cf_name f, cf_ifdef f, length (cf_stmtsp f)))
      <$> n_cfuncs n' !! m_dumpp kit
    = Some ("_dump_triggers__act", "VL_DEBUG", 4%nat).
Proof.
  destruct (createTriggers_dump_function g (newSenExprBuilder design 0) [1; 3]%nat "act" 1
              false design _ eq_refl (ex_intro _ _ eq_refl) design_triggerable
              ltac:(lia) ltac:(simpl; lia))
    as (kit & b' & n' & sts & Hrun & _).
  exists kit, b', n'. split; [exact Hrun|].
  vm_compute in Hrun. injection Hrun as <- <- <-. vm_compute. reflexivity.
Defined.

Lemma createTriggers_frame_witness :
  exists kit b' n',
    createTriggers g (newSenExprBuilder design 0) [1; 3]%nat "act" 1 false design
    = Ok ((kit, b'), n') /\
    n_actives n' = n_actives design /\
    sc_activesp <$> n_scopes n' !! 0%nat
    = Some [BActive 0; BActive 1; BActive 2; BCFunc 1; BCFunc 2].
Proof.
  destruct (createTriggers_frame g (newSenExprBuilder design 0) [1; 3]%nat "act" 1
              false design _ eq_refl (ex_intro _ _ eq_refl) design_triggerable
              ltac:(lia) ltac:(simpl; lia))
    as (kit & b' & n' & Hrun & _ & Hact & _).
  exists kit, b', n'. split; [exact Hrun|]. split; [exact Hact|].
  vm_compute in Hrun. injection Hrun as <- <- <-. vm_compute. reflexivity.
Defined.



Lemma createTriggers_rejects_unclocked_witness :
  exists msg,
    createTriggers g (newSenExprBuilder design 0) [1; 2]%nat "act" 1 false design = Fatal msg.
Proof.
  refine (createTriggers_rejects_unclocked g (newSenExprBuilder design 0) [1; 2]%nat "act" 1
            false design 2%nat _ _ eq_refl eq_refl).
  right. left.
Defined.

Lemma remapSensitivities_remaps_witness :
  exists n',
    remapSensitivities [(0, 2); (1, 3)]%nat {[1%nat := 4%nat]} design = Ok (tt, n') /\
    n_actives n' !! 2%nat = Some (Some (mkActive 4 [stmt "p"])) /\
    n_actives n' !! 4%nat = n_actives design !! 4%nat.
Proof.
  destruct (remapSensitivities_remaps [(0, 2); (1, 3)]%nat {[1%nat := 4%nat]} design)
    as (n' & Hrun & _ & Hout & _).
  - apply (bool_decide_unpack _). vm_compute. exact I.
  - intros pr [->|[->|[]%elem_of_nil]%elem_of_cons]%elem_of_cons;
      (eexists _, _; split; [reflexivity|]; split; [reflexivity|]);
      intros _; by eexists.
  - exists n'. split; [exact Hrun|]. split.
    + vm_compute in Hrun. injection Hrun as <-. reflexivity.
    + apply Hout. apply (bool_decide_unpack _). vm_compute. exact I.
Defined.

Lemma remapSensitivities_missing_key_witness :
  exists msg, remapSensitivities [(0, 2)]%nat ∅ design = Fatal msg.
Proof.
  refine (remapSensitivities_missing_key [(0, 2)]%nat ∅ design (0, 2)%nat
            (mkActive 1 [stmt "p"]) _ _ _ eq_refl eq_refl eq_refl eq_refl).
  - apply (bool_decide_unpack _). vm_compute. exact I.
  - left.
Defined.

Lemma invertAndMergeSenTreeMap_inverts_witness :
  exists r,
    invertAndMergeSenTreeMap ∅ {[1%nat := 4%nat]} design = Ok (r, design) /\
    r !! 4%nat = Some 1%nat.
Proof.
  destruct (invertAndMergeSenTreeMap_inverts ∅ {[1%nat := 4%nat]} design)
    as (r & Hrun & _ & _ & _ & Hinv).
  - intros k v [<- <-]%lookup_singleton_Some. eexists. split; reflexivity.
  - exists r. split; [exact Hrun|]. apply Hinv.
    + intros k1 k2 v [<- _]%lookup_singleton_Some [<- _]%lookup_singleton_Some. reflexivity.
    + intros k v _. apply lookup_empty.
    + apply lookup_singleton_eq.
Defined.

Lemma invertAndMergeSenTreeMap_rejects_witness :
  exists msg, invertAndMergeSenTreeMap ∅ {[1%nat := 3%nat]} design = Fatal msg.
Proof.
  refine (invertAndMergeSenTreeMap_rejects ∅ {[1%nat := 3%nat]} design 1%nat 3%nat _ _
            eq_refl _).
  - apply lookup_singleton_eq.
  - discriminate.
Defined.


Definition initials : LogicClasses := mkLogicClasses [] [(0, 0); (1, 5)]%nat [] [] [] [].

Lemma createInitial_entry_point_witness :
  exists n',
    createInitial initials design = Ok (1%nat, n') /\
    (fun f => (cf_name f, cf_slow f, cf_entryPoint f)) <$> n_cfuncs n'
    = [("f", false, false); ("_eval_initial", true, true);
       ("_eval_initial__TOP", true, false); ("_eval_initial__TOP__sub", true, false)].
Proof.
  destruct (createInitial_entry_point initials design _ eq_refl) as (n' & Hrun & _).
  - repeat (apply Forall_cons; split; [split; eexists; reflexivity|]). apply Forall_nil_2.
  - apply (bool_decide_unpack _). vm_compute. exact I.
  - exists n'. split; [exact Hrun|].
    vm_compute in Hrun. injection Hrun as <-. reflexivity.
Defined.

(** A function with a final statement, and the splitting of functions on. *)
Definition gSplit : V3Global := mkGlobal (mkOptions 1 100 false false false) false.

Definition withFinal : AstNetlist :=
  mkNetlist ("t.v", 1) [mkScope "TOP" [BCFunc 0]] 0 [] [] []
    [mkCFunc "f" 0 [stmt "x"] [stmt "y"] true false true false false true false EmptyString]
    [] [] None None None.

Lemma splitCheck_rejects_finals_witness :
  splitCheck gSplit 0 withFinal = Fatal "Should not have any finalps".
Proof.
  refine (splitCheck_rejects_finals gSplit withFinal 0%nat _ eq_refl _ _ _ _).
  - discriminate.
  - discriminate.
  - vm_compute. discriminate.
  - discriminate.
Defined.

Lemma makeEvalLoop_rejects_other_types_witness :
  makeEvalLoop g "act" "Active" 0 0 (mret []) (mret []) design = Fatal "Not TRIGGERVEC".
Proof.
  exact (makeEvalLoop_rejects_other_types g "act" "Active" 0%nat 0%nat (mret []) (mret [])
           design _ eq_refl eq_refl).
Defined.



Lemma createEval_nba_dump_function_witness :
  exists n',
    createEval g [] actKit 1 2 2 3 evalNet = Ok (tt, n') /\
    n_cfuncs n' !! 5%nat
    = Some (mkCFunc "_dump_triggers__nba" 0
              [AstIf (trigAt 2 0 READ) [AstText "trigger 0 of nba is active" true] []
                 BP_UNKNOWN]
              [] true false true false false true false "VL_DEBUG") /\
    sc_activesp <$> n_scopes n' !! 0%nat
    = Some [BCFunc 0; BCFunc 1; BCFunc 5; BCFunc 2; BCFunc 3; BCFunc 4].
Proof.
  destruct (createEval_nba_dump_function g [] actKit 1%nat 2%nat 2%nat 3%nat evalNet
              (mkScope "TOP" [BCFunc 0; BCFunc 1; BCFunc 2; BCFunc 3])
              (mkCFunc "_dump_triggers__act" 0
                 [AstIf (trigAt 0 0 READ) [AstText "trigger 0 of act is active" true] []
                    BP_UNKNOWN]
                 [] true false true false false true false "VL_DEBUG")
              (mkVarScope "__VactTriggered" 0 trigVec)
              (mkVarScope "__VnbaTriggered" 0 trigVec)
              eq_refl eq_refl eq_refl eq_refl eq_refl eq_refl eq_refl)
    as (n' & Hrun & _ & Hd & _ & Hs).
  exists n'. split; [exact Hrun|]. split.
  - exact Hd.
  - rewrite Hs. reflexivity.
Defined.

(** The netlist of the loops with a dump function that writes. *)
Definition writingNet : AstNetlist :=
  set_cfuncs (alter (cf_setStmtsp [AstAssign (AstVarRef 0 WRITE) (AstConst32 0)]) 1%nat) evalNet.

Lemma createEval_rejects_writes_witness :
  createEval g [] actKit 1 2 2 3 writingNet = Fatal "Should only read state".
Proof.
  exact (createEval_rejects_writes g [] actKit 1%nat 2%nat 2%nat 3%nat writingNet _ _
           eq_refl eq_refl eq_refl).
Defined.

Lemma createTriggers_then_createEval_witness :
  exists kit b' n' n'',
    createTriggers g (newSenExprBuilder design 0) [1; 3]%nat "act" 1 false design
    = Ok ((kit, b'), n') /\
    createEval g [] kit 3 3 0 0 n' = Ok (tt, n'') /\
    cf_name <$> n_cfuncs n'' = ["f"; "_eval_triggers__act"; "_dump_triggers__act"; "_eval";
                                "_dump_triggers__nba"].
Proof.
  destruct (createTriggers_then_createEval g (newSenExprBuilder design 0) [1; 3]%nat "act" 1
              false design _ eq_refl (ex_intro _ _ eq_refl) design_triggerable
              ltac:(lia) ltac:(simpl; lia))
    as (kit & b' & n' & dump & Hrun & _ & _ & Heval).
  pose proof Hrun as Hrun'. vm_compute in Hrun'. injection Hrun' as <- <- <-.
  destruct (Heval [] 3%nat 3%nat 0%nat 0%nat _ eq_refl eq_refl) as (n'' & Hev & _).
  eexists _, _, _, n''. split; [exact Hrun|]. split; [exact Hev|].
  vm_compute in Hev. injection Hev as <-. reflexivity.
Defined.

Lemma getSenTreesUsedBy_first_use_order_witness :
  getSenTreesUsedBy [[(1, 5); (0, 2)]; [(1, 4); (1, 3); (1, 6); (0, 2)]]%nat design
  = Ok ([3; 1; 4]%nat, design).
Proof.
  rewrite (getSenTreesUsedBy_first_use_order design
             [[(1, 5); (0, 2)]; [(1, 4); (1, 3); (1, 6); (0, 2)]]%nat).
  - vm_compute. reflexivity.
  - repeat (apply Forall_cons; split; [|]); try apply Forall_nil_2;
      eexists _, _; split; reflexivity.
Defined.

End MoreExamples.
